(** * docker_auth: configuration validation, static users and the GitHub
    authenticator

    A shallow embedding of three source files of the token-issuance
    service:

    - [auth_server/authn/github_auth.go]: Link-header parsing, team
      collection and token revalidation of the GitHub authenticator;
    - the static-user authenticator ([Requirements], [staticUsersAuth]);
    - the server configuration ([Config], [validate], [LoadConfig]).

    Go strings are byte strings and are modelled by [string]; a Go [error]
    is a value of the inductive type [error]; a pointer that may be [nil]
    is an [option]; a slice or map that the code compares with [nil] is an
    [option] of a list or of a finite map.  Calls that leave the process
    (HTTP, the file system, bcrypt, JSON encoding, certificate loading) are
    parameters of the sections that use them. *)

From Stdlib Require Import ZArith Ascii String List Lia.
From stdpp Require Import base option list gmap strings.

Local Open Scope Z_scope.

(** ** Outcomes and errors *)

(** What running a Go function can lead to: it returns a value, it panics
    (index out of range, nil dereference), or, for the one unbounded loop of
    the program, the step budget given to the model is used up. *)
Inductive outcome (A : Type) : Type :=
| Returned (a : A)
| Panicked
| OutOfFuel.
Arguments Returned {A} a.
Arguments Panicked {A}.
Arguments OutOfFuel {A}.

Definition obind {A B : Type} (x : outcome A) (f : A → outcome B) : outcome B :=
  match x with
  | Returned a => f a
  | Panicked => Panicked
  | OutOfFuel => OutOfFuel
  end.

Notation "x ←! e1 ; e2" := (obind e1 (fun x => e2))
  (at level 20, e1 at level 100, e2 at level 200, right associativity,
   only parsing).

(** An argument of [fmt.Errorf]. *)
Inductive fmt_arg : Type :=
| ArgS (s : string)
| ArgD (n : Z).

(** Go errors.  [NoMatch] and [WrongPass] are the sentinels of package
    [api], [ExpiredToken] the one of the token database; the other
    constructors record the call that built the error.  [fmt_Errorf_err] is
    a call of [fmt.Errorf] whose last argument is an error (it is the last
    one in every such call of this program). *)
Inductive error : Type :=
| NoMatch
| WrongPass
| ExpiredToken
| errors_New (msg : string)
| fmt_Errorf (format : string) (args : list fmt_arg)
| fmt_Errorf_err (format : string) (args : list fmt_arg) (err : error).

(** ** Package [strings] of the Go library, on byte strings *)

Module GoStrings.

Fixpoint rev (s : string) : string :=
  match s with
  | EmptyString => EmptyString
  | String c s' => rev s' +:+ String c EmptyString
  end.

(** [strings.HasPrefix]. *)
Fixpoint HasPrefix (s prefix : string) : bool :=
  match prefix, s with
  | EmptyString, _ => true
  | String p prefix', String c s' => bool_decide (p = c) && HasPrefix s' prefix'
  | String _ _, EmptyString => false
  end.

(** [strings.Contains]. *)
Fixpoint Contains (s substr : string) : bool :=
  HasPrefix s substr ||
  match s with
  | EmptyString => false
  | String _ s' => Contains s' substr
  end.

(** [strings.Split] for a non-empty separator: the pieces between the
    non-overlapping occurrences of [sep], found from the left.  [skip]
    counts the bytes of a matched separator still to be passed over and
    [cur] is the piece being read.  (With an empty separator Go splits
    after each UTF-8 sequence; no call of this program does that.) *)
Fixpoint Split_go (sep : string) (skip : nat) (cur : string) (s : string)
  : list string :=
  match s with
  | EmptyString => [cur]
  | String c s' =>
      match skip with
      | S k => Split_go sep k cur s'
      | O =>
          if HasPrefix s sep
          then cur :: Split_go sep (String.length sep - 1) EmptyString s'
          else Split_go sep O (cur +:+ String c EmptyString) s'
      end
  end.

Definition Split (s sep : string) : list string := Split_go sep O EmptyString s.

(** [strings.Replace(s, old, new, -1)]: every non-overlapping occurrence
    of [old], found from the left, becomes [new].  Every call of this
    program passes [-1], a one-byte [old] and an empty [new]; with an empty
    [old] Go inserts [new] around every UTF-8 sequence, which for an empty
    [new] gives [s] back. *)
Fixpoint Replace_go (old new : string) (skip : nat) (s : string) : string :=
  match s with
  | EmptyString => EmptyString
  | String c s' =>
      match skip with
      | S k => Replace_go old new k s'
      | O =>
          if HasPrefix s old
          then new +:+ Replace_go old new (String.length old - 1) s'
          else String c (Replace_go old new O s')
      end
  end.

Definition Replace (s old new : string) : string :=
  match old with
  | EmptyString => s
  | _ => Replace_go old new O s
  end.

(** White space as [unicode.IsSpace] sees it, on the UTF-8 bytes: the six
    ASCII characters, and the encodings of U+0085, U+00A0 (two bytes) and
    of U+1680, U+2000..U+200A, U+2028, U+2029, U+202F, U+205F, U+3000
    (three bytes). *)
Definition is_space1 (a : ascii) : bool :=
  let n := N_of_ascii a in
  ((9 <=? n) && (n <=? 13) || (n =? 32))%N.

Definition is_space2 (a b : ascii) : bool :=
  let x := N_of_ascii a in
  let y := N_of_ascii b in
  ((x =? 194) && ((y =? 133) || (y =? 160)))%N.

Definition is_space3 (a b c : ascii) : bool :=
  let x := N_of_ascii a in
  let y := N_of_ascii b in
  let z := N_of_ascii c in
  ((x =? 225) && (y =? 154) && (z =? 128)
   || (x =? 226) && (y =? 128)
      && ((128 <=? z) && (z <=? 138) || (z =? 168) || (z =? 169) || (z =? 175))
   || (x =? 226) && (y =? 129) && (z =? 159)
   || (x =? 227) && (y =? 128) && (z =? 128))%N.

(** Dropping the leading white-space runes. *)
Fixpoint TrimLeftSpace (s : string) : string :=
  match s with
  | String a s1 =>
      if is_space1 a then TrimLeftSpace s1
      else
        match s1 with
        | String b s2 =>
            if is_space2 a b then TrimLeftSpace s2
            else
              match s2 with
              | String c s3 => if is_space3 a b c then TrimLeftSpace s3 else s
              | EmptyString => s
              end
        | EmptyString => s
        end
  | EmptyString => s
  end.

(** The same on the reversed string: the bytes of a rune arrive last
    byte first. *)
Fixpoint TrimLeftSpace_rev (s : string) : string :=
  match s with
  | String a s1 =>
      if is_space1 a then TrimLeftSpace_rev s1
      else
        match s1 with
        | String b s2 =>
            if is_space2 b a then TrimLeftSpace_rev s2
            else
              match s2 with
              | String c s3 => if is_space3 c b a then TrimLeftSpace_rev s3 else s
              | EmptyString => s
              end
        | EmptyString => s
        end
  | EmptyString => s
  end.

Definition TrimRightSpace (s : string) : string := rev (TrimLeftSpace_rev (rev s)).

(** [strings.TrimSpace]. *)
Definition TrimSpace (s : string) : string := TrimRightSpace (TrimLeftSpace s).

End GoStrings.


(** ** Package [api]: labels and passwords *)

(** [api.Labels] is [map[string][]string]; [None] is the nil map. *)
Definition Labels : Type := option (gmap string (list string)).

(** [api.PasswordString] is a string type. *)
Definition PasswordString : Type := string.

(** ** The outside world *)

(** An HTTP request as the program builds it and a response as it reads
    it: [Body] is what [ioutil.ReadAll] gives, [Header] the header map. *)
Record Request : Type := mkRequest {
  Method : string;
  URL : string;
  req_Header : list (string * string)
}.

Record Response : Type := mkResponse {
  StatusCode : Z;
  Status : string;
  Header : gmap string (list string);
  Body : string
}.

(** [net/http]: [bad_url] is the error [http.NewRequest] gives for a URL it
    cannot parse, [client_Do] the round trip of [http.Client.Do]. *)
Class Http : Type := {
  bad_url : string → option error;
  client_Do : Request → error + Response
}.

Definition http_NewRequest `{Http} (method url : string) : error + Request :=
  match bad_url url with
  | Some e => inl e
  | None => inr (mkRequest method url [])
  end.

(** [req.Header.Add]. *)
Definition Header_Add (req : Request) (key value : string) : Request :=
  mkRequest (Method req) (URL req) (req_Header req ++ [(key, value)]).

(** ** [github_auth.go] *)

Record GitHubOrganization : Type := mkGitHubOrganization {
  Login : string;
  org_Id : Z
}.

Record ParentGitHubTeam : Type := mkParentGitHubTeam {
  parent_Id : Z;
  parent_Name : string;
  parent_Slug : string
}.

Record GitHubTeam : Type := mkGitHubTeam {
  Id : Z;
  Url : string;
  Name : string;
  Slug : string;
  Organization : option GitHubOrganization;
  Parent : option ParentGitHubTeam
}.

Definition GitHubTeamCollection : Type := list GitHubTeam.

Record GitHubGCSStoreConfig : Type := mkGitHubGCSStoreConfig {
  Bucket : string;
  gcs_ClientSecretFile : string
}.

(** [redis.Options] and [redis.ClusterOptions] belong to the Redis client
    library, which is not part of this repository; the program only tests
    pointers to them against nil, and only an address is kept of each. *)
Record redis_Options : Type := mk_redis_Options { Addr : string }.
Record redis_ClusterOptions : Type := mk_redis_ClusterOptions { Addrs : list string }.

Record GitHubRedisStoreConfig : Type := mkGitHubRedisStoreConfig {
  ClientOptions : option redis_Options;
  ClusterOptions : option redis_ClusterOptions
}.

Record GitHubAuthConfig : Type := mkGitHubAuthConfig {
  gh_Organization : string;
  ClientId : string;
  ClientSecret : string;
  ClientSecretFile : string;
  TokenDB : string;
  GCSTokenDB : option GitHubGCSStoreConfig;
  RedisTokenDB : option GitHubRedisStoreConfig;
  HTTPTimeout : Z;
  RevalidateAfter : Z;
  GithubWebUri : string;
  GithubApiUri : string;
  RegistryUrl : string
}.

Record GitHubTokenUser : Type := mkGitHubTokenUser {
  user_Login : string;
  Email : string
}.

Record linkHeader : Type := mklinkHeader {
  First : string;
  Last : string;
  Next : string;
  Prev : string
}.

(** [encoding/json] on the two shapes the GitHub client decodes. *)
Class GitHubJson : Type := {
  Unmarshal_teams : string → error + GitHubTeamCollection;
  Unmarshal_user : string → error + GitHubTokenUser
}.

Definition execGHExperimentalApiRequest `{Http} (url token : string)
  : error + Response :=
  match http_NewRequest "GET" url with
  | inl err =>
      inl (fmt_Errorf_err "could not create an http request for uri: %s. Error: %s"
             [ArgS url] err)
  | inr req =>
      let req := Header_Add req "Authorization" ("token " +:+ token) in
      let req := Header_Add req "Accept" "application/vnd.github.hellcat-preview+json" in
      match client_Do req with
      | inl err =>
          inl (fmt_Errorf_err "HTTP error while retrieving %s. Error : %s" [ArgS url] err)
      | inr resp => inr resp
      end
  end.

Definition removeSubstringsFromString (sourceStr : string) (stringsToStrip : list string)
  : string :=
  fold_left (fun theNewString i => GoStrings.Replace theNewString i "") stringsToStrip
    sourceStr.

(** The body of the inner loop of [parseLinkHeader] for one [linkItem].
    [linkData[0]] always exists; [linkData[1]] is read without a length
    check, so an item without [";"] panics. *)
Definition parseLinkItem (lH : linkHeader) (linkItem : string) : outcome linkHeader :=
  let stringsToRemove := ["<"; ">"] in
  let linkData := GoStrings.Split linkItem ";" in
  match linkData !! 0%nat with
  | None => Panicked
  | Some linkData0 =>
      let trimmedUrl :=
        removeSubstringsFromString (GoStrings.TrimSpace linkData0) stringsToRemove in
      match linkData !! 1%nat with
      | None => Panicked
      | Some linkVal =>
          Returned
            (if GoStrings.Contains linkVal "first"
             then mklinkHeader trimmedUrl (Last lH) (Next lH) (Prev lH)
             else if GoStrings.Contains linkVal "last"
             then mklinkHeader (First lH) trimmedUrl (Next lH) (Prev lH)
             else if GoStrings.Contains linkVal "next"
             then mklinkHeader (First lH) (Last lH) trimmedUrl (Prev lH)
             else if GoStrings.Contains linkVal "prev"
             then mklinkHeader (First lH) (Last lH) (Next lH) trimmedUrl
             else lH)
      end
  end.

Fixpoint parseLinkItems (lH : linkHeader) (linkItems : list string) : outcome linkHeader :=
  match linkItems with
  | [] => Returned lH
  | linkItem :: rest => lH' ←! parseLinkItem lH linkItem; parseLinkItems lH' rest
  end.

Fixpoint parseLinkLines (lH : linkHeader) (linkLines : list string) : outcome linkHeader :=
  match linkLines with
  | [] => Returned lH
  | linkLine :: rest =>
      lH' ←! parseLinkItems lH (GoStrings.Split linkLine ",");
      parseLinkLines lH' rest
  end.

(** [parseLinkHeader]; the error it returns is always nil. *)
Definition parseLinkHeader (linkLines : list string) : outcome (linkHeader * option error) :=
  lH ←! parseLinkLines (mklinkHeader "" "" "" "") linkLines;
  Returned (lH, None).

(** [TokenDBValue] of the token database (declared outside these files):
    the fields this file reads and writes, and the hash of the database
    password that the database keeps with them. *)
Record TokenDBValue : Type := mkTokenDBValue {
  TokenType : string;
  AccessToken : string;
  ValidUntil : Z;
  DockerPassword : string;
  tv_Labels : Labels
}.

(** [v.ValidUntil = t]. *)
Definition set_ValidUntil (v : TokenDBValue) (t : Z) : TokenDBValue :=
  mkTokenDBValue (TokenType v) (AccessToken v) t (DockerPassword v) (tv_Labels v).

(** The [TokenDB] interface, over a type [DB] of database states.  Each
    method takes the state and, when it writes, gives the new one. *)
Class TokenDBOps (DB : Type) : Type := {
  GetValue : DB → string → error + option TokenDBValue;
  StoreToken : DB → string → TokenDBValue → bool → DB * (string * option error);
  ValidateToken : DB → string → PasswordString → option error
}.

(** [GitHubAuth]: the configuration and the database handle (the HTTP
    client is the [Http] instance; the page templates play no part in what
    follows). *)
Record GitHubAuth (DB : Type) : Type := mkGitHubAuth {
  config : GitHubAuthConfig;
  db : DB
}.
Arguments mkGitHubAuth {DB} _ _.
Arguments config {DB} _.
Arguments db {DB} _.

Section GitHub.
Context `{Http} `{GitHubJson} {DB : Type} `{TokenDBOps DB}.

Definition getGithubApiUri (gha : GitHubAuth DB) : string :=
  if decide (GithubApiUri (config gha) ≠ "")
  then GithubApiUri (config gha)
  else "https://api.github.com".

Definition getGithubWebUri (gha : GitHubAuth DB) : string :=
  if decide (GithubWebUri (config gha) ≠ "")
  then GithubWebUri (config gha)
  else "https://github.com".

Definition checkOrganization (gha : GitHubAuth DB) (token user : string) : option error :=
  if decide (gh_Organization (config gha) = "") then None
  else
    let url :=
      getGithubApiUri gha +:+ "/orgs/" +:+ gh_Organization (config gha) +:+ "/members/"
        +:+ user in
    match http_NewRequest "GET" url with
    | inl err =>
        Some (fmt_Errorf_err "could not create request to get organization membership: %s"
                [] err)
    | inr req =>
        let req := Header_Add req "Authorization" ("token " +:+ token) in
        match client_Do req with
        | inl err => Some err
        | inr resp =>
            if decide (StatusCode resp = 204) then None
            else if decide (StatusCode resp = 404) then
              Some (fmt_Errorf "user %s is not a member of organization %s"
                      [ArgS user; ArgS (gh_Organization (config gha))])
            else if decide (StatusCode resp = 302) then
              Some (fmt_Errorf "token %s could not get membership for organization %s"
                      [ArgS token; ArgS (gh_Organization (config gha))])
            else
              Some (fmt_Errorf "Unknown status for membership of organization %s: %s"
                      [ArgS (gh_Organization (config gha)); ArgS (Status resp)])
        end
    end.

Definition validateAccessToken (gha : GitHubAuth DB) (token : string) : string * option error :=
  match http_NewRequest "GET" (getGithubApiUri gha +:+ "/user") with
  | inl err =>
      ("", Some (fmt_Errorf_err "could not create request to get information for token %s: %s"
                   [ArgS token] err))
  | inr req =>
      let req := Header_Add req "Authorization" ("token " +:+ token) in
      let req := Header_Add req "Accept" "application/json" in
      match client_Do req with
      | inl err =>
          ("", Some (fmt_Errorf_err "could not verify token %s: %s" [ArgS token] err))
      | inr resp =>
          match Unmarshal_user (Body resp) with
          | inl err =>
              ("", Some (fmt_Errorf_err "could not unmarshal token user info %q: %s"
                           [ArgS (Body resp)] err))
          | inr ti =>
              match checkOrganization gha token (user_Login ti) with
              | Some err =>
                  ("", Some (fmt_Errorf_err "could not validate organization: %s" [] err))
              | None => (user_Login ti, None)
              end
          end
      end
  end.

(** The paging loop of [fetchTeams]: one unit of [fuel] per request.  The
    result is the transport or decoding error that ended the loop, or all
    the teams read. *)
Fixpoint fetchTeamPages (fuel : nat) (token url : string) (allTeams : GitHubTeamCollection)
  : outcome (error + GitHubTeamCollection) :=
  if decide (url = "") then Returned (inr allTeams)
  else
    match fuel with
    | O => OutOfFuel
    | S fuel' =>
        match execGHExperimentalApiRequest url token with
        | inl err => Returned (inl err)
        | inr resp =>
            match Unmarshal_teams (Body resp) with
            | inl err =>
                Returned
                  (inl (fmt_Errorf_err
                          "Error parsing the JSON response while fetching teams: %s" [] err))
            | inr pagedTeams =>
                let allTeams := allTeams ++ pagedTeams in
                match Header resp !! "Link" with
                | Some link =>
                    parsed ←! parseLinkHeader link;
                    fetchTeamPages fuel' token (Next (fst parsed)) allTeams
                | None => fetchTeamPages fuel' token "" allTeams
                end
            end
        end
    end.

(** The loop that fills [organizationTeamsMap]; [item.Organization.Login]
    dereferences the pointer without a nil check. *)
Fixpoint collectOrganizationTeams (organization : string)
  (organizationTeamsMap : gmap string bool) (allTeams : GitHubTeamCollection)
  : outcome (gmap string bool) :=
  match allTeams with
  | [] => Returned organizationTeamsMap
  | item :: rest =>
      match Organization item with
      | None => Panicked
      | Some o =>
          if decide (Login o = organization) then
            let m := <[Slug item := true]> organizationTeamsMap in
            let m :=
              match Parent item with
              | Some p => <[parent_Slug p := true]> m
              | None => m
              end in
            collectOrganizationTeams organization m rest
          else collectOrganizationTeams organization organizationTeamsMap rest
      end
  end.

(** [fetchTeams].  The slice is [None] when nil.  Ranging over a Go map
    visits the keys in an unspecified order; here it is the order of
    [map_to_list], and nothing proved below depends on it. *)
Definition fetchTeams (gha : GitHubAuth DB) (fuel : nat) (token : string)
  : outcome (option (list string) * option error) :=
  if decide (gh_Organization (config gha) = "") then Returned (None, None)
  else
    let url := getGithubApiUri gha +:+ "/user/teams?per_page=100" in
    pages ←! fetchTeamPages fuel token url [];
    match pages with
    | inl err => Returned (None, Some err)
    | inr allTeams =>
        organizationTeamsMap ←!
          collectOrganizationTeams (gh_Organization (config gha)) ∅ allTeams;
        Returned (Some (map_to_list organizationTeamsMap).*1, None)
    end.

(** [validateServerToken].  [now] is the clock reading that sets the new
    [ValidUntil]; the two other readings only feed log lines. *)
Definition validateServerToken (gha : GitHubAuth DB) (now : Z) (user : string)
  : GitHubAuth DB * (option TokenDBValue * option error) :=
  match GetValue (db gha) user with
  | inl err => (gha, (None, Some err))
  | inr None => (gha, (None, Some (errors_New "no db value, please sign out and sign in again")))
  | inr (Some v) =>
      match validateAccessToken gha (AccessToken v) with
      | (_, Some err) => (gha, (None, Some (fmt_Errorf_err "server token invalid: %s" [] err)))
      | (tokenUser, None) =>
          if decide (tokenUser ≠ user) then
            (gha, (None, Some (fmt_Errorf "found token for wrong user" [])))
          else
            let v := set_ValidUntil v (now + RevalidateAfter (config gha)) in
            match StoreToken (db gha) user v false with
            | (db', (_, Some err)) =>
                (mkGitHubAuth (config gha) db',
                 (None, Some (fmt_Errorf_err "Unable to store renewed token expiry time: %s"
                                [] err)))
            | (db', (_, None)) => (mkGitHubAuth (config gha) db', (Some v, None))
            end
      end
  end.

(** [GitHubAuth.Authenticate]. *)
Definition GitHubAuth_Authenticate (gha : GitHubAuth DB) (now : Z) (user : string)
  (password : PasswordString) : GitHubAuth DB * (bool * Labels * option error) :=
  let continue (gha : GitHubAuth DB) :=
    match GetValue (db gha) user with
    | inl err => (gha, (false, None, Some err))
    | inr None =>
        (gha, (false, None,
               Some (errors_New "no db value, please sign out and sign in again")))
    | inr (Some v) => (gha, (true, tv_Labels v, None))
    end in
  match ValidateToken (db gha) user password with
  | Some ExpiredToken =>
      match validateServerToken gha now user with
      | (gha', (_, Some err)) => (gha', (false, None, Some err))
      | (gha', (_, None)) => continue gha'
      end
  | Some err => (gha, (false, None, Some err))
  | None => continue gha
  end.

End GitHub.

(** ** The static-user authenticator *)

Record Requirements : Type := mkRequirements {
  Password : option PasswordString;
  req_Labels : Labels
}.

(** [users] is [map[string]*Requirements]: the map may be nil, and so may
    the pointer stored under a key. *)
Record staticUsersAuth : Type := mkstaticUsersAuth {
  users : option (gmap string (option Requirements))
}.

(** [bcrypt.CompareHashAndPassword(hash, password)]: nil on a match. *)
Class Bcrypt : Type := {
  CompareHashAndPassword : string → string → option error
}.

(** [json.Marshal] on a [Requirements] value (its error is dropped by the
    caller). *)
Class RequirementsJson : Type := {
  Marshal_Requirements : Requirements → string
}.

(** [Requirements.String].  The receiver is passed by value; the result is
    the string together with the receiver's copy [r] as the method leaves
    it. *)
Definition Requirements_String `{RequirementsJson} (r : Requirements)
  : string * Requirements :=
  let p := Password r in
  let r :=
    match p with
    | Some _ => mkRequirements (Some "***") (req_Labels r)
    | None => r
    end in
  let b := Marshal_Requirements r in
  let r := mkRequirements p (req_Labels r) in
  (b, r).

Definition NewStaticUserAuth (users : option (gmap string (option Requirements)))
  : staticUsersAuth :=
  mkstaticUsersAuth users.

(** Reading a Go map of pointers: nil for a nil map and for a missing key. *)
Definition users_lookup (sua : staticUsersAuth) (user : string) : option Requirements :=
  match users sua with
  | None => None
  | Some m => default None (m !! user)
  end.

(** [staticUsersAuth.Authenticate]. *)
Definition staticUsersAuth_Authenticate `{Bcrypt} (sua : staticUsersAuth) (user : string)
  (password : PasswordString) : bool * Labels * option error :=
  match users_lookup sua user with
  | None => (false, None, Some NoMatch)
  | Some reqs =>
      match Password reqs with
      | Some hash =>
          match CompareHashAndPassword hash password with
          | Some _ => (false, None, None)
          | None => (true, req_Labels reqs, None)
          end
      | None => (true, req_Labels reqs, None)
      end
  end.

(** ** The server configuration *)

(** What the configuration code takes from other packages: the key types
    of libtrust, the configuration types of the authenticators and
    authorizers whose fields [validate] never reads, their [Validate]
    methods, and the calls into the file system and the certificate
    loaders. *)
Class ConfigDeps : Type := {
  PublicKey : Type;
  PrivateKey : Type;
  LDAPAuthConfig : Type;
  MongoAuthConfig : Type;
  XormAuthnConfig : Type;
  ExtAuthConfig : Type;
  PluginAuthnConfig : Type;
  ACLEntry : Type;
  ACLMongoConfig : Type;
  XormAuthzConfig : Type;
  ExtAuthzConfig : Type;
  PluginAuthzConfig : Type;
  CasbinAuthzConfig : Type;
  MongoAuthConfig_Validate : MongoAuthConfig → string → option error;
  XormAuthnConfig_Validate : XormAuthnConfig → string → option error;
  ExtAuthConfig_Validate : ExtAuthConfig → option error;
  PluginAuthnConfig_Validate : PluginAuthnConfig → option error;
  ValidateACL : list ACLEntry → option error;
  ACLMongoConfig_Validate : ACLMongoConfig → string → option error;
  XormAuthzConfig_Validate : XormAuthzConfig → string → option error;
  ExtAuthzConfig_Validate : ExtAuthzConfig → option error;
  PluginAuthzConfig_Validate : PluginAuthzConfig → option error;
  (** [ioutil.ReadFile]. *)
  ReadFile : string → error + string;
  (** [loadCertAndKey(certFile, keyFile)]: its body is four calls into
      [crypto/tls], [crypto/x509] and libtrust; the three named results. *)
  loadCertAndKey : string → string → option PublicKey * option PrivateKey * option error;
  (** [os.Stat] followed by [IsDir]: true when the path exists and is a
      directory. *)
  stat_IsDir : string → bool
}.

Record LetsEncryptConfig : Type := mkLetsEncryptConfig {
  Host : string;
  le_Email : string;
  CacheDir : string
}.

Record ServerConfig `{ConfigDeps} : Type := mkServerConfig {
  ListenAddress : string;
  Net : string;
  PathPrefix : string;
  RealIPHeader : string;
  RealIPPos : Z;
  Server_CertFile : string;
  Server_KeyFile : string;
  HSTS : bool;
  TLSMinVersion : string;
  TLSCurvePreferences : option (list string);
  TLSCipherSuites : option (list string);
  LetsEncrypt : LetsEncryptConfig;
  Server_publicKey : option PublicKey;
  Server_privateKey : option PrivateKey
}.

Record TokenConfig `{ConfigDeps} : Type := mkTokenConfig {
  Issuer : string;
  Token_CertFile : string;
  Token_KeyFile : string;
  Expiration : Z;
  Token_publicKey : option PublicKey;
  Token_privateKey : option PrivateKey
}.

(** The fields of [authn.GoogleAuthConfig] that [validate] reads. *)
Record GoogleAuthConfig : Type := mkGoogleAuthConfig {
  google_ClientId : string;
  google_ClientSecret : string;
  google_ClientSecretFile : string;
  google_TokenDB : string;
  google_HTTPTimeout : Z
}.

(** The fields of [authn.OIDCAuthConfig] that [validate] reads. *)
Record OIDCAuthConfig : Type := mkOIDCAuthConfig {
  oidc_Issuer : string;
  oidc_RedirectURL : string;
  oidc_ClientId : string;
  oidc_ClientSecret : string;
  oidc_ClientSecretFile : string;
  oidc_TokenDB : string;
  oidc_HTTPTimeout : Z;
  oidc_UserClaim : string;
  oidc_Scopes : option (list string)
}.

(** The fields of [authn.GitlabAuthConfig] and of its two store
    configurations that [validate] reads. *)
Record GitlabGCSStoreConfig : Type := mkGitlabGCSStoreConfig {
  glab_Bucket : string;
  glab_gcs_ClientSecretFile : string
}.

Record GitlabRedisStoreConfig : Type := mkGitlabRedisStoreConfig {
  glab_ClientOptions : option redis_Options;
  glab_ClusterOptions : option redis_ClusterOptions
}.

Record GitlabAuthConfig : Type := mkGitlabAuthConfig {
  glab_ClientId : string;
  glab_ClientSecret : string;
  glab_ClientSecretFile : string;
  glab_TokenDB : string;
  glab_GCSTokenDB : option GitlabGCSStoreConfig;
  glab_RedisTokenDB : option GitlabRedisStoreConfig;
  glab_HTTPTimeout : Z;
  glab_RevalidateAfter : Z
}.

Record Config `{ConfigDeps} : Type := mkConfig {
  Server : ServerConfig;
  Token : TokenConfig;
  Users : option (gmap string (option Requirements));
  GoogleAuth : option GoogleAuthConfig;
  cfg_GitHubAuth : option GitHubAuthConfig;
  OIDCAuth : option OIDCAuthConfig;
  GitlabAuth : option GitlabAuthConfig;
  LDAPAuth : option LDAPAuthConfig;
  MongoAuth : option MongoAuthConfig;
  XormAuthn : option XormAuthnConfig;
  ExtAuth : option ExtAuthConfig;
  PluginAuthn : option PluginAuthnConfig;
  ACL : option (list ACLEntry);
  ACLMongo : option ACLMongoConfig;
  ACLXorm : option XormAuthzConfig;
  ExtAuthz : option ExtAuthzConfig;
  PluginAuthz : option PluginAuthzConfig;
  CasbinAuthz : option CasbinAuthzConfig
}.

Arguments mkServerConfig {_}.
Arguments mkTokenConfig {_}.
Arguments mkConfig {_}.

(** [time.Second] and [time.Hour], in nanoseconds. *)
Definition time_Second : Z := 1000000000.
Definition time_Hour : Z := 3600 * time_Second.

(** Lines 378 to 399 of [LoadConfig]: opening and reading the file,
    applying the environment variables and decoding into a [Config]; the
    error, when there is one, is the one [LoadConfig] returns. *)
Class ConfigSource `{ConfigDeps} : Type := {
  readConfig : string → string → error + Config
}.

Section Configuration.
Context `{ConfigDeps}.

(** Assignments to fields of the configuration. *)
Definition set_Server (c : Config) (s : ServerConfig) : Config :=
  mkConfig s (Token c) (Users c) (GoogleAuth c) (cfg_GitHubAuth c) (OIDCAuth c)
    (GitlabAuth c) (LDAPAuth c) (MongoAuth c) (XormAuthn c) (ExtAuth c) (PluginAuthn c)
    (ACL c) (ACLMongo c) (ACLXorm c) (ExtAuthz c) (PluginAuthz c) (CasbinAuthz c).

Definition set_Token (c : Config) (t : TokenConfig) : Config :=
  mkConfig (Server c) t (Users c) (GoogleAuth c) (cfg_GitHubAuth c) (OIDCAuth c)
    (GitlabAuth c) (LDAPAuth c) (MongoAuth c) (XormAuthn c) (ExtAuth c) (PluginAuthn c)
    (ACL c) (ACLMongo c) (ACLXorm c) (ExtAuthz c) (PluginAuthz c) (CasbinAuthz c).

Definition set_GoogleAuth (c : Config) (g : GoogleAuthConfig) : Config :=
  mkConfig (Server c) (Token c) (Users c) (Some g) (cfg_GitHubAuth c) (OIDCAuth c)
    (GitlabAuth c) (LDAPAuth c) (MongoAuth c) (XormAuthn c) (ExtAuth c) (PluginAuthn c)
    (ACL c) (ACLMongo c) (ACLXorm c) (ExtAuthz c) (PluginAuthz c) (CasbinAuthz c).

Definition set_GitHubAuth (c : Config) (g : GitHubAuthConfig) : Config :=
  mkConfig (Server c) (Token c) (Users c) (GoogleAuth c) (Some g) (OIDCAuth c)
    (GitlabAuth c) (LDAPAuth c) (MongoAuth c) (XormAuthn c) (ExtAuth c) (PluginAuthn c)
    (ACL c) (ACLMongo c) (ACLXorm c) (ExtAuthz c) (PluginAuthz c) (CasbinAuthz c).

Definition set_OIDCAuth (c : Config) (o : OIDCAuthConfig) : Config :=
  mkConfig (Server c) (Token c) (Users c) (GoogleAuth c) (cfg_GitHubAuth c) (Some o)
    (GitlabAuth c) (LDAPAuth c) (MongoAuth c) (XormAuthn c) (ExtAuth c) (PluginAuthn c)
    (ACL c) (ACLMongo c) (ACLXorm c) (ExtAuthz c) (PluginAuthz c) (CasbinAuthz c).

Definition set_GitlabAuth (c : Config) (g : GitlabAuthConfig) : Config :=
  mkConfig (Server c) (Token c) (Users c) (GoogleAuth c) (cfg_GitHubAuth c) (OIDCAuth c)
    (Some g) (LDAPAuth c) (MongoAuth c) (XormAuthn c) (ExtAuth c) (PluginAuthn c)
    (ACL c) (ACLMongo c) (ACLXorm c) (ExtAuthz c) (PluginAuthz c) (CasbinAuthz c).

Definition set_Net (s : ServerConfig) (net : string) : ServerConfig :=
  mkServerConfig (ListenAddress s) net (PathPrefix s) (RealIPHeader s) (RealIPPos s)
    (Server_CertFile s) (Server_KeyFile s) (HSTS s) (TLSMinVersion s)
    (TLSCurvePreferences s) (TLSCipherSuites s) (LetsEncrypt s) (Server_publicKey s)
    (Server_privateKey s).

Definition set_Server_keys (s : ServerConfig) (pk : option PublicKey)
  (prk : option PrivateKey) : ServerConfig :=
  mkServerConfig (ListenAddress s) (Net s) (PathPrefix s) (RealIPHeader s) (RealIPPos s)
    (Server_CertFile s) (Server_KeyFile s) (HSTS s) (TLSMinVersion s)
    (TLSCurvePreferences s) (TLSCipherSuites s) (LetsEncrypt s) pk prk.

Definition set_Token_keys (t : TokenConfig) (pk : option PublicKey)
  (prk : option PrivateKey) : TokenConfig :=
  mkTokenConfig (Issuer t) (Token_CertFile t) (Token_KeyFile t) (Expiration t) pk prk.

(** A block of [validate]: it may assign to the configuration and may
    return an error, which ends [validate]. *)
Definition check : Type := Config → Config * option error.

Definition and_then (f g : check) : check :=
  fun c =>
    match f c with
    | (c', None) => g c'
    | (c', Some err) => (c', Some err)
    end.

Definition pass : check := fun c => (c, None).
Definition fail (err : error) : check := fun c => (c, Some err).

(** A block that assigns nothing. *)
Definition require (test : Config → option error) : check := fun c => (c, test c).

(** [if p != nil { if err := p.Validate(..); err != nil { return wrap(err) } }]. *)
Definition validate_ptr {A : Type} (ptr : Config → option A) (Validate : A → option error)
  (wrap : error → error) : check :=
  require (fun c =>
    match ptr c with
    | Some p => wrap <$> Validate p
    | None => None
    end).

(** Reading [client_secret_file], when given, into the client secret. *)
Definition read_secret (file : string) : error + option string :=
  if decide (file ≠ "") then
    match ReadFile file with
    | inl err => inl (fmt_Errorf_err "could not read %s: %s" [ArgS file] err)
    | inr contents => inr (Some (GoStrings.TrimSpace contents))
    end
  else inr None.

Definition check_addr : check :=
  require (fun c =>
    if decide (ListenAddress (Server c) = "")
    then Some (errors_New "server.addr is required") else None).

Definition check_net : check := fun c =>
  if decide (Net (Server c) ≠ "unix" ∧ Net (Server c) ≠ "tcp") then
    if decide (Net (Server c) = "")
    then (set_Server c (set_Net (Server c) "tcp"), None)
    else (c, Some (errors_New "server.net must be unix or tcp"))
  else (c, None).

Definition check_path_prefix : check :=
  require (fun c =>
    if bool_decide (PathPrefix (Server c) ≠ "")
       && negb (GoStrings.HasPrefix (PathPrefix (Server c)) "/")
    then Some (errors_New "server.path_prefix must be an absolute path") else None).

Definition check_tls13 : check :=
  require (fun c =>
    if (bool_decide (TLSMinVersion (Server c) = "0x0304")
        || bool_decide (TLSMinVersion (Server c) = "TLS13"))
       && bool_decide (TLSCipherSuites (Server c) ≠ None)
    then Some (errors_New "TLS 1.3 ciphersuites are not configurable") else None).

Definition check_issuer : check :=
  require (fun c =>
    if decide (Issuer (Token c) = "")
    then Some (errors_New "token.issuer is required") else None).

Definition check_expiration : check :=
  require (fun c =>
    if decide (Expiration (Token c) <= 0)
    then Some (fmt_Errorf "expiration must be positive, got %d" [ArgD (Expiration (Token c))])
    else None).

Definition check_authn_configured : check :=
  require (fun c =>
    if bool_decide (Users c = None) && bool_decide (ExtAuth c = None)
       && bool_decide (GoogleAuth c = None) && bool_decide (cfg_GitHubAuth c = None)
       && bool_decide (GitlabAuth c = None) && bool_decide (OIDCAuth c = None)
       && bool_decide (LDAPAuth c = None) && bool_decide (MongoAuth c = None)
       && bool_decide (XormAuthn c = None) && bool_decide (PluginAuthn c = None)
    then
      Some (errors_New
              "no auth methods are configured, this is probably a mistake. Use an empty user map if you really want to deny everyone.")
    else None).

Definition check_mongo_auth : check :=
  validate_ptr MongoAuth (fun p => MongoAuthConfig_Validate p "mongo_auth") id.

Definition check_xorm_auth : check :=
  validate_ptr XormAuthn (fun p => XormAuthnConfig_Validate p "xorm_auth") id.

Definition set_google_ClientSecret (g : GoogleAuthConfig) (v : string) : GoogleAuthConfig :=
  mkGoogleAuthConfig (google_ClientId g) v (google_ClientSecretFile g) (google_TokenDB g)
    (google_HTTPTimeout g).

Definition set_google_HTTPTimeout (g : GoogleAuthConfig) (v : Z) : GoogleAuthConfig :=
  mkGoogleAuthConfig (google_ClientId g) (google_ClientSecret g) (google_ClientSecretFile g)
    (google_TokenDB g) v.

Definition validate_google (gac : GoogleAuthConfig) : GoogleAuthConfig * option error :=
  match read_secret (google_ClientSecretFile gac) with
  | inl err => (gac, Some err)
  | inr secret =>
      let gac := from_option (set_google_ClientSecret gac) gac secret in
      if bool_decide (google_ClientId gac = "") || bool_decide (google_ClientSecret gac = "")
         || bool_decide (google_TokenDB gac = "")
      then (gac, Some (errors_New "google_auth.{client_id,client_secret,token_db} are required."))
      else
        let gac :=
          if decide (google_HTTPTimeout gac <= 0) then set_google_HTTPTimeout gac 10
          else gac in
        (gac, None)
  end.

Definition check_google_auth : check := fun c =>
  match GoogleAuth c with
  | Some gac => let '(gac', err) := validate_google gac in (set_GoogleAuth c gac', err)
  | None => (c, None)
  end.

Definition set_ClientSecret (g : GitHubAuthConfig) (v : string) : GitHubAuthConfig :=
  mkGitHubAuthConfig (gh_Organization g) (ClientId g) v (ClientSecretFile g) (TokenDB g)
    (GCSTokenDB g) (RedisTokenDB g) (HTTPTimeout g) (RevalidateAfter g) (GithubWebUri g)
    (GithubApiUri g) (RegistryUrl g).

Definition set_HTTPTimeout (g : GitHubAuthConfig) (v : Z) : GitHubAuthConfig :=
  mkGitHubAuthConfig (gh_Organization g) (ClientId g) (ClientSecret g) (ClientSecretFile g)
    (TokenDB g) (GCSTokenDB g) (RedisTokenDB g) v (RevalidateAfter g) (GithubWebUri g)
    (GithubApiUri g) (RegistryUrl g).

Definition set_RevalidateAfter (g : GitHubAuthConfig) (v : Z) : GitHubAuthConfig :=
  mkGitHubAuthConfig (gh_Organization g) (ClientId g) (ClientSecret g) (ClientSecretFile g)
    (TokenDB g) (GCSTokenDB g) (RedisTokenDB g) (HTTPTimeout g) v (GithubWebUri g)
    (GithubApiUri g) (RegistryUrl g).

(** The three tests on the token store of [github_auth]. *)
Definition github_no_token_db (ghac : GitHubAuthConfig) : bool :=
  bool_decide (TokenDB ghac = "")
  && (bool_decide (GCSTokenDB ghac = None) && bool_decide (RedisTokenDB ghac = None)).

Definition github_partial_gcs (ghac : GitHubAuthConfig) : bool :=
  match GCSTokenDB ghac with
  | Some gcs => bool_decide (Bucket gcs = "") || bool_decide (gcs_ClientSecretFile gcs = "")
  | None => false
  end.

Definition github_partial_redis (ghac : GitHubAuthConfig) : bool :=
  match RedisTokenDB ghac with
  | Some r => bool_decide (ClientOptions r = None) && bool_decide (ClusterOptions r = None)
  | None => false
  end.

Definition validate_github (ghac : GitHubAuthConfig) : GitHubAuthConfig * option error :=
  match read_secret (ClientSecretFile ghac) with
  | inl err => (ghac, Some err)
  | inr secret =>
      let ghac := from_option (set_ClientSecret ghac) ghac secret in
      let no_client := bool_decide (ClientId ghac = "") || bool_decide (ClientSecret ghac = "") in
      if no_client || github_no_token_db ghac then
        (ghac, Some (errors_New "github_auth.{client_id,client_secret,token_db} are required"))
      else if no_client || github_partial_gcs ghac then
        (ghac,
         Some (errors_New
                 "github_auth.{client_id,client_secret,gcs_token_db{bucket,client_secret_file}} are required"))
      else if no_client || github_partial_redis ghac then
        (ghac,
         Some (errors_New
                 "github_auth.{client_id,client_secret,redis_token_db.{redis_options,redis_cluster_options}} are required"))
      else
        let ghac :=
          if decide (HTTPTimeout ghac <= 0) then set_HTTPTimeout ghac (10 * time_Second)
          else ghac in
        let ghac :=
          if decide (RevalidateAfter ghac = 0) then set_RevalidateAfter ghac (1 * time_Hour)
          else ghac in
        (ghac, None)
  end.

Definition check_github_auth : check := fun c =>
  match cfg_GitHubAuth c with
  | Some ghac => let '(ghac', err) := validate_github ghac in (set_GitHubAuth c ghac', err)
  | None => (c, None)
  end.

Definition set_oidc_ClientSecret (o : OIDCAuthConfig) (v : string) : OIDCAuthConfig :=
  mkOIDCAuthConfig (oidc_Issuer o) (oidc_RedirectURL o) (oidc_ClientId o) v
    (oidc_ClientSecretFile o) (oidc_TokenDB o) (oidc_HTTPTimeout o) (oidc_UserClaim o)
    (oidc_Scopes o).

Definition set_oidc_HTTPTimeout (o : OIDCAuthConfig) (v : Z) : OIDCAuthConfig :=
  mkOIDCAuthConfig (oidc_Issuer o) (oidc_RedirectURL o) (oidc_ClientId o)
    (oidc_ClientSecret o) (oidc_ClientSecretFile o) (oidc_TokenDB o) v (oidc_UserClaim o)
    (oidc_Scopes o).

Definition set_oidc_UserClaim (o : OIDCAuthConfig) (v : string) : OIDCAuthConfig :=
  mkOIDCAuthConfig (oidc_Issuer o) (oidc_RedirectURL o) (oidc_ClientId o)
    (oidc_ClientSecret o) (oidc_ClientSecretFile o) (oidc_TokenDB o) (oidc_HTTPTimeout o) v
    (oidc_Scopes o).

Definition set_oidc_Scopes (o : OIDCAuthConfig) (v : option (list string)) : OIDCAuthConfig :=
  mkOIDCAuthConfig (oidc_Issuer o) (oidc_RedirectURL o) (oidc_ClientId o)
    (oidc_ClientSecret o) (oidc_ClientSecretFile o) (oidc_TokenDB o) (oidc_HTTPTimeout o)
    (oidc_UserClaim o) v.

Definition validate_oidc (oidc : OIDCAuthConfig) : OIDCAuthConfig * option error :=
  match read_secret (oidc_ClientSecretFile oidc) with
  | inl err => (oidc, Some err)
  | inr secret =>
      let oidc := from_option (set_oidc_ClientSecret oidc) oidc secret in
      if bool_decide (oidc_ClientId oidc = "") || bool_decide (oidc_ClientSecret oidc = "")
         || bool_decide (oidc_TokenDB oidc = "") || bool_decide (oidc_Issuer oidc = "")
         || bool_decide (oidc_RedirectURL oidc = "")
      then
        (oidc,
         Some (errors_New
                 "oidc_auth.{issuer,redirect_url,client_id,client_secret,token_db} are required"))
      else
        let oidc :=
          if decide (oidc_HTTPTimeout oidc <= 0) then set_oidc_HTTPTimeout oidc 10 else oidc in
        let oidc :=
          if decide (oidc_UserClaim oidc = "") then set_oidc_UserClaim oidc "email" else oidc in
        let oidc :=
          if decide (oidc_Scopes oidc = None)
          then set_oidc_Scopes oidc (Some ["openid"; "email"]) else oidc in
        (oidc, None)
  end.

Definition check_oidc_auth : check := fun c =>
  match OIDCAuth c with
  | Some oidc => let '(oidc', err) := validate_oidc oidc in (set_OIDCAuth c oidc', err)
  | None => (c, None)
  end.

Definition set_glab_ClientSecret (g : GitlabAuthConfig) (v : string) : GitlabAuthConfig :=
  mkGitlabAuthConfig (glab_ClientId g) v (glab_ClientSecretFile g) (glab_TokenDB g)
    (glab_GCSTokenDB g) (glab_RedisTokenDB g) (glab_HTTPTimeout g) (glab_RevalidateAfter g).

Definition set_glab_HTTPTimeout (g : GitlabAuthConfig) (v : Z) : GitlabAuthConfig :=
  mkGitlabAuthConfig (glab_ClientId g) (glab_ClientSecret g) (glab_ClientSecretFile g)
    (glab_TokenDB g) (glab_GCSTokenDB g) (glab_RedisTokenDB g) v (glab_RevalidateAfter g).

Definition set_glab_RevalidateAfter (g : GitlabAuthConfig) (v : Z) : GitlabAuthConfig :=
  mkGitlabAuthConfig (glab_ClientId g) (glab_ClientSecret g) (glab_ClientSecretFile g)
    (glab_TokenDB g) (glab_GCSTokenDB g) (glab_RedisTokenDB g) (glab_HTTPTimeout g) v.

Definition gitlab_no_token_db (glab : GitlabAuthConfig) : bool :=
  bool_decide (glab_TokenDB glab = "")
  && (bool_decide (glab_GCSTokenDB glab = None) && bool_decide (glab_RedisTokenDB glab = None)).

Definition gitlab_partial_gcs (glab : GitlabAuthConfig) : bool :=
  match glab_GCSTokenDB glab with
  | Some gcs =>
      bool_decide (glab_Bucket gcs = "") || bool_decide (glab_gcs_ClientSecretFile gcs = "")
  | None => false
  end.

Definition gitlab_partial_redis (glab : GitlabAuthConfig) : bool :=
  match glab_RedisTokenDB glab with
  | Some r =>
      bool_decide (glab_ClientOptions r = None) && bool_decide (glab_ClusterOptions r = None)
  | None => false
  end.

Definition validate_gitlab (glab : GitlabAuthConfig) : GitlabAuthConfig * option error :=
  match read_secret (glab_ClientSecretFile glab) with
  | inl err => (glab, Some err)
  | inr secret =>
      let glab := from_option (set_glab_ClientSecret glab) glab secret in
      let no_client :=
        bool_decide (glab_ClientId glab = "") || bool_decide (glab_ClientSecret glab = "") in
      if no_client || gitlab_no_token_db glab then
        (glab, Some (errors_New "gitlab_auth.{client_id,client_secret,token_db} are required"))
      else if no_client || gitlab_partial_gcs glab then
        (glab,
         Some (errors_New
                 "gitlab_auth.{client_id,client_secret,gcs_token_db{bucket,client_secret_file}} are required"))
      else if no_client || gitlab_partial_redis glab then
        (glab,
         Some (errors_New
                 "gitlab_auth.{client_id,client_secret,redis_token_db.{redis_options,redis_cluster_options}} are required"))
      else
        let glab :=
          if decide (glab_HTTPTimeout glab <= 0) then set_glab_HTTPTimeout glab (10 * time_Second)
          else glab in
        let glab :=
          if decide (glab_RevalidateAfter glab = 0)
          then set_glab_RevalidateAfter glab (1 * time_Hour) else glab in
        (glab, None)
  end.

Definition check_gitlab_auth : check := fun c =>
  match GitlabAuth c with
  | Some glab => let '(glab', err) := validate_gitlab glab in (set_GitlabAuth c glab', err)
  | None => (c, None)
  end.

Definition check_ext_auth : check :=
  validate_ptr ExtAuth ExtAuthConfig_Validate
    (fun err => fmt_Errorf_err "bad ext_auth config: %s" [] err).

Definition ACL_is_empty : error :=
  errors_New
    "ACL is empty, this is probably a mistake. Use an empty list if you really want to deny all actions".

Definition check_authz_configured : check :=
  require (fun c =>
    if bool_decide (ACL c = None) && bool_decide (ACLXorm c = None)
       && bool_decide (ACLMongo c = None) && bool_decide (ExtAuthz c = None)
       && bool_decide (PluginAuthz c = None)
    then Some ACL_is_empty else None).

Definition check_acl : check :=
  validate_ptr ACL ValidateACL (fun err => fmt_Errorf_err "invalid ACL: %s" [] err).

Definition check_acl_mongo : check :=
  validate_ptr ACLMongo (fun p => ACLMongoConfig_Validate p "acl_mongo") id.

Definition check_acl_xorm : check :=
  validate_ptr ACLXorm (fun p => XormAuthzConfig_Validate p "acl_xorm") id.

Definition check_ext_authz : check := validate_ptr ExtAuthz ExtAuthzConfig_Validate id.

Definition check_plugin_authn : check :=
  validate_ptr PluginAuthn PluginAuthnConfig_Validate
    (fun err => fmt_Errorf_err "bad plugin_authn config: %s" [] err).

Definition check_plugin_authz : check :=
  validate_ptr PluginAuthz PluginAuthzConfig_Validate
    (fun err => fmt_Errorf_err "bad plugin_authz config: %s" [] err).

(** A chain of blocks; the first error ends it. *)
Definition chain (checks : list check) : check := fold_right and_then pass checks.

(** [validate]: the blocks in the order of the source.  The result is the
    configuration as [validate] leaves it behind the pointer [c], and the
    error returned. *)
Definition validate : check :=
  chain
    [ check_addr; check_net; check_path_prefix; check_tls13; check_issuer;
      check_expiration; check_authn_configured; check_mongo_auth; check_xorm_auth;
      check_google_auth; check_github_auth; check_oidc_auth; check_gitlab_auth;
      check_ext_auth; check_authz_configured; check_acl; check_acl_mongo;
      check_acl_xorm; check_ext_authz; check_plugin_authn; check_plugin_authz ].

(** Loading one key pair of [LoadConfig]: [partial] and [format] are the
    two messages of the block.  The result says whether the pair is
    configured and gives the keys. *)
Definition load_keypair (partial format certFile keyFile : string)
  : error + option (option PublicKey * option PrivateKey) :=
  if bool_decide (certFile ≠ "") || bool_decide (keyFile ≠ "") then
    if bool_decide (certFile = "") || bool_decide (keyFile = "") then
      inl (fmt_Errorf partial [])
    else
      match loadCertAndKey certFile keyFile with
      | (_, _, Some err) => inl (fmt_Errorf_err format [] err)
      | (pk, prk, None) => inr (Some (pk, prk))
      end
  else inr None.

(** [LoadConfig] from the call of [validate] on (lines 400 to 449). *)
Definition LoadConfig_validated (c : Config) : option Config * option error :=
  match validate c with
  | (_, Some err) => (None, Some (fmt_Errorf_err "invalid config: %s" [] err))
  | (c, None) =>
      match
        load_keypair "failed to load server cert and key: both were not provided"
          "failed to load server cert and key: %s"
          (Server_CertFile (Server c)) (Server_KeyFile (Server c))
      with
      | inl err => (None, Some err)
      | inr server =>
          let serverConfigured := bool_decide (server ≠ None) in
          let c :=
            match server with
            | Some (pk, prk) => set_Server c (set_Server_keys (Server c) pk prk)
            | None => c
            end in
          match
            load_keypair "failed to load token cert and key: both were not provided"
              "failed to load token cert and key: %s"
              (Token_CertFile (Token c)) (Token_KeyFile (Token c))
          with
          | inl err => (None, Some err)
          | inr token =>
              let tokenConfigured := bool_decide (token ≠ None) in
              let c :=
                match token with
                | Some (pk, prk) => set_Token c (set_Token_keys (Token c) pk prk)
                | None => c
                end in
              let '(c, tokenConfigured) :=
                if serverConfigured && negb tokenConfigured
                then
                  (set_Token c
                     (set_Token_keys (Token c) (Server_publicKey (Server c))
                        (Server_privateKey (Server c))),
                   true)
                else (c, tokenConfigured) in
              if negb tokenConfigured then
                (None, Some (fmt_Errorf "failed to load token cert and key: none provided" []))
              else if negb serverConfigured
                      && bool_decide (le_Email (LetsEncrypt (Server c)) ≠ "")
              then
                if decide (CacheDir (LetsEncrypt (Server c)) = "") then
                  (None, Some (fmt_Errorf "server.letsencrypt.cache_dir is required" []))
                else if negb (stat_IsDir (CacheDir (LetsEncrypt (Server c)))) then
                  (None,
                   Some (fmt_Errorf
                           "server.letsencrypt.cache_dir (%s) does not exist or is not a directory"
                           [ArgS (CacheDir (LetsEncrypt (Server c)))]))
                else (Some c, None)
              else (Some c, None)
          end
      end
  end.

(** [LoadConfig]. *)
Definition LoadConfig `{!ConfigSource} (fileName envPrefix : string)
  : option Config * option error :=
  match readConfig fileName envPrefix with
  | inl err => (None, Some err)
  | inr c => LoadConfig_validated c
  end.

(** For the proofs: what the blocks of [validate] leave alone (everything
    but the [net] of the server and the four OAuth configurations), and the
    configurations with a [redis_token_db] that names no options. *)
Definition untouched (c c' : Config) : Prop :=
  Token c' = Token c ∧
  Server_CertFile (Server c') = Server_CertFile (Server c) ∧
  Server_KeyFile (Server c') = Server_KeyFile (Server c) ∧
  LetsEncrypt (Server c') = LetsEncrypt (Server c) ∧
  ACL c' = ACL c ∧ ACLXorm c' = ACLXorm c ∧ ACLMongo c' = ACLMongo c ∧
  ExtAuthz c' = ExtAuthz c ∧ PluginAuthz c' = PluginAuthz c ∧
  CasbinAuthz c' = CasbinAuthz c.


Definition github_redis_partial (c : Config) : Prop :=
  ∃ ghac, cfg_GitHubAuth c = Some ghac ∧ github_partial_redis ghac = true.

Definition gitlab_redis_partial (c : Config) : Prop :=
  ∃ glab, GitlabAuth c = Some glab ∧ gitlab_partial_redis glab = true.

End Configuration.

(** ** Link headers of the documented form *)

(** The double quote, as a one-byte string. *)
Definition dquote : string := String "034"%char EmptyString.

(** The four relation kinds of a paginated answer. *)
Inductive rel : Type := rel_first | rel_last | rel_next | rel_prev.

Global Instance rel_eq_dec : EqDecision rel.
Proof. solve_decision. Defined.

Definition rel_keyword (k : rel) : string :=
  match k with
  | rel_first => "first"
  | rel_last => "last"
  | rel_next => "next"
  | rel_prev => "prev"
  end.

(** One item [<URL>; rel="KIND"]: [lead] and [gap] are the white space
    before [<] and after [>]. *)
Record link : Type := mklink {
  lead : string;
  uri : string;
  gap : string;
  kind : rel
}.

Definition render_item (l : link) : string :=
  lead l +:+ "<" +:+ uri l +:+ ">" +:+ gap l +:+ "; rel=" +:+ dquote
    +:+ rel_keyword (kind l) +:+ dquote.

(** Items joined by commas. *)
Fixpoint join_items (items : list string) : string :=
  match items with
  | [] => ""
  | [item] => item
  | item :: rest => item +:+ "," +:+ join_items rest
  end.

Definition render_line (ls : list link) : string := join_items (render_item <$> ls).

(** Whether the byte [c] occurs in [s]. *)
Fixpoint occurs (c : ascii) (s : string) : bool :=
  match s with
  | EmptyString => false
  | String a s' => bool_decide (a = c) || occurs c s'
  end.

(** Whether [s] is made of ASCII white space only. *)
Fixpoint all_space (s : string) : bool :=
  match s with
  | EmptyString => true
  | String a s' => GoStrings.is_space1 a && all_space s'
  end.

(** An item is well formed when its URL holds none of the four bytes the
    parser gives a meaning to and [lead] and [gap] are white space. *)
Definition well_formed (l : link) : bool :=
  all_space (lead l) && all_space (gap l)
  && negb (occurs ","%char (uri l)) && negb (occurs ";"%char (uri l))
  && negb (occurs "<"%char (uri l)) && negb (occurs ">"%char (uri l)).

Definition field (k : rel) (lH : linkHeader) : string :=
  match k with
  | rel_first => First lH
  | rel_last => Last lH
  | rel_next => Next lH
  | rel_prev => Prev lH
  end.

(** Assigning the field of kind [k]. *)
Definition set_field (k : rel) (url : string) (lH : linkHeader) : linkHeader :=
  match k with
  | rel_first => mklinkHeader url (Last lH) (Next lH) (Prev lH)
  | rel_last => mklinkHeader (First lH) url (Next lH) (Prev lH)
  | rel_next => mklinkHeader (First lH) (Last lH) url (Prev lH)
  | rel_prev => mklinkHeader (First lH) (Last lH) (Next lH) url
  end.

(** The URL of the last item of kind [k], the empty string when there is
    none. *)
Definition last_uri (k : rel) (ls : list link) : string :=
  fold_left (fun acc l => if decide (kind l = k) then uri l else acc) ls "".

(** The inputs on which [parseLinkHeader] is safe: every item of every
    line holds a [";"]. *)
Definition every_item_has_semicolon (linkLines : list string) : Prop :=
  Forall (fun linkLine =>
            Forall (fun linkItem => occurs ";"%char linkItem = true)
              (GoStrings.Split linkLine ","))
    linkLines.


(** ** A small world to run the program in *)

(** The request header [key] of [req]. *)
Definition header_value (req : Request) (key : string) : string :=
  default "" (snd <$> find (fun kv => bool_decide (fst kv = key)) (req_Header req)).

Definition ok_response (link : option string) (body : string) : Response :=
  mkResponse 200 "200 OK"
    (match link with Some l => {["Link" := [l]]} | None => ∅ end) body.

Definition page2_url : string := "https://api.github.com/user/teams?per_page=100&page=2".

(** A provider with two pages of teams, one user per token and the
    organization [acme]; under [https://ghe.example] it lists a team that
    has no organization. *)
Definition demo_client_Do (req : Request) : error + Response :=
  let url := URL req in
  if decide (url = "https://api.github.com/user/teams?per_page=100") then
    inr (ok_response
           (Some ("<" +:+ page2_url +:+ ">; rel=" +:+ dquote +:+ "next" +:+ dquote
                  +:+ ", <" +:+ page2_url +:+ ">; rel=" +:+ dquote +:+ "last" +:+ dquote))
           "teams-page-1")
  else if decide (url = page2_url) then
    inr (ok_response
           (Some ("<https://api.github.com/user/teams?per_page=100&page=1>; rel="
                  +:+ dquote +:+ "prev" +:+ dquote))
           "teams-page-2")
  else if decide (url = "https://ghe.example/user/teams?per_page=100") then
    inr (ok_response None "teams-without-organization")
  else if decide (url = "https://api.github.com/user") then
    if decide (header_value req "Authorization" = "token gho_alice")
    then inr (ok_response None "alice")
    else inr (ok_response None "mallory")
  else if decide (url = "https://api.github.com/orgs/acme/members/alice") then
    inr (mkResponse 204 "204 No Content" ∅ "")
  else inl (errors_New "no such host").

Definition demo_http : Http := {| bad_url := fun _ => None; client_Do := demo_client_Do |}.

Definition acme : option GitHubOrganization := Some (mkGitHubOrganization "acme" 1).

Definition demo_page1 : GitHubTeamCollection :=
  [ mkGitHubTeam 10 "" "Core" "core" acme (Some (mkParentGitHubTeam 1 "Platform" "platform"));
    mkGitHubTeam 20 "" "Guests" "guests" (Some (mkGitHubOrganization "other" 2)) None ].

Definition demo_page2 : GitHubTeamCollection :=
  [ mkGitHubTeam 30 "" "Web" "web" acme None;
    mkGitHubTeam 10 "" "Core" "core" acme (Some (mkParentGitHubTeam 1 "Platform" "platform")) ].

Definition orphan_team : GitHubTeam := mkGitHubTeam 40 "" "Orphan" "orphan" None None.

Definition demo_Unmarshal_teams (body : string) : error + GitHubTeamCollection :=
  if decide (body = "teams-page-1") then inr demo_page1
  else if decide (body = "teams-page-2") then inr demo_page2
  else if decide (body = "teams-without-organization") then inr [orphan_team]
  else inl (errors_New "unexpected end of JSON input").

Definition demo_json : GitHubJson :=
  {| Unmarshal_teams := demo_Unmarshal_teams;
     Unmarshal_user := fun body => inr (mkGitHubTokenUser body "") |}.

(** Modelled from the spec: the token database ([TokenDB], whose code is
    not among these files), kept in memory.  One value per user;
    [ValidateToken] answers [NoMatch] for an absent user, [WrongPass] on a
    mismatch and [ExpiredToken] when the clock is past [ValidUntil];
    [StoreToken] followed by [GetValue] gives the value back.  The
    password is stored as it is, and a store that is not [writable] (a
    read-only or full disk) refuses every write. *)
Record MemDB : Type := mkMemDB {
  entries : gmap string TokenDBValue;
  clock : Z;
  writable : bool
}.

Definition MemDB_StoreToken (d : MemDB) (user : string) (v : TokenDBValue)
  (generateDP : bool) : MemDB * (string * option error) :=
  if writable d then
    let dp := if generateDP then "dp-" +:+ user else "" in
    let v :=
      if generateDP
      then mkTokenDBValue (TokenType v) (AccessToken v) (ValidUntil v) dp (tv_Labels v)
      else v in
    (mkMemDB (<[user := v]> (entries d)) (clock d) true, (dp, None))
  else (d, ("", Some (errors_New "leveldb: read-only mode"))).

Definition MemDB_ValidateToken (d : MemDB) (user : string) (password : PasswordString)
  : option error :=
  match entries d !! user with
  | None => Some NoMatch
  | Some v =>
      if decide (DockerPassword v ≠ password) then Some WrongPass
      else if decide (clock d > ValidUntil v) then Some ExpiredToken
      else None
  end.

Global Instance MemDB_ops : TokenDBOps MemDB :=
  {| GetValue := fun d user => inr (entries d !! user);
     StoreToken := MemDB_StoreToken;
     ValidateToken := MemDB_ValidateToken |}.

Definition alice_labels : Labels := Some {["teams" := ["core"; "platform"]]}.

Definition alice_value : TokenDBValue :=
  mkTokenDBValue "bearer" "gho_alice" 1000 "dp-alice" alice_labels.

(** Alice's token has expired at time [clock = 5000]. *)
Definition demo_db (writable : bool) : MemDB :=
  mkMemDB {["alice" := alice_value]} 5000 writable.

Definition demo_config_github (api organization : string) : GitHubAuthConfig :=
  mkGitHubAuthConfig organization "client-id" "client-secret" "" "/data/tokens.ldb" None None
    (10 * time_Second) (1 * time_Hour) "" api "".

Definition demo_gha (writable : bool) : GitHubAuth MemDB :=
  mkGitHubAuth (demo_config_github "" "acme") (demo_db writable).

(** Mallory holds Alice's database password but her own provider token. *)
Definition mallory_gha : GitHubAuth MemDB :=
  mkGitHubAuth (demo_config_github "" "")
    (mkMemDB {["alice" := mkTokenDBValue "bearer" "gho_mallory" 1000 "dp-alice" alice_labels]}
       5000 true).

(** bcrypt, with ["hash:" ++ password] for the hash of [password]. *)
Definition demo_bcrypt : Bcrypt :=
  {| CompareHashAndPassword := fun hash password =>
       if decide (hash = "hash:" +:+ password) then None
       else Some (errors_New "crypto/bcrypt: hashedPassword is not the hash of the given password") |}.

Definition demo_users : gmap string (option Requirements) :=
  {[ "admin" := Some (mkRequirements (Some "hash:badmin") (Some {["group" := ["admin"]]}));
     "guest" := Some (mkRequirements None None) ]}.

(** The packages around the configuration: every [Validate] accepts, no
    file can be read, and one key pair loads. *)
Definition demo_deps : ConfigDeps :=
  {| PublicKey := string;
     PrivateKey := string;
     LDAPAuthConfig := unit;
     MongoAuthConfig := unit;
     XormAuthnConfig := unit;
     ExtAuthConfig := unit;
     PluginAuthnConfig := unit;
     ACLEntry := unit;
     ACLMongoConfig := unit;
     XormAuthzConfig := unit;
     ExtAuthzConfig := unit;
     PluginAuthzConfig := unit;
     CasbinAuthzConfig := unit;
     MongoAuthConfig_Validate := fun _ _ => None;
     XormAuthnConfig_Validate := fun _ _ => None;
     ExtAuthConfig_Validate := fun _ => None;
     PluginAuthnConfig_Validate := fun _ => None;
     ValidateACL := fun _ => None;
     ACLMongoConfig_Validate := fun _ _ => None;
     XormAuthzConfig_Validate := fun _ _ => None;
     ExtAuthzConfig_Validate := fun _ => None;
     PluginAuthzConfig_Validate := fun _ => None;
     ReadFile := fun _ => inl (errors_New "no such file or directory");
     loadCertAndKey := fun certFile keyFile =>
       if decide (certFile = "/certs/server.pem" ∧ keyFile = "/certs/server.key")
       then (Some "server-public-key", Some "server-private-key", None)
       else (None, None, Some (errors_New "no such file or directory"));
     stat_IsDir := fun _ => false |}.

Definition demo_server (certFile keyFile : string) : @ServerConfig demo_deps :=
  mkServerConfig ":5001" "" "" "" 0 certFile keyFile false "" None None
    (mkLetsEncryptConfig "" "" "") None None.

Definition demo_token : @TokenConfig demo_deps :=
  mkTokenConfig "Acme auth server" "" "" 900 None None.

(** A configuration with static users and the given authorizers and GitHub
    settings. *)
Definition demo_config (certFile keyFile : string) (github : option GitHubAuthConfig)
  (acl : option (list unit)) (casbin : option unit) : @Config demo_deps :=
  mkConfig (demo_server certFile keyFile) demo_token (Some demo_users) None github None None
    None None None None None acl None None None None casbin.

Definition demo_source : @ConfigSource demo_deps :=
  {| readConfig := fun fileName _ =>
       if decide (fileName = "/config/auth_config.yml")
       then inr (demo_config "/certs/server.pem" "/certs/server.key" None (Some []) None)
       else inl (fmt_Errorf "could not open %s: %s"
                   [ArgS fileName; ArgS "no such file or directory"]) |}.

(** [github_auth] with a token file and a [redis_token_db] that names
    neither kind of options. *)
Definition partial_redis_github : GitHubAuthConfig :=
  mkGitHubAuthConfig "acme" "client-id" "client-secret" "" "/data/tokens.ldb" None
    (Some (mkGitHubRedisStoreConfig None None)) 0 0 "" "" "".


(** A Link header as the GitHub API sends it on the first of five pages. *)
Definition demo_links : list (list link) :=
  [ [ mklink "" page2_url "" rel_next;
      mklink " " "https://api.github.com/user/teams?per_page=100&page=5" "" rel_last ] ].

(** ** Further definitions for the properties of the whole files *)

(** [s] without the bytes that [keep] rejects. *)
Fixpoint keep_bytes (keep : ascii → bool) (s : string) : string :=
  match s with
  | EmptyString => EmptyString
  | String a s' => if keep a then String a (keep_bytes keep s') else keep_bytes keep s'
  end.

(** The one-byte string of [c]. *)
Definition byte_string (c : ascii) : string := String c EmptyString.

(** The four bytes that no URL returned by [parseLinkHeader] holds. *)
Definition link_separators : list ascii := [","%char; ";"%char; "<"%char; ">"%char].

(** No field holds a comma, a semicolon or an angle bracket. *)
Definition clean (lH : linkHeader) : Prop :=
  ∀ k a, a ∈ link_separators → occurs a (field k lH) = false.

(** A Link header whose only item has spaces, a stray bracket and nested
    brackets around its URL. *)
Definition untidy_link : string :=
  "  <<https://api.github.com/teams?page=3>> ; rel=" +:+ dquote +:+ "next" +:+ dquote.

(** A provider whose team listing names itself as the next page, and one
    whose Link header has no [";"]. *)
Definition teams_url : string := "https://api.github.com/user/teams?per_page=100".

Definition looping_http : Http :=
  {| bad_url := fun _ => None;
     client_Do := fun req =>
       inr (ok_response
              (Some ("<" +:+ teams_url +:+ ">; rel=" +:+ dquote +:+ "next" +:+ dquote))
              "teams-page-1") |}.

Definition careless_http : Http :=
  {| bad_url := fun _ => None;
     client_Do := fun req => inr (ok_response (Some "page=2") "teams-page-1") |}.

(** A provider that cannot be reached. *)
Definition offline_http : Http :=
  {| bad_url := fun _ => None;
     client_Do := fun _ => inl (errors_New "dial tcp: i/o timeout") |}.

(** Alice's token is still valid at time [clock = 500]. *)
Definition fresh_gha : GitHubAuth MemDB :=
  mkGitHubAuth (demo_config_github "" "acme") (mkMemDB {["alice" := alice_value]} 500 true).

Section ConfigurationMore.
Context `{ConfigDeps}.

(** The server settings but [net]. *)
Definition same_server_but_net (s s' : ServerConfig) : Prop :=
  ListenAddress s' = ListenAddress s ∧ PathPrefix s' = PathPrefix s ∧
  RealIPHeader s' = RealIPHeader s ∧ RealIPPos s' = RealIPPos s ∧
  Server_CertFile s' = Server_CertFile s ∧ Server_KeyFile s' = Server_KeyFile s ∧
  HSTS s' = HSTS s ∧ TLSMinVersion s' = TLSMinVersion s ∧
  TLSCurvePreferences s' = TLSCurvePreferences s ∧
  TLSCipherSuites s' = TLSCipherSuites s ∧ LetsEncrypt s' = LetsEncrypt s ∧
  Server_publicKey s' = Server_publicKey s ∧ Server_privateKey s' = Server_privateKey s.

(** [c'] is [c] with defaults filled in: nothing differs but [net], set to
    "tcp" where it was empty, and the contents of the four OAuth sections;
    no section appears or disappears. *)
Definition defaults_only (c c' : Config) : Prop :=
  same_server_but_net (Server c) (Server c') ∧
  (Net (Server c') = Net (Server c) ∨ Net (Server c) = "" ∧ Net (Server c') = "tcp") ∧
  Token c' = Token c ∧ Users c' = Users c ∧
  LDAPAuth c' = LDAPAuth c ∧ MongoAuth c' = MongoAuth c ∧ XormAuthn c' = XormAuthn c ∧
  ExtAuth c' = ExtAuth c ∧ PluginAuthn c' = PluginAuthn c ∧
  ACL c' = ACL c ∧ ACLMongo c' = ACLMongo c ∧ ACLXorm c' = ACLXorm c ∧
  ExtAuthz c' = ExtAuthz c ∧ PluginAuthz c' = PluginAuthz c ∧
  CasbinAuthz c' = CasbinAuthz c ∧
  (GoogleAuth c' = None ↔ GoogleAuth c = None) ∧
  (cfg_GitHubAuth c' = None ↔ cfg_GitHubAuth c = None) ∧
  (OIDCAuth c' = None ↔ OIDCAuth c = None) ∧
  (GitlabAuth c' = None ↔ GitlabAuth c = None).

(** The settings of an accepted configuration that every authenticator
    and the token minter rely on. *)
Definition server_and_token_ok (c : Config) : Prop :=
  ListenAddress (Server c) ≠ "" ∧
  (Net (Server c) = "unix" ∨ Net (Server c) = "tcp") ∧
  (PathPrefix (Server c) = "" ∨ GoStrings.HasPrefix (PathPrefix (Server c)) "/" = true) ∧
  ((TLSMinVersion (Server c) = "0x0304" ∨ TLSMinVersion (Server c) = "TLS13") →
   TLSCipherSuites (Server c) = None) ∧
  Issuer (Token c) ≠ "" ∧
  0 < Expiration (Token c).

Definition some_authn (c : Config) : Prop :=
  Users c ≠ None ∨ ExtAuth c ≠ None ∨ GoogleAuth c ≠ None ∨ cfg_GitHubAuth c ≠ None ∨
  GitlabAuth c ≠ None ∨ OIDCAuth c ≠ None ∨ LDAPAuth c ≠ None ∨ MongoAuth c ≠ None ∨
  XormAuthn c ≠ None ∨ PluginAuthn c ≠ None.

Definition some_authz_of_five (c : Config) : Prop :=
  ACL c ≠ None ∨ ACLXorm c ≠ None ∨ ACLMongo c ≠ None ∨ ExtAuthz c ≠ None ∨
  PluginAuthz c ≠ None.

(** The blocks of [validate], in order. *)
Definition validate_blocks : list check :=
  [ check_addr; check_net; check_path_prefix; check_tls13; check_issuer;
    check_expiration; check_authn_configured; check_mongo_auth; check_xorm_auth;
    check_google_auth; check_github_auth; check_oidc_auth; check_gitlab_auth;
    check_ext_auth; check_authz_configured; check_acl; check_acl_mongo;
    check_acl_xorm; check_ext_authz; check_plugin_authn; check_plugin_authz ].

End ConfigurationMore.

(** An accepted [github_auth]: client id and secret, a token store that is
    complete, a positive HTTP timeout and a revalidation period that is not
    zero. *)
Definition github_ok (ghac : GitHubAuthConfig) : Prop :=
  ClientId ghac ≠ "" ∧ ClientSecret ghac ≠ "" ∧
  (TokenDB ghac ≠ "" ∨ GCSTokenDB ghac ≠ None ∨ RedisTokenDB ghac ≠ None) ∧
  (∀ gcs, GCSTokenDB ghac = Some gcs → Bucket gcs ≠ "" ∧ gcs_ClientSecretFile gcs ≠ "") ∧
  (∀ r, RedisTokenDB ghac = Some r → ClientOptions r ≠ None ∨ ClusterOptions r ≠ None) ∧
  0 < HTTPTimeout ghac ∧ RevalidateAfter ghac ≠ 0.

Definition gitlab_ok (glab : GitlabAuthConfig) : Prop :=
  glab_ClientId glab ≠ "" ∧ glab_ClientSecret glab ≠ "" ∧
  (glab_TokenDB glab ≠ "" ∨ glab_GCSTokenDB glab ≠ None ∨ glab_RedisTokenDB glab ≠ None) ∧
  (∀ gcs, glab_GCSTokenDB glab = Some gcs →
          glab_Bucket gcs ≠ "" ∧ glab_gcs_ClientSecretFile gcs ≠ "") ∧
  (∀ r, glab_RedisTokenDB glab = Some r →
        glab_ClientOptions r ≠ None ∨ glab_ClusterOptions r ≠ None) ∧
  0 < glab_HTTPTimeout glab ∧ glab_RevalidateAfter glab ≠ 0.

Definition google_ok (gac : GoogleAuthConfig) : Prop :=
  google_ClientId gac ≠ "" ∧ google_ClientSecret gac ≠ "" ∧ google_TokenDB gac ≠ "" ∧
  0 < google_HTTPTimeout gac.

Definition oidc_ok (oidc : OIDCAuthConfig) : Prop :=
  oidc_ClientId oidc ≠ "" ∧ oidc_ClientSecret oidc ≠ "" ∧ oidc_TokenDB oidc ≠ "" ∧
  oidc_Issuer oidc ≠ "" ∧ oidc_RedirectURL oidc ≠ "" ∧
  0 < oidc_HTTPTimeout oidc ∧ oidc_UserClaim oidc ≠ "" ∧ oidc_Scopes oidc ≠ None.

(** ** A deployment behind Let's Encrypt *)

(** The packages around the configuration where the token key pair loads
    and the cache directory exists. *)
Definition letsencrypt_deps : ConfigDeps :=
  {| PublicKey := string;
     PrivateKey := string;
     LDAPAuthConfig := unit;
     MongoAuthConfig := unit;
     XormAuthnConfig := unit;
     ExtAuthConfig := unit;
     PluginAuthnConfig := unit;
     ACLEntry := unit;
     ACLMongoConfig := unit;
     XormAuthzConfig := unit;
     ExtAuthzConfig := unit;
     PluginAuthzConfig := unit;
     CasbinAuthzConfig := unit;
     MongoAuthConfig_Validate := fun _ _ => None;
     XormAuthnConfig_Validate := fun _ _ => None;
     ExtAuthConfig_Validate := fun _ => None;
     PluginAuthnConfig_Validate := fun _ => None;
     ValidateACL := fun _ => None;
     ACLMongoConfig_Validate := fun _ _ => None;
     XormAuthzConfig_Validate := fun _ _ => None;
     ExtAuthzConfig_Validate := fun _ => None;
     PluginAuthzConfig_Validate := fun _ => None;
     ReadFile := fun _ => inl (errors_New "no such file or directory");
     loadCertAndKey := fun certFile keyFile =>
       if decide (certFile = "/certs/token.pem" ∧ keyFile = "/certs/token.key")
       then (Some "token-public-key", Some "token-private-key", None)
       else (None, None, Some (errors_New "no such file or directory"));
     stat_IsDir := fun path => bool_decide (path = "/data/letsencrypt") |}.

Definition letsencrypt_config : @Config letsencrypt_deps :=
  mkConfig
    (mkServerConfig ":443" "" "" "" 0 "" "" false "" None None
       (mkLetsEncryptConfig "auth.acme.example" "ops@acme.example" "/data/letsencrypt")
       None None)
    (mkTokenConfig "Acme auth server" "/certs/token.pem" "/certs/token.key" 900 None None)
    (Some demo_users) None None None None
    None None None None None (Some []) None None None None None.

Definition letsencrypt_source : @ConfigSource letsencrypt_deps :=
  {| readConfig := fun _ _ => inr letsencrypt_config |}.

(** ** [processEnvVars] *)

(** [filepath.Ext]: the suffix from the last dot of the last element of the
    path; the loop of the library reads the path from its end and stops at
    a separator (the slash: the service runs on Unix paths).  [rpath] is
    the part still to read, last byte first, and [acc] the bytes read. *)
Fixpoint Ext_go (rpath acc : string) : string :=
  match rpath with
  | EmptyString => EmptyString
  | String a rpath' =>
      if bool_decide (a = "/"%char) then EmptyString
      else if bool_decide (a = "."%char) then String a acc
      else Ext_go rpath' (String a acc)
  end.

Definition filepath_Ext (path : string) : string :=
  Ext_go (GoStrings.rev path) EmptyString.

(** [s[n:]] for [n] up to the length of [s]. *)
Fixpoint drop_bytes (n : nat) (s : string) : string :=
  match n, s with
  | O, _ => s
  | S n', String _ s' => drop_bytes n' s'
  | S _, EmptyString => EmptyString
  end.

(** The first occurrence of [sep] in [s], as [strings.Index] finds it: the
    bytes before it (after [before]) and the bytes after it. *)
Fixpoint cut (sep before s : string) : option (string * string) :=
  if GoStrings.HasPrefix s sep then Some (before, drop_bytes (String.length sep) s)
  else
    match s with
    | EmptyString => None
    | String c s' => cut sep (before +:+ String c EmptyString) s'
    end.

(** [strings.SplitN(s, sep, 2)] and [strings.SplitAfterN(s, sep, 2)] for a
    non-empty separator (the program passes ["="] and [envPrefix+"_"]). *)
Definition SplitN_2 (s sep : string) : list string :=
  match cut sep EmptyString s with
  | Some (before, after) => [before; after]
  | None => [s]
  end.

Definition SplitAfterN_2 (s sep : string) : list string :=
  match cut sep EmptyString s with
  | Some (before, after) => [before +:+ sep; after]
  | None => [s]
  end.

Definition is_upper (a : ascii) : bool :=
  ((65 <=? N_of_ascii a) && (N_of_ascii a <=? 90))%N.

Definition lower_byte (a : ascii) : ascii :=
  if is_upper a then ascii_of_N (N_of_ascii a + 32) else a.

Fixpoint all_ascii (s : string) : bool :=
  match s with
  | EmptyString => true
  | String a s' => (N_of_ascii a <? 128)%N && all_ascii s'
  end.

Fixpoint map_bytes (f : ascii → ascii) (s : string) : string :=
  match s with
  | EmptyString => EmptyString
  | String a s' => String (f a) (map_bytes f s')
  end.

(** Whether [s] has an upper-case ASCII letter. *)
Fixpoint has_upper (s : string) : bool :=
  match s with
  | EmptyString => false
  | String a s' => is_upper a || has_upper s'
  end.

(** What [processEnvVars] takes from other packages: the values that the
    decoders give ([interface{}], with its nil), the decoders, and
    [strings.Map(unicode.ToLower, s)], which [strings.ToLower] calls for a
    string with a byte outside ASCII. *)
Class EnvVarDeps : Type := {
  EnvValue : Type;
  nil_value : EnvValue;
  yaml_Unmarshal : string → error + EnvValue;
  json_Unmarshal : string → error + EnvValue;
  Map_unicode_ToLower : string → string
}.

Section EnvVars.
Context `{EnvVarDeps}.

(** [strings.ToLower]. *)
Definition ToLower (s : string) : string :=
  if all_ascii s then map_bytes lower_byte s else Map_unicode_ToLower s.

(** The loop of [processEnvVars] over [os.Environ()].  [viper] is the list
    of the calls of [viper.Set] made so far, the first one first. *)
Fixpoint processEnvVars_loop (envPrefix ext : string) (envs : list string)
  (viper : list (string * EnvValue)) : outcome (list (string * EnvValue) * option error) :=
  match envs with
  | [] => Returned (viper, None)
  | envKey :: envs' =>
      match SplitN_2 envKey "=" with
      | [] => Panicked
      | keyVal0 :: keyVal_rest =>
          match SplitAfterN_2 keyVal0 (envPrefix +:+ "_") with
          | [ks0; ks1] =>
              let vKey := ToLower (GoStrings.Replace ks1 "_" ".") in
              match keyVal_rest with
              | [] => Panicked
              | keyVal1 :: _ =>
                  let parsed :=
                    if bool_decide (ext = "yaml" ∨ ext = "yml") then yaml_Unmarshal keyVal1
                    else if bool_decide (ext = "json") then json_Unmarshal keyVal1
                    else inr nil_value in
                  match parsed with
                  | inl parseErr =>
                      Returned
                        (viper,
                         Some (fmt_Errorf_err "could not parse env var %s as %s: %v"
                                 [ArgS ks0; ArgS ext] parseErr))
                  | inr val => processEnvVars_loop envPrefix ext envs' (viper ++ [(vKey, val)])
                  end
              end
          | _ => processEnvVars_loop envPrefix ext envs' viper
          end
      end
  end.

(** [processEnvVars].  [environ] is what [os.Environ()] returns; the
    result is the calls of [viper.Set] made and the error.  [ext[1:]] on an
    empty extension is out of range. *)
Definition processEnvVars (envPrefix fileName : string) (environ : list string)
  (viper : list (string * EnvValue)) : outcome (list (string * EnvValue) * option error) :=
  match filepath_Ext fileName with
  | EmptyString => Panicked
  | String _ ext =>
      if bool_decide (ext ∈ ["yaml"; "json"; "yml"])
      then processEnvVars_loop envPrefix ext environ viper
      else Returned (viper, Some (fmt_Errorf "unsupported config type: %s" [ArgS ext]))
  end.

(** The name of an environment entry: what stands before its first ["="]. *)
Definition env_name (envKey : string) : string :=
  default EmptyString (head (SplitN_2 envKey "=")).

End EnvVars.

(** Decoders that accept every text as a string, for the examples. *)
Definition demo_env : EnvVarDeps :=
  {| EnvValue := string;
     nil_value := "";
     yaml_Unmarshal := fun text => inr text;
     json_Unmarshal := fun text => inr text;
     Map_unicode_ToLower := fun s => s |}.

(** An environment with one variable of the server and one that only
    holds the prefix. *)
Definition demo_environ : list string :=
  ["HOME=/root"; "AUTH_SERVER_ADDR=:5001"; "DOCKER_AUTH_TOKEN_ISSUER=Acme"].

(** ** The sign-in pages of the GitHub authenticator *)

(** [CodeToTokenResponse] (declared outside this file): the fields read
    here. *)
Record CodeToTokenResponse : Type := mkCodeToTokenResponse {
  c2t_AccessToken : string;
  c2t_TokenType : string;
  c2t_Error : string;
  c2t_ErrorDescription : string
}.

(** A message for the browser: a literal, or a call of [fmt.Sprintf] with
    strings or with an error. *)
Inductive text : Type :=
| Literal (s : string)
| Sprintf (format : string) (args : list fmt_arg)
| Sprintf_err (format : string) (err : error).

(** What a handler does to its [http.ResponseWriter]: a call of
    [http.Error], or the execution of one of the two page templates on its
    data. *)
Inductive written : Type :=
| http_Error (msg : text) (code : Z)
| tmpl_Execute (clientId githubWebUri organization : string)
| tmplResult_Execute (organization username password registryUrl : string).

Definition StatusBadRequest : Z := 400.
Definition StatusInternalServerError : Z := 500.
Definition StatusServiceUnavailable : Z := 503.

(** What the pages take from other packages: the query of a URL
    ([req.URL.Query().Get]), [url.Values.Encode], the round trip of a
    request with a body, the JSON decoder, and the errors of the two
    templates on their data. *)
Class SignIn : Type := {
  Query_Get : string → string → string;
  Values_Encode : list (string * list string) → string;
  client_Do_body : Request → string → error + Response;
  Unmarshal_c2t : string → error + CodeToTokenResponse;
  tmpl_error : string → string → string → option error;
  tmplResult_error : string → string → string → string → option error
}.

Section SignInPages.
Context `{Http} `{GitHubJson} `{SignIn} {DB : Type} `{TokenDBOps DB}.

(** [doGitHubAuthPage]. *)
Definition doGitHubAuthPage (gha : GitHubAuth DB) (rw : list written) (req : Request)
  : list written :=
  let rw :=
    rw ++ [tmpl_Execute (ClientId (config gha)) (getGithubWebUri gha)
             (gh_Organization (config gha))] in
  match
    tmpl_error (ClientId (config gha)) (getGithubWebUri gha) (gh_Organization (config gha))
  with
  | Some err => rw ++ [http_Error (Sprintf_err "Template error: %s" err) StatusInternalServerError]
  | None => rw
  end.

(** [doGitHubAuthResultPage]. *)
Definition doGitHubAuthResultPage (gha : GitHubAuth DB) (rw : list written)
  (username password : string) : list written :=
  let rw :=
    rw ++ [tmplResult_Execute (gh_Organization (config gha)) username password
             (RegistryUrl (config gha))] in
  match
    tmplResult_error (gh_Organization (config gha)) username password
      (RegistryUrl (config gha))
  with
  | Some err => rw ++ [http_Error (Sprintf_err "Template error: %s" err) StatusInternalServerError]
  | None => rw
  end.

(** The value that [doGitHubAuthCreateToken] stores.  A nil slice of teams
    is the empty list. *)
Definition new_token_value (gha : GitHubAuth DB) (now : Z) (c2t : CodeToTokenResponse)
  (userTeams : option (list string)) : TokenDBValue :=
  mkTokenDBValue (c2t_TokenType c2t) (c2t_AccessToken c2t)
    (now + RevalidateAfter (config gha)) ""
    (Some {["teams" := default [] userTeams]}).

(** [doGitHubAuthCreateToken].  [now] is the reading of the clock and
    [fuel] the budget of [fetchTeams]; the result is the authenticator
    with its database and the response as written. *)
Definition doGitHubAuthCreateToken (gha : GitHubAuth DB) (now : Z) (fuel : nat)
  (rw : list written) (code : string) : outcome (GitHubAuth DB * list written) :=
  let data :=
    [("code", [code]); ("client_id", [ClientId (config gha)]);
     ("client_secret", [ClientSecret (config gha)])] in
  match http_NewRequest "POST" (getGithubWebUri gha +:+ "/login/oauth/access_token") with
  | inl err =>
      Returned
        (gha,
         rw ++ [http_Error (Sprintf_err "Error creating request to GitHub auth backend: %s" err)
                  StatusServiceUnavailable])
  | inr req =>
      let req := Header_Add req "Accept" "application/json" in
      match client_Do_body req (Values_Encode data) with
      | inl err =>
          Returned
            (gha,
             rw ++ [http_Error (Sprintf_err "Error talking to GitHub auth backend: %s" err)
                      StatusServiceUnavailable])
      | inr resp =>
          let codeResp := Body resp in
          match Unmarshal_c2t codeResp with
          | inl err =>
              Returned
                (gha,
                 rw ++ [http_Error (Sprintf_err "Failed to get token: %s" err)
                          StatusBadRequest])
          | inr c2t =>
              if decide (c2t_Error c2t ≠ "" ∨ c2t_ErrorDescription c2t ≠ "") then
                Returned
                  (gha,
                   rw ++ [http_Error
                            (Sprintf "Failed to get token: %s"
                               [ArgS (c2t_Error c2t +:+ ": " +:+ c2t_ErrorDescription c2t)])
                            StatusBadRequest])
              else
                match validateAccessToken gha (c2t_AccessToken c2t) with
                | (_, Some err) =>
                    Returned
                      (gha,
                       rw ++ [http_Error (Literal "Newly-acquired token is invalid")
                                StatusInternalServerError])
                | (user, None) =>
                    teams ←! fetchTeams gha fuel (c2t_AccessToken c2t);
                    let userTeams := fst teams in
                    let v := new_token_value gha now c2t userTeams in
                    match StoreToken (db gha) user v true with
                    | (db', (_, Some err)) =>
                        Returned
                          (mkGitHubAuth (config gha) db',
                           rw ++ [http_Error (Literal "Failed to record server token: %s")
                                    StatusInternalServerError])
                    | (db', (dp, None)) =>
                        Returned
                          (mkGitHubAuth (config gha) db',
                           doGitHubAuthResultPage gha rw user dp)
                    end
                end
          end
      end
  end.

(** [DoGitHubAuth]. *)
Definition DoGitHubAuth (gha : GitHubAuth DB) (now : Z) (fuel : nat) (rw : list written)
  (req : Request) : outcome (GitHubAuth DB * list written) :=
  let code := Query_Get (URL req) "code" in
  if decide (code ≠ "") then doGitHubAuthCreateToken gha now fuel rw code
  else if decide (Method req = "GET") then Returned (gha, doGitHubAuthPage gha rw req)
  else Returned (gha, rw).

(** The exchange of [code] went through and the provider vouches for the
    token it gave: the token is [user]'s and, with an organization
    configured, [user] is a member. *)
Definition vouched (gha : GitHubAuth DB) (code : string) (c2t : CodeToTokenResponse)
  (user : string) : Prop :=
  ∃ req resp,
    http_NewRequest "POST" (getGithubWebUri gha +:+ "/login/oauth/access_token") = inr req ∧
    client_Do_body (Header_Add req "Accept" "application/json")
      (Values_Encode
         [("code", [code]); ("client_id", [ClientId (config gha)]);
          ("client_secret", [ClientSecret (config gha)])])
    = inr resp ∧
    Unmarshal_c2t (Body resp) = inr c2t ∧
    c2t_Error c2t = "" ∧ c2t_ErrorDescription c2t = "" ∧
    validateAccessToken gha (c2t_AccessToken c2t) = (user, None).

End SignInPages.

(** A sign-in with the code [abc123], which the provider exchanges for
    Alice's token; the templates render without error. *)
Definition demo_signin : SignIn :=
  {| Query_Get := fun url key =>
       if decide (url = "/github_auth?code=abc123" ∧ key = "code") then "abc123" else "";
     Values_Encode := fun data =>
       String.concat "&"
         ((fun kv : string * list string => kv.1 +:+ "=" +:+ String.concat "," kv.2)
            <$> data);
     client_Do_body := fun req body =>
       if decide (URL req = "https://github.com/login/oauth/access_token"
                  ∧ body = "code=abc123&client_id=client-id&client_secret=client-secret")
       then inr (ok_response None "gho_alice")
       else inl (errors_New "no such host");
     Unmarshal_c2t := fun body => inr (mkCodeToTokenResponse body "bearer" "" "");
     tmpl_error := fun _ _ _ => None;
     tmplResult_error := fun _ _ _ _ => None |}.

(** A provider that knows Alice and her membership but fails to list
    teams. *)
Definition teamless_http : Http :=
  {| bad_url := fun _ => None;
     client_Do := fun req =>
       if decide (URL req = "https://api.github.com/user")
       then inr (ok_response None "alice")
       else if decide (URL req = "https://api.github.com/orgs/acme/members/alice")
       then inr (mkResponse 204 "204 No Content" ∅ "")
       else inl (errors_New "no such host") |}.

(** The authenticator before anyone has signed in. *)
Definition empty_gha : GitHubAuth MemDB :=
  mkGitHubAuth (demo_config_github "" "acme") (mkMemDB ∅ 0 true).

Definition signin_request : Request := mkRequest "GET" "/github_auth?code=abc123" [].
(** * Properties *)

(** ** Byte strings *)

Section StringFacts.
Import GoStrings.

Lemma app_cons a s t : String a s +:+ t = String a (s +:+ t).
Proof. reflexivity. Qed.

Lemma app_empty_l t : "" +:+ t = t.
Proof. reflexivity. Qed.

Lemma app_empty_r s : s +:+ "" = s.
Proof. induction s as [|a s IH]; [done|]. by rewrite app_cons, IH. Qed.

Lemma app_assoc' s t u : (s +:+ t) +:+ u = s +:+ (t +:+ u).
Proof. induction s as [|a s IH]; [done|]. by rewrite !app_cons, IH. Qed.

Lemma rev_cons a s : rev (String a s) = rev s +:+ String a "".
Proof. reflexivity. Qed.

Lemma rev_app s t : rev (s +:+ t) = rev t +:+ rev s.
Proof.
  induction s as [|a s IH].
  - by rewrite app_empty_l, app_empty_r.
  - by rewrite app_cons, !rev_cons, IH, app_assoc'.
Qed.

Lemma rev_rev s : rev (rev s) = s.
Proof.
  induction s as [|a s IH]; [done|].
  by rewrite rev_cons, rev_app, IH.
Qed.

Lemma occurs_app c s t : occurs c (s +:+ t) = occurs c s || occurs c t.
Proof.
  induction s as [|a s IH]; [done|].
  rewrite app_cons. cbn [occurs]. by rewrite IH, orb_assoc.
Qed.

Lemma all_space_app s t : all_space (s +:+ t) = all_space s && all_space t.
Proof.
  induction s as [|a s IH]; [done|].
  rewrite app_cons. cbn [all_space]. by rewrite IH, andb_assoc.
Qed.

Lemma all_space_rev s : all_space (rev s) = all_space s.
Proof.
  induction s as [|a s IH]; [done|].
  rewrite rev_cons, all_space_app, IH. cbn [all_space].
  rewrite andb_true_r. apply andb_comm.
Qed.

Lemma all_space_occurs c s :
  is_space1 c = false → all_space s = true → occurs c s = false.
Proof.
  intros Hc. induction s as [|a s IH]; [done|].
  cbn [all_space occurs]. intros [Ha Hs]%andb_true_iff.
  rewrite (IH Hs), orb_false_r. apply bool_decide_eq_false. congruence.
Qed.

(** *** [Split] on a one-byte separator *)

Lemma HasPrefix_byte a s c :
  HasPrefix (String a s) (String c "") = bool_decide (c = a).
Proof. cbn [HasPrefix]. destruct s; apply andb_true_r. Qed.

Lemma Split_go_nonempty sep k cur s : Split_go sep k cur s ≠ [].
Proof.
  revert k cur. induction s as [|a s IH]; intros k cur; [done|].
  cbn [Split_go]. destruct k; [|apply IH].
  destruct (HasPrefix (String a s) sep); [done|apply IH].
Qed.

Lemma Split_go_piece c p cur :
  occurs c p = false → Split_go (String c "") 0 cur p = [cur +:+ p].
Proof.
  revert cur. induction p as [|a p IH]; intros cur.
  - by rewrite app_empty_r.
  - cbn [occurs]. intros [Ha Hp]%orb_false_iff.
    cbn [Split_go]. rewrite HasPrefix_byte.
    apply bool_decide_eq_false in Ha.
    rewrite bool_decide_eq_false_2 by congruence.
    rewrite (IH _ Hp), app_assoc'. done.
Qed.

Lemma Split_go_sep c p cur rest :
  occurs c p = false →
  Split_go (String c "") 0 cur (p +:+ String c rest)
  = (cur +:+ p) :: Split_go (String c "") 0 "" rest.
Proof.
  revert cur. induction p as [|a p IH]; intros cur.
  - intros _. rewrite app_empty_r, app_empty_l.
    cbn [Split_go]. rewrite HasPrefix_byte, bool_decide_eq_true_2 by done. done.
  - cbn [occurs]. intros [Ha Hp]%orb_false_iff.
    rewrite app_cons. cbn [Split_go]. rewrite HasPrefix_byte.
    apply bool_decide_eq_false in Ha.
    rewrite bool_decide_eq_false_2 by congruence.
    rewrite (IH _ Hp), app_assoc'. done.
Qed.

(** A string that holds the separator splits into two pieces at least. *)
Lemma Split_go_two c s cur :
  occurs c s = true →
  ∃ x y rest, Split_go (String c "") 0 cur s = x :: y :: rest.
Proof.
  revert cur. induction s as [|a s IH]; intros cur; [done|].
  cbn [occurs Split_go]. rewrite HasPrefix_byte.
  destruct (decide (a = c)) as [->|Hne].
  - intros _. rewrite bool_decide_eq_true_2 by done.
    destruct (Split_go (String c "") (String.length (String c "") - 1) "" s)
      as [|y rest] eqn:E.
    + by apply Split_go_nonempty in E.
    + eauto.
  - rewrite (bool_decide_eq_false_2 (a = c)) by done.
    rewrite (bool_decide_eq_false_2 (c = a)) by congruence.
    rewrite orb_false_l. intros Hs. apply IH, Hs.
Qed.

Lemma Split_join items :
  items ≠ [] → Forall (fun item => occurs ","%char item = false) items →
  Split (join_items items) "," = items.
Proof.
  intros Hne Hall. unfold Split.
  induction Hall as [|item rest Hitem Hrest IH]; [done|].
  destruct rest as [|item' rest'].
  - cbn [join_items]. rewrite Split_go_piece by done. done.
  - change (join_items (item :: item' :: rest'))
      with (item +:+ String ","%char (join_items (item' :: rest'))).
    rewrite Split_go_sep by done. rewrite app_empty_l. f_equal. by apply IH.
Qed.

(** *** [TrimSpace] *)

Lemma is_space2_ascii a b : (N_of_ascii a < 128)%N → is_space2 a b = false.
Proof.
  intros Ha. unfold is_space2.
  destruct (N.eqb_spec (N_of_ascii a) 194); [lia|done].
Qed.

Lemma is_space3_ascii a b c : (N_of_ascii a < 128)%N → is_space3 a b c = false.
Proof.
  intros Ha. unfold is_space3.
  destruct (N.eqb_spec (N_of_ascii a) 225); [lia|].
  destruct (N.eqb_spec (N_of_ascii a) 226); [lia|].
  destruct (N.eqb_spec (N_of_ascii a) 227); [lia|done].
Qed.

Lemma is_space2_ascii_last a b : (N_of_ascii b < 128)%N → is_space2 a b = false.
Proof.
  intros Hb. unfold is_space2.
  destruct (N.eqb_spec (N_of_ascii b) 133); [lia|].
  destruct (N.eqb_spec (N_of_ascii b) 160); [lia|].
  apply andb_false_r.
Qed.

Lemma is_space3_ascii_last a b c : (N_of_ascii c < 128)%N → is_space3 a b c = false.
Proof.
  intros Hc. unfold is_space3.
  destruct (N.eqb_spec (N_of_ascii c) 128); [lia|].
  destruct (N.leb_spec 128 (N_of_ascii c)); [lia|].
  destruct (N.eqb_spec (N_of_ascii c) 168); [lia|].
  destruct (N.eqb_spec (N_of_ascii c) 169); [lia|].
  destruct (N.eqb_spec (N_of_ascii c) 175); [lia|].
  destruct (N.eqb_spec (N_of_ascii c) 159); [lia|].
  rewrite !andb_false_r. done.
Qed.

(** A string that starts with an ASCII byte that is not white space has
    nothing to trim on the left, and likewise on the right. *)
Lemma TrimLeftSpace_stop a s :
  is_space1 a = false → (N_of_ascii a < 128)%N →
  TrimLeftSpace (String a s) = String a s.
Proof.
  intros Hsp Ha. cbn [TrimLeftSpace]. rewrite Hsp.
  destruct s as [|b s]; [done|]. rewrite is_space2_ascii by done.
  destruct s as [|c s]; [done|]. by rewrite is_space3_ascii.
Qed.

Lemma TrimLeftSpace_rev_stop a s :
  is_space1 a = false → (N_of_ascii a < 128)%N →
  TrimLeftSpace_rev (String a s) = String a s.
Proof.
  intros Hsp Ha. cbn [TrimLeftSpace_rev]. rewrite Hsp.
  destruct s as [|b s]; [done|]. rewrite is_space2_ascii_last by done.
  destruct s as [|c s]; [done|]. by rewrite is_space3_ascii_last.
Qed.

Lemma TrimLeftSpace_lead lead s :
  all_space lead = true → TrimLeftSpace (lead +:+ s) = TrimLeftSpace s.
Proof.
  induction lead as [|a lead IH]; [done|].
  cbn [all_space]. intros [Ha Hl]%andb_true_iff.
  rewrite app_cons. cbn [TrimLeftSpace]. rewrite Ha. by apply IH.
Qed.

Lemma TrimLeftSpace_rev_lead lead s :
  all_space lead = true → TrimLeftSpace_rev (lead +:+ s) = TrimLeftSpace_rev s.
Proof.
  induction lead as [|a lead IH]; [done|].
  cbn [all_space]. intros [Ha Hl]%andb_true_iff.
  rewrite app_cons. cbn [TrimLeftSpace_rev]. rewrite Ha. by apply IH.
Qed.

Lemma TrimSpace_bracketed lead url gap :
  all_space lead = true → all_space gap = true →
  TrimSpace (lead +:+ "<" +:+ url +:+ ">" +:+ gap) = "<" +:+ url +:+ ">".
Proof.
  intros Hlead Hgap. unfold TrimSpace, TrimRightSpace.
  rewrite TrimLeftSpace_lead by done.
  change ("<" +:+ url +:+ ">" +:+ gap) with (String "<" (url +:+ String ">" gap)).
  rewrite TrimLeftSpace_stop by (done || by vm_compute).
  rewrite rev_cons, rev_app, rev_cons, !app_assoc'.
  rewrite TrimLeftSpace_rev_lead by by rewrite all_space_rev.
  rewrite app_cons, app_empty_l.
  rewrite TrimLeftSpace_rev_stop by (done || by vm_compute).
  rewrite rev_cons, rev_app, rev_rev. done.
Qed.

(** *** [Replace] of a one-byte string by nothing *)

Lemma Replace_go_app c p s :
  occurs c p = false →
  Replace_go (String c "") "" 0 (p +:+ s) = p +:+ Replace_go (String c "") "" 0 s.
Proof.
  induction p as [|a p IH]; [done|].
  cbn [occurs]. intros [Ha Hp]%orb_false_iff.
  rewrite !app_cons. cbn [Replace_go]. rewrite HasPrefix_byte.
  apply bool_decide_eq_false in Ha.
  rewrite bool_decide_eq_false_2 by congruence. by rewrite IH.
Qed.

Lemma Replace_go_hit c s :
  Replace_go (String c "") "" 0 (String c s) = Replace_go (String c "") "" 0 s.
Proof.
  cbn [Replace_go]. rewrite HasPrefix_byte, bool_decide_eq_true_2 by done. done.
Qed.

Lemma removeSubstringsFromString_bracketed url :
  occurs "<"%char url = false → occurs ">"%char url = false →
  removeSubstringsFromString ("<" +:+ url +:+ ">") ["<"; ">"] = url.
Proof.
  intros Hlt Hgt. unfold removeSubstringsFromString. cbn [fold_left Replace].
  change ("<" +:+ url +:+ ">") with (String "<" (url +:+ ">")).
  rewrite Replace_go_hit, Replace_go_app by done.
  change (Replace_go "<" "" 0 ">") with ">".
  rewrite Replace_go_app by done.
  change (Replace_go ">" "" 0 ">") with "". apply app_empty_r.
Qed.

End StringFacts.

(** ** [parseLinkHeader] *)

Section LinkHeaderFacts.
Import GoStrings.

Lemma parseLinkItem_returns lH linkItem :
  occurs ";"%char linkItem = true → ∃ lH', parseLinkItem lH linkItem = Returned lH'.
Proof.
  intros Hsemi. unfold parseLinkItem, Split.
  destruct (Split_go_two _ _ "" Hsemi) as (x & y & rest & ->).
  cbn [lookup list_lookup]. eauto.
Qed.

Lemma parseLinkItem_panics lH linkItem :
  occurs ";"%char linkItem = false → parseLinkItem lH linkItem = Panicked.
Proof.
  intros Hsemi. unfold parseLinkItem, Split.
  by rewrite Split_go_piece.
Qed.

Lemma parseLinkItems_returns linkItems lH :
  Forall (fun linkItem => occurs ";"%char linkItem = true) linkItems →
  ∃ lH', parseLinkItems lH linkItems = Returned lH'.
Proof.
  intros Hall. revert lH.
  induction Hall as [|linkItem rest Hitem _ IH]; intros lH; [by eexists|].
  cbn [parseLinkItems].
  destruct (parseLinkItem_returns lH _ Hitem) as [lH' ->]. apply IH.
Qed.

Lemma parseLinkItems_panics linkItems lH :
  ¬ Forall (fun linkItem => occurs ";"%char linkItem = true) linkItems →
  parseLinkItems lH linkItems = Panicked.
Proof.
  revert lH. induction linkItems as [|linkItem rest IH]; intros lH Hnot.
  - by destruct Hnot.
  - cbn [parseLinkItems].
    destruct (occurs ";"%char linkItem) eqn:Hitem.
    + destruct (parseLinkItem_returns lH _ Hitem) as [lH' ->].
      apply IH. intros Hrest. apply Hnot. by constructor.
    + by rewrite parseLinkItem_panics.
Qed.

Lemma parseLinkLines_returns linkLines lH :
  every_item_has_semicolon linkLines →
  ∃ lH', parseLinkLines lH linkLines = Returned lH'.
Proof.
  intros Hall. revert lH.
  induction Hall as [|linkLine rest Hline _ IH]; intros lH; [by eexists|].
  cbn [parseLinkLines].
  destruct (parseLinkItems_returns _ lH Hline) as [lH' ->]. apply IH.
Qed.

Lemma parseLinkLines_panics linkLines lH :
  ¬ every_item_has_semicolon linkLines →
  parseLinkLines lH linkLines = Panicked.
Proof.
  unfold every_item_has_semicolon.
  revert lH. induction linkLines as [|linkLine rest IH]; intros lH Hnot.
  - by destruct Hnot.
  - cbn [parseLinkLines].
    destruct (decide (Forall (fun linkItem => occurs ";"%char linkItem = true)
                        (Split linkLine ","))) as [Hline|Hline].
    + destruct (parseLinkItems_returns _ lH Hline) as [lH' ->].
      apply IH. intros Hrest. apply Hnot. by constructor.
    + by rewrite parseLinkItems_panics.
Qed.

(** C10.  [parseLinkHeader] reads [linkData[1]] of every comma-separated
    item without a length check: when every item of every line holds a
    [";"] the read is in bounds and the function returns a header and a nil
    error; on every other input it panics. *)
Theorem parseLinkHeader_safe_iff (linkLines : list string) :
  (every_item_has_semicolon linkLines →
   ∃ lH, parseLinkHeader linkLines = Returned (lH, None)) ∧
  (¬ every_item_has_semicolon linkLines → parseLinkHeader linkLines = Panicked).
Proof.
  unfold parseLinkHeader. split; intros Hpre.
  - destruct (parseLinkLines_returns _ (mklinkHeader "" "" "" "") Hpre) as [lH ->].
    by exists lH.
  - by rewrite parseLinkLines_panics.
Qed.

(** An item without [";"] and the empty line make the function panic. *)
Example parseLinkHeader_unguarded :
  parseLinkHeader ["<https://api.github.com/user/teams?page=2>"] = Panicked ∧
  parseLinkHeader [""] = Panicked.
Proof. split; reflexivity. Qed.

Lemma parseLinkHeader_safe_iff_witness :
  every_item_has_semicolon (render_line <$> demo_links) ∧
  ∃ lH, parseLinkHeader (render_line <$> demo_links) = Returned (lH, None).
Proof.
  assert (every_item_has_semicolon (render_line <$> demo_links)) as Hpre.
  { repeat constructor. }
  split; [exact Hpre|].
  exact (proj1 (parseLinkHeader_safe_iff (render_line <$> demo_links)) Hpre).
Defined.

(** *** Items of the documented form *)

Lemma render_item_split (l : link) :
  render_item l
  = (lead l +:+ "<" +:+ uri l +:+ ">" +:+ gap l)
      +:+ String ";" (" rel=" +:+ dquote +:+ rel_keyword (kind l) +:+ dquote).
Proof. unfold render_item. by rewrite !app_assoc'. Qed.

Lemma well_formed_inv (l : link) :
  well_formed l = true →
  all_space (lead l) = true ∧ all_space (gap l) = true ∧
  occurs ","%char (uri l) = false ∧ occurs ";"%char (uri l) = false ∧
  occurs "<"%char (uri l) = false ∧ occurs ">"%char (uri l) = false.
Proof.
  unfold well_formed. rewrite !andb_true_iff, !negb_true_iff. tauto.
Qed.

Lemma render_item_no_comma (l : link) :
  well_formed l = true → occurs ","%char (render_item l) = false.
Proof.
  intros (Hlead & Hgap & Hc & _)%well_formed_inv.
  unfold render_item. rewrite !occurs_app, Hc.
  rewrite (all_space_occurs _ (lead l)), (all_space_occurs _ (gap l)) by done.
  by destruct (kind l).
Qed.

Lemma parseLinkItem_render (l : link) (lH : linkHeader) :
  well_formed l = true →
  parseLinkItem lH (render_item l) = Returned (set_field (kind l) (uri l) lH).
Proof.
  intros (Hlead & Hgap & _ & Hs & Hlt & Hgt)%well_formed_inv.
  unfold parseLinkItem, Split. rewrite render_item_split.
  rewrite Split_go_sep.
  2:{ rewrite !occurs_app, Hs.
      by rewrite (all_space_occurs _ (lead l)), (all_space_occurs _ (gap l)). }
  rewrite Split_go_piece by by destruct (kind l).
  cbn [lookup list_lookup]. rewrite !app_empty_l.
  rewrite TrimSpace_bracketed, removeSubstringsFromString_bracketed by done.
  by destruct (kind l).
Qed.

Lemma parseLinkItems_render (ls : list link) (lH : linkHeader) :
  Forall (fun l => well_formed l = true) ls →
  parseLinkItems lH (render_item <$> ls)
  = Returned (fold_left (fun h l => set_field (kind l) (uri l) h) ls lH).
Proof.
  intros Hall. revert lH.
  induction Hall as [|l rest Hl _ IH]; intros lH; [done|].
  cbn [fmap list_fmap parseLinkItems fold_left].
  rewrite parseLinkItem_render by done. apply IH.
Qed.

Lemma parseLinkLines_render (lines : list (list link)) (lH : linkHeader) :
  Forall (fun ls => ls ≠ [] ∧ Forall (fun l => well_formed l = true) ls) lines →
  parseLinkLines lH (render_line <$> lines)
  = Returned (fold_left (fun h l => set_field (kind l) (uri l) h) (concat lines) lH).
Proof.
  intros Hall. revert lH.
  induction Hall as [|ls rest [Hne Hls] _ IH]; intros lH; [done|].
  cbn [fmap list_fmap parseLinkLines concat]. unfold render_line at 1.
  rewrite Split_join.
  - rewrite parseLinkItems_render by done. cbn [obind].
    rewrite fold_left_app. apply IH.
  - by destruct ls.
  - apply Forall_fmap. eapply Forall_impl; [exact Hls|].
    intros l Hl. by apply render_item_no_comma.
Qed.

Lemma field_fold (k : rel) (ls : list link) (lH : linkHeader) :
  field k (fold_left (fun h l => set_field (kind l) (uri l) h) ls lH)
  = fold_left (fun acc l => if decide (kind l = k) then uri l else acc) ls (field k lH).
Proof.
  revert lH. induction ls as [|l rest IH]; intros lH; [done|].
  cbn [fold_left]. rewrite IH. f_equal.
  destruct (kind l), k; done.
Qed.

Lemma last_uri_fold_other (k : rel) (ls : list link) (acc : string) :
  Forall (fun l => kind l ≠ k) ls →
  fold_left (fun acc l => if decide (kind l = k) then uri l else acc) ls acc = acc.
Proof.
  intros Hall. revert acc.
  induction Hall as [|l rest Hl _ IH]; intros acc; [done|].
  cbn [fold_left]. rewrite decide_False by done. apply IH.
Qed.

Lemma last_uri_unique (l : link) (before after : list link) :
  Forall (fun l' => kind l' ≠ kind l) after →
  last_uri (kind l) (before ++ l :: after) = uri l.
Proof.
  intros Hafter. unfold last_uri. rewrite fold_left_app. cbn [fold_left].
  rewrite decide_True by done. by apply last_uri_fold_other.
Qed.

(** C8, as amended.  For Link header lines made of comma-separated items
    of the form [<URL>; rel="KIND"], with KIND one of first, last, next and
    prev and no URL holding a comma, a semicolon or an angle bracket,
    [parseLinkHeader] returns a header in which the field of each kind
    holds the URL of the last item of that kind, without the angle brackets
    and the white space around them (the empty string when there is no such
    item): an item that no later item of the same kind follows gives its
    field its bare URL, and in particular so does an item with
    [rel="next"]. *)
Theorem parseLinkHeader_documented_form (lines : list (list link)) :
  Forall (fun ls => ls ≠ [] ∧ Forall (fun l => well_formed l = true) ls) lines →
  ∃ lH,
    parseLinkHeader (render_line <$> lines) = Returned (lH, None) ∧
    (∀ k, field k lH = last_uri k (concat lines)) ∧
    (∀ before l after,
       concat lines = before ++ l :: after →
       Forall (fun l' => kind l' ≠ kind l) after →
       field (kind l) lH = uri l) ∧
    (∀ before l after,
       concat lines = before ++ l :: after → kind l = rel_next →
       Forall (fun l' => kind l' ≠ rel_next) after →
       Next lH = uri l).
Proof.
  intros Hall. unfold parseLinkHeader.
  rewrite parseLinkLines_render by done. cbn [obind].
  eexists. split; [done|].
  assert (∀ k, field k
            (fold_left (fun h l => set_field (kind l) (uri l) h) (concat lines)
               (mklinkHeader "" "" "" ""))
          = last_uri k (concat lines)) as Hfield.
  { intros k. rewrite field_fold. by destruct k. }
  split; [exact Hfield|]. split.
  - intros before l after Heq Hafter. rewrite Hfield, Heq. by apply last_uri_unique.
  - intros before l after Heq Hk Hafter.
    change (Next ?h) with (field rel_next h). rewrite Hfield, Heq, <- Hk.
    apply last_uri_unique. by rewrite Hk.
Qed.

End LinkHeaderFacts.

Lemma parseLinkHeader_documented_form_witness :
  Forall (fun ls => ls ≠ [] ∧ Forall (fun l => well_formed l = true) ls) demo_links ∧
  ∃ lH,
    parseLinkHeader (render_line <$> demo_links) = Returned (lH, None) ∧
    (∀ k, field k lH = last_uri k (concat demo_links)) ∧
    (∀ before l after,
       concat demo_links = before ++ l :: after →
       Forall (fun l' => kind l' ≠ kind l) after →
       field (kind l) lH = uri l) ∧
    (∀ before l after,
       concat demo_links = before ++ l :: after → kind l = rel_next →
       Forall (fun l' => kind l' ≠ rel_next) after →
       Next lH = uri l).
Proof.
  assert (Forall (fun ls => ls ≠ [] ∧ Forall (fun l => well_formed l = true) ls)
            demo_links) as Hwf.
  { repeat constructor; done. }
  split; [exact Hwf|].
  exact (parseLinkHeader_documented_form demo_links Hwf).
Defined.

(** C8, as first stated, fails: the line is one item of the form
    [<URL>; rel="next"], and [Next] stays empty, because the URL holds a
    semicolon and the text after it is taken for the [rel] part. *)
Lemma parseLinkHeader_semicolon_in_url :
  parseLinkHeader
    [render_item (mklink "" "https://api.github.com/user/teams;v=2?page=2" "" rel_next)]
  = Returned (mklinkHeader "" "" "" "", None).
Proof. vm_compute. reflexivity. Qed.

(** The header of the first page: [Next] and [Last] are the bare URLs. *)
Example parseLinkHeader_first_page :
  parseLinkHeader (render_line <$> demo_links)
  = Returned
      (mklinkHeader "" "https://api.github.com/user/teams?per_page=100&page=5"
         "https://api.github.com/user/teams?per_page=100&page=2" "", None).
Proof. reflexivity. Qed.

(** ** Static users *)

Section StaticUsersFacts.
Context `{Bcrypt}.

(** C3.  A user absent from the map gets [(false, nil, NoMatch)]; a user
    with a password hash gets [(false, nil, nil)] when bcrypt rejects the
    password and [(true, labels, nil)], with the labels stored for the user,
    when bcrypt accepts it. *)
Theorem staticUsersAuth_Authenticate_cases
  (static : option (gmap string (option Requirements))) (user : string)
  (password : PasswordString) :
  ((∀ m, static = Some m → m !! user = None) →
   staticUsersAuth_Authenticate (NewStaticUserAuth static) user password
   = (false, None, Some NoMatch)) ∧
  (∀ m reqs hash,
     static = Some m → m !! user = Some (Some reqs) → Password reqs = Some hash →
     (CompareHashAndPassword hash password ≠ None →
      staticUsersAuth_Authenticate (NewStaticUserAuth static) user password
      = (false, None, None)) ∧
     (CompareHashAndPassword hash password = None →
      staticUsersAuth_Authenticate (NewStaticUserAuth static) user password
      = (true, req_Labels reqs, None))).
Proof.
  unfold staticUsersAuth_Authenticate, users_lookup, NewStaticUserAuth.
  cbn [users].
  split.
  - intros Habsent. destruct static as [m|]; [|done]. by rewrite (Habsent m).
  - intros m reqs hash -> -> Hhash. cbn [from_option id]. rewrite Hhash.
    split; intros Hcmp.
    + by destruct (CompareHashAndPassword hash password).
    + by rewrite Hcmp.
Qed.

(** C9.  A user whose entry has no password hash is authenticated with
    the entry's labels whatever password is supplied. *)
Theorem staticUsersAuth_Authenticate_no_password
  (m : gmap string (option Requirements)) (user : string) (reqs : Requirements)
  (password : PasswordString) :
  m !! user = Some (Some reqs) → Password reqs = None →
  staticUsersAuth_Authenticate (NewStaticUserAuth (Some m)) user password
  = (true, req_Labels reqs, None).
Proof.
  unfold staticUsersAuth_Authenticate, users_lookup, NewStaticUserAuth.
  cbn [users].
  intros -> Hp. cbn [from_option id]. by rewrite Hp.
Qed.

End StaticUsersFacts.

Lemma staticUsersAuth_Authenticate_cases_witness :
  @staticUsersAuth_Authenticate demo_bcrypt (NewStaticUserAuth (Some demo_users))
    "nobody" "x" = (false, None, Some NoMatch) ∧
  @staticUsersAuth_Authenticate demo_bcrypt (NewStaticUserAuth (Some demo_users))
    "admin" "guess" = (false, None, None) ∧
  @staticUsersAuth_Authenticate demo_bcrypt (NewStaticUserAuth (Some demo_users))
    "admin" "badmin" = (true, Some {["group" := ["admin"]]}, None).
Proof.
  split; [|split].
  - refine (proj1 (@staticUsersAuth_Authenticate_cases demo_bcrypt (Some demo_users)
                     "nobody" "x") _).
    intros m [= <-]. reflexivity.
  - refine (proj1 (proj2 (@staticUsersAuth_Authenticate_cases demo_bcrypt (Some demo_users)
                            "admin" "guess")
                     demo_users
                     (mkRequirements (Some "hash:badmin") (Some {["group" := ["admin"]]}))
                     "hash:badmin" eq_refl eq_refl eq_refl) _).
    discriminate.
  - exact (proj2 (proj2 (@staticUsersAuth_Authenticate_cases demo_bcrypt (Some demo_users)
                           "admin" "badmin")
                    demo_users
                    (mkRequirements (Some "hash:badmin") (Some {["group" := ["admin"]]}))
                    "hash:badmin" eq_refl eq_refl eq_refl) eq_refl).
Defined.

Lemma staticUsersAuth_Authenticate_no_password_witness :
  demo_users !! "guest" = Some (Some (mkRequirements None None)) ∧
  @staticUsersAuth_Authenticate demo_bcrypt (NewStaticUserAuth (Some demo_users))
    "guest" "any password at all"
  = (true, None, None).
Proof.
  split; [reflexivity|].
  exact (@staticUsersAuth_Authenticate_no_password demo_bcrypt demo_users "guest"
           (mkRequirements None None) "any password at all" eq_refl eq_refl).
Defined.

(** ** [Requirements.String] *)

Section RequirementsFacts.
Context `{RequirementsJson}.

(** C6.  With a password set, the string is the encoding of the value
    with the password replaced by the literal ["***"]; two values that
    differ only in their password give the same string; and the method
    leaves the receiver as it found it. *)
Theorem Requirements_String_masks (labels : Labels) (p1 p2 : PasswordString) :
  fst (Requirements_String (mkRequirements (Some p1) labels))
  = Marshal_Requirements (mkRequirements (Some "***") labels) ∧
  fst (Requirements_String (mkRequirements (Some p1) labels))
  = fst (Requirements_String (mkRequirements (Some p2) labels)) ∧
  snd (Requirements_String (mkRequirements (Some p1) labels))
  = mkRequirements (Some p1) labels.
Proof. by unfold Requirements_String. Qed.

End RequirementsFacts.

(** ** [validate] and [LoadConfig] *)

Section ConfigurationFacts.
Context `{ConfigDeps}.

Lemma chain_cons (f : check) (fs : list check) (c : Config) :
  chain (f :: fs) c
  = match f c with
    | (c', None) => chain fs c'
    | (c', Some err) => (c', Some err)
    end.
Proof. reflexivity. Qed.

(** A block that fails on every configuration with the property [P],
    after blocks that keep [P], makes the chain fail. *)
Lemma chain_fails (P : Config → Prop) (pre : list check) (chk : check)
  (post : list check) :
  Forall (fun f : check => ∀ c, P c → P (fst (f c))) pre →
  (∀ c, P c → ∃ err, snd (chk c) = Some err) →
  ∀ c, P c → ∃ err, snd (chain (pre ++ chk :: post) c) = Some err.
Proof.
  intros Hpre Hchk. induction Hpre as [|f pre Hf _ IH]; intros c HP.
  - cbn [app]. rewrite chain_cons.
    destruct (Hchk c HP) as [err Herr].
    destruct (chk c) as [c' [e|]]; [by exists e|done].
  - cbn [app]. rewrite chain_cons.
    specialize (Hf c HP). destruct (f c) as [c' [e|]]; [by exists e|].
    by apply IH.
Qed.

(** A relation between the configuration before and after that every
    block respects is respected by the chain. *)
Lemma chain_frame (R : Config → Config → Prop) (fs : list check) :
  (∀ c, R c c) → (∀ c1 c2 c3, R c1 c2 → R c2 c3 → R c1 c3) →
  Forall (fun f : check => ∀ c, R c (fst (f c))) fs →
  ∀ c, R c (fst (chain fs c)).
Proof.
  intros Hrefl Htrans Hfs. induction Hfs as [|f fs Hf _ IH]; intros c.
  - apply Hrefl.
  - rewrite chain_cons. specialize (Hf c).
    destruct (f c) as [c' [e|]]; [exact Hf|].
    eapply Htrans; [exact Hf|apply IH].
Qed.

Lemma untouched_refl c : untouched c c.
Proof. by repeat split. Qed.

Lemma untouched_trans c1 c2 c3 : untouched c1 c2 → untouched c2 c3 → untouched c1 c3.
Proof. unfold untouched. intros ? ?. destruct_and!. repeat split; congruence. Qed.

Lemma check_net_untouched c : untouched c (fst (check_net c)).
Proof. unfold check_net. repeat case_decide; by repeat split. Qed.

Lemma check_google_auth_untouched c : untouched c (fst (check_google_auth c)).
Proof.
  unfold check_google_auth. destruct (GoogleAuth c); [|apply untouched_refl].
  destruct (validate_google _). by repeat split.
Qed.

Lemma check_github_auth_untouched c : untouched c (fst (check_github_auth c)).
Proof.
  unfold check_github_auth. destruct (cfg_GitHubAuth c); [|apply untouched_refl].
  destruct (validate_github _). by repeat split.
Qed.

Lemma check_oidc_auth_untouched c : untouched c (fst (check_oidc_auth c)).
Proof.
  unfold check_oidc_auth. destruct (OIDCAuth c); [|apply untouched_refl].
  destruct (validate_oidc _). by repeat split.
Qed.

Lemma check_gitlab_auth_untouched c : untouched c (fst (check_gitlab_auth c)).
Proof.
  unfold check_gitlab_auth. destruct (GitlabAuth c); [|apply untouched_refl].
  destruct (validate_gitlab _). by repeat split.
Qed.

Lemma validate_untouched c : untouched c (fst (validate c)).
Proof.
  apply (chain_frame untouched); [apply untouched_refl|apply untouched_trans|].
  repeat apply Forall_cons_2; try apply Forall_nil_2;
    first
      [ exact check_net_untouched | exact check_google_auth_untouched
      | exact check_github_auth_untouched | exact check_oidc_auth_untouched
      | exact check_gitlab_auth_untouched
      | intros c'; exact (untouched_refl c') ].
Qed.

(** *** A [redis_token_db] without options *)

Lemma validate_github_partial_redis (ghac : GitHubAuthConfig) :
  github_partial_redis ghac = true → ∃ err, snd (validate_github ghac) = Some err.
Proof.
  intros Hredis. unfold validate_github.
  destruct (read_secret (ClientSecretFile ghac)) as [err|secret]; [by exists err|].
  assert (github_partial_redis (from_option (set_ClientSecret ghac) ghac secret) = true)
    as Hredis' by by destruct secret.
  rewrite Hredis', orb_true_r.
  repeat case_match; by eexists.
Qed.

Lemma validate_gitlab_partial_redis (glab : GitlabAuthConfig) :
  gitlab_partial_redis glab = true → ∃ err, snd (validate_gitlab glab) = Some err.
Proof.
  intros Hredis. unfold validate_gitlab.
  destruct (read_secret (glab_ClientSecretFile glab)) as [err|secret]; [by exists err|].
  assert (gitlab_partial_redis (from_option (set_glab_ClientSecret glab) glab secret) = true)
    as Hredis' by by destruct secret.
  rewrite Hredis', orb_true_r.
  repeat case_match; by eexists.
Qed.

Lemma check_google_auth_fst_other c :
  cfg_GitHubAuth (fst (check_google_auth c)) = cfg_GitHubAuth c ∧
  GitlabAuth (fst (check_google_auth c)) = GitlabAuth c.
Proof.
  unfold check_google_auth. destruct (GoogleAuth c); [|done].
  by destruct (validate_google _).
Qed.

Lemma check_net_fst_other c :
  cfg_GitHubAuth (fst (check_net c)) = cfg_GitHubAuth c ∧
  GitlabAuth (fst (check_net c)) = GitlabAuth c.
Proof. unfold check_net. by repeat case_decide. Qed.

Lemma check_github_auth_fst_gitlab c :
  GitlabAuth (fst (check_github_auth c)) = GitlabAuth c.
Proof.
  unfold check_github_auth. destruct (cfg_GitHubAuth c); [|done].
  by destruct (validate_github _).
Qed.

Lemma check_oidc_auth_fst_gitlab c :
  GitlabAuth (fst (check_oidc_auth c)) = GitlabAuth c.
Proof.
  unfold check_oidc_auth. destruct (OIDCAuth c); [|done].
  by destruct (validate_oidc _).
Qed.

(** C7.  A [github_auth] or [gitlab_auth] configuration whose
    [redis_token_db] is present with neither [redis_options] nor
    [redis_cluster_options] makes [validate] return an error, whatever else
    is configured: a token file or a GCS store changes nothing. *)
Theorem validate_partial_redis_token_db (c : Config) :
  (∃ ghac r,
     cfg_GitHubAuth c = Some ghac ∧ RedisTokenDB ghac = Some r ∧
     ClientOptions r = None ∧ ClusterOptions r = None) ∨
  (∃ glab r,
     GitlabAuth c = Some glab ∧ glab_RedisTokenDB glab = Some r ∧
     glab_ClientOptions r = None ∧ glab_ClusterOptions r = None) →
  ∃ err, snd (validate c) = Some err.
Proof.
  intros [(ghac & r & Hgh & Hr & Hopt & Hcl)|(glab & r & Hgl & Hr & Hopt & Hcl)].
  - apply (chain_fails github_redis_partial
             [ check_addr; check_net; check_path_prefix; check_tls13; check_issuer;
               check_expiration; check_authn_configured; check_mongo_auth;
               check_xorm_auth; check_google_auth ]
             check_github_auth).
    + repeat apply Forall_cons_2; try apply Forall_nil_2;
        intros c' (g & Hg & Hp); exists g; split; try done.
      * by rewrite (proj1 (check_net_fst_other c')).
      * by rewrite (proj1 (check_google_auth_fst_other c')).
    + intros c' (g & Hg & Hp). unfold check_github_auth. rewrite Hg.
      destruct (validate_github_partial_redis g Hp) as [err Herr].
      exists err. by destruct (validate_github g).
    + exists ghac. split; [done|].
      unfold github_partial_redis. by rewrite Hr, Hopt, Hcl.
  - apply (chain_fails gitlab_redis_partial
             [ check_addr; check_net; check_path_prefix; check_tls13; check_issuer;
               check_expiration; check_authn_configured; check_mongo_auth;
               check_xorm_auth; check_google_auth; check_github_auth; check_oidc_auth ]
             check_gitlab_auth).
    + repeat apply Forall_cons_2; try apply Forall_nil_2;
        intros c' (g & Hg & Hp); exists g; split; try done.
      * by rewrite (proj2 (check_net_fst_other c')).
      * by rewrite (proj2 (check_google_auth_fst_other c')).
      * by rewrite check_github_auth_fst_gitlab.
      * by rewrite check_oidc_auth_fst_gitlab.
    + intros c' (g & Hg & Hp). unfold check_gitlab_auth. rewrite Hg.
      destruct (validate_gitlab_partial_redis g Hp) as [err Herr].
      exists err. by destruct (validate_gitlab g).
    + exists glab. split; [done|].
      unfold gitlab_partial_redis. by rewrite Hr, Hopt, Hcl.
Qed.

(** *** The authorizers *)

(** The test on the authorizers looks at five fields; [casbin_authz] is
    not one of them. *)
Lemma check_authz_configured_five (c : Config) :
  snd (check_authz_configured c)
  = if bool_decide (ACL c = None ∧ ACLXorm c = None ∧ ACLMongo c = None ∧
                    ExtAuthz c = None ∧ PluginAuthz c = None)
    then Some ACL_is_empty else None.
Proof.
  unfold check_authz_configured, require. cbn [snd].
  by rewrite !bool_decide_and, !andb_assoc.
Qed.

(** A configuration with none of those five is rejected, whether or not
    it has a [casbin_authz]. *)
Lemma validate_without_five_authorizers (c : Config) :
  ACL c = None → ACLXorm c = None → ACLMongo c = None → ExtAuthz c = None →
  PluginAuthz c = None →
  ∃ err, snd (validate c) = Some err.
Proof.
  intros HA HX HM HE HP.
  apply (chain_fails
           (fun c => ACL c = None ∧ ACLXorm c = None ∧ ACLMongo c = None ∧
                     ExtAuthz c = None ∧ PluginAuthz c = None)
           [ check_addr; check_net; check_path_prefix; check_tls13; check_issuer;
             check_expiration; check_authn_configured; check_mongo_auth; check_xorm_auth;
             check_google_auth; check_github_auth; check_oidc_auth; check_gitlab_auth;
             check_ext_auth ]
           check_authz_configured); [| |done].
  - assert (∀ c1 c2 : Config,
              untouched c1 c2 →
              ACL c1 = None ∧ ACLXorm c1 = None ∧ ACLMongo c1 = None ∧
              ExtAuthz c1 = None ∧ PluginAuthz c1 = None →
              ACL c2 = None ∧ ACLXorm c2 = None ∧ ACLMongo c2 = None ∧
              ExtAuthz c2 = None ∧ PluginAuthz c2 = None) as Hkeep.
    { unfold untouched. intros c1 c2 ? ?. destruct_and!. repeat split; congruence. }
    repeat apply Forall_cons_2; try apply Forall_nil_2; intros c' Hc';
      first
        [ exact Hc'
        | exact (Hkeep _ _ (check_net_untouched c') Hc')
        | exact (Hkeep _ _ (check_google_auth_untouched c') Hc')
        | exact (Hkeep _ _ (check_github_auth_untouched c') Hc')
        | exact (Hkeep _ _ (check_oidc_auth_untouched c') Hc')
        | exact (Hkeep _ _ (check_gitlab_auth_untouched c') Hc') ].
  - intros c' Hc'. rewrite check_authz_configured_five.
    rewrite bool_decide_eq_true_2 by done. by eexists.
Qed.

(** *** Key pairs *)

Lemma load_keypair_none partial format :
  load_keypair partial format "" "" = inr None.
Proof. reflexivity. Qed.

Lemma load_keypair_partial partial format certFile keyFile :
  (certFile = "" ∧ keyFile ≠ "") ∨ (certFile ≠ "" ∧ keyFile = "") →
  load_keypair partial format certFile keyFile = inl (fmt_Errorf partial []).
Proof.
  unfold load_keypair. intros [[-> Hk]|[Hc ->]].
  - by rewrite (bool_decide_eq_true_2 (keyFile ≠ "")), orb_true_r by done.
  - rewrite (bool_decide_eq_true_2 (certFile ≠ "")) by done.
    cbn [orb]. by rewrite orb_true_r.
Qed.

Lemma load_keypair_loaded partial format certFile keyFile pk prk :
  certFile ≠ "" → keyFile ≠ "" → loadCertAndKey certFile keyFile = (pk, prk, None) →
  load_keypair partial format certFile keyFile = inr (Some (pk, prk)).
Proof.
  unfold load_keypair. intros Hc Hk ->.
  rewrite (bool_decide_eq_true_2 (certFile ≠ "")) by done.
  cbn [orb].
  by rewrite (bool_decide_eq_false_2 (certFile = "")),
    (bool_decide_eq_false_2 (keyFile = "")) by done.
Qed.

(** C4.  For a configuration that [validate] accepts: with the server key
    pair given and loaded and no token certificate or key named,
    [LoadConfig] succeeds and the token keys are the server keys; with no
    certificate and no key named at all it fails; and with exactly one of
    the two files of a pair named it fails. *)
Theorem LoadConfig_keypairs `{!ConfigSource} (fileName envPrefix : string)
  (c c1 : Config) :
  readConfig fileName envPrefix = inr c →
  validate c = (c1, None) →
  (∀ pk prk,
     Server_CertFile (Server c) ≠ "" → Server_KeyFile (Server c) ≠ "" →
     loadCertAndKey (Server_CertFile (Server c)) (Server_KeyFile (Server c))
     = (pk, prk, None) →
     Token_CertFile (Token c) = "" → Token_KeyFile (Token c) = "" →
     ∃ c2,
       LoadConfig fileName envPrefix = (Some c2, None) ∧
       Server_publicKey (Server c2) = pk ∧ Server_privateKey (Server c2) = prk ∧
       Token_publicKey (Token c2) = pk ∧ Token_privateKey (Token c2) = prk) ∧
  (Server_CertFile (Server c) = "" → Server_KeyFile (Server c) = "" →
   Token_CertFile (Token c) = "" → Token_KeyFile (Token c) = "" →
   ∃ err, LoadConfig fileName envPrefix = (None, Some err)) ∧
  ((Server_CertFile (Server c) = "" ∧ Server_KeyFile (Server c) ≠ "") ∨
   (Server_CertFile (Server c) ≠ "" ∧ Server_KeyFile (Server c) = "") ∨
   (Token_CertFile (Token c) = "" ∧ Token_KeyFile (Token c) ≠ "") ∨
   (Token_CertFile (Token c) ≠ "" ∧ Token_KeyFile (Token c) = "") →
   ∃ err, LoadConfig fileName envPrefix = (None, Some err)).
Proof.
  intros Hread Hval.
  pose proof (validate_untouched c) as Hframe. rewrite Hval in Hframe.
  destruct Hframe as (HT & HC & HK & _). cbn [fst] in HT, HC, HK.
  unfold LoadConfig. rewrite Hread. unfold LoadConfig_validated.
  rewrite Hval. cbv beta iota. rewrite HC, HK. clear Hread Hval.
  split; [|split].
  - intros pk prk Hc Hk Hload Htc Htk.
    rewrite (load_keypair_loaded _ _ _ _ pk prk) by done.
    cbv beta iota. cbn [set_Server Token Server].
    rewrite HT, Htc, Htk, load_keypair_none.
    cbn. by eexists.
  - intros -> -> Htc Htk. rewrite load_keypair_none. cbv beta iota.
    rewrite HT, Htc, Htk, load_keypair_none.
    cbn. by eexists.
  - intros [Hs|[Hs|[Ht|Ht]]].
    + rewrite load_keypair_partial by by left. by eexists.
    + rewrite load_keypair_partial by by right. by eexists.
    + destruct (load_keypair _ _ (Server_CertFile _) _) as [err|[[pk prk]|]];
        [by eexists|..]; cbv beta iota; cbn [set_Server Token]; rewrite HT;
        rewrite load_keypair_partial by (by left); by eexists.
    + destruct (load_keypair _ _ (Server_CertFile _) _) as [err|[[pk prk]|]];
        [by eexists|..]; cbv beta iota; cbn [set_Server Token]; rewrite HT;
        rewrite load_keypair_partial by (by right); by eexists.
Qed.

End ConfigurationFacts.

Lemma validate_partial_redis_token_db_witness :
  cfg_GitHubAuth (demo_config "" "" (Some partial_redis_github) (Some []) None)
  = Some partial_redis_github ∧
  TokenDB partial_redis_github ≠ "" ∧
  ∃ err,
    snd (validate (demo_config "" "" (Some partial_redis_github) (Some []) None))
    = Some err.
Proof.
  split; [reflexivity|]. split; [discriminate|].
  apply (@validate_partial_redis_token_db demo_deps).
  left. exists partial_redis_github, (mkGitHubRedisStoreConfig None None).
  repeat split; reflexivity.
Defined.

(** On that configuration the error is the one about [redis_token_db],
    and without the [redis_token_db] the configuration is accepted. *)
Example validate_partial_redis_demo :
  snd (validate (demo_config "" "" (Some partial_redis_github) (Some []) None))
  = Some (errors_New
            "github_auth.{client_id,client_secret,redis_token_db.{redis_options,redis_cluster_options}} are required") ∧
  snd (validate (demo_config "" "" (Some (demo_config_github "" "acme")) (Some []) None))
  = None.
Proof. split; reflexivity. Qed.

Lemma LoadConfig_keypairs_witness :
  ∃ c2,
    @LoadConfig demo_deps demo_source "/config/auth_config.yml" "AUTH" = (Some c2, None) ∧
    Server_publicKey (Server c2) = Some "server-public-key" ∧
    Server_privateKey (Server c2) = Some "server-private-key" ∧
    Token_publicKey (Token c2) = Some "server-public-key" ∧
    Token_privateKey (Token c2) = Some "server-private-key".
Proof.
  refine (proj1 (@LoadConfig_keypairs demo_deps demo_source "/config/auth_config.yml" "AUTH"
                   (demo_config "/certs/server.pem" "/certs/server.key" None (Some []) None)
                   _ eq_refl _)
            (Some "server-public-key") (Some "server-private-key") _ _ eq_refl eq_refl eq_refl).
  - vm_compute. reflexivity.
  - discriminate.
  - discriminate.
Defined.

(** C1.  A configuration whose only authorizer is [casbin_authz] is
    rejected with the "ACL is empty" error: the test of [validate] names
    five of the six authorizers. *)
Theorem validate_casbin_only_ACL_is_empty :
  CasbinAuthz (demo_config "" "" None None (Some tt)) = Some tt ∧
  snd (validate (demo_config "" "" None None (Some tt))) = Some ACL_is_empty ∧
  snd (validate (demo_config "" "" None (Some []) None)) = None.
Proof. repeat split; reflexivity. Qed.

(** ** The GitHub authenticator *)

Section GitHubFacts.
Context `{Http} `{GitHubJson} {DB : Type} `{TokenDBOps DB}.



(** More fuel does not change what the paging loop returned. *)
Lemma fetchTeamPages_more_fuel (fuel fuel' : nat) (token url : string)
  (allTeams : GitHubTeamCollection) (r : error + GitHubTeamCollection) :
  (fuel ≤ fuel')%nat →
  fetchTeamPages fuel token url allTeams = Returned r →
  fetchTeamPages fuel' token url allTeams = Returned r.
Proof.
  revert fuel' url allTeams.
  induction fuel as [|fuel IH]; intros fuel' url allTeams Hle.
  - destruct fuel'; cbn [fetchTeamPages]; by case_decide.
  - destruct fuel' as [|fuel'']; [lia|].
    cbn [fetchTeamPages]. case_decide; [done|].
    destruct (execGHExperimentalApiRequest url token) as [err|resp]; [done|].
    destruct (Unmarshal_teams (Body resp)) as [err|pagedTeams]; [done|].
    destruct (Header resp !! "Link") as [link|].
    + destruct (parseLinkHeader link) as [parsed| |]; cbn [obind]; [|done..].
      apply IH. lia.
    + apply IH. lia.
Qed.



End GitHubFacts.


(** The teams of the two pages: [guests] belongs to another organization,
    [core] is listed twice and brings its parent [platform]. *)
Example fetchTeams_demo :
  @fetchTeams demo_http demo_json MemDB (demo_gha true) 2 "gho_alice"
  = Returned (Some ["web"; "core"; "platform"], None).
Proof. vm_compute. reflexivity. Qed.



(** A provider token that belongs to another user is refused. *)
Example GitHubAuth_Authenticate_wrong_user :
  snd (@GitHubAuth_Authenticate demo_http demo_json MemDB MemDB_ops mallory_gha 6000
         "alice" "dp-alice")
  = (false, None, Some (fmt_Errorf "found token for wrong user" [])).
Proof. vm_compute. reflexivity. Qed.


(** * Further properties *)

(** ** [removeSubstringsFromString] and [parseLinkHeader] *)

Section LinkHeaderMore.
Import GoStrings.

Lemma Replace_byte (c : ascii) (s : string) :
  Replace s (byte_string c) "" = keep_bytes (fun a => bool_decide (a ≠ c)) s.
Proof.
  unfold Replace, byte_string.
  induction s as [|a s IH]; [done|].
  cbn [Replace_go keep_bytes]. rewrite HasPrefix_byte.
  destruct (decide (a = c)) as [->|Hne].
  - rewrite bool_decide_eq_true_2, bool_decide_eq_false_2 by (done || by intros ?).
    rewrite app_empty_l. exact IH.
  - rewrite bool_decide_eq_false_2, bool_decide_eq_true_2 by (done || congruence).
    by rewrite IH.
Qed.

Lemma keep_bytes_keep_bytes (p q : ascii → bool) (s : string) :
  keep_bytes p (keep_bytes q s) = keep_bytes (fun a => q a && p a) s.
Proof.
  induction s as [|a s IH]; [done|].
  cbn [keep_bytes]. destruct (q a); cbn [andb keep_bytes]; [|done].
  destruct (p a); by rewrite IH.
Qed.

Lemma keep_bytes_ext (p q : ascii → bool) (s : string) :
  (∀ a, p a = q a) → keep_bytes p s = keep_bytes q s.
Proof.
  intros Hpq. induction s as [|a s IH]; [done|].
  cbn [keep_bytes]. by rewrite Hpq, IH.
Qed.

Lemma occurs_keep_bytes (p : ascii → bool) (c : ascii) (s : string) :
  occurs c (keep_bytes p s) = occurs c s && p c.
Proof.
  induction s as [|a s IH]; [done|].
  cbn [keep_bytes occurs]. destruct (p a) eqn:Hpa; cbn [occurs]; rewrite IH.
  - destruct (decide (a = c)) as [->|Hne].
    + rewrite bool_decide_eq_true_2 by done. cbn [orb andb]. by rewrite Hpa.
    + by rewrite bool_decide_eq_false_2.
  - destruct (decide (a = c)) as [->|Hne].
    + rewrite bool_decide_eq_true_2 by done. cbn [orb andb].
      by rewrite Hpa, andb_false_r.
    + by rewrite bool_decide_eq_false_2.
Qed.

Lemma removeSubstringsFromString_keep_bytes (sourceStr : string) (cs : list ascii) :
  removeSubstringsFromString sourceStr (byte_string <$> cs)
  = keep_bytes (fun a => bool_decide (a ∉ cs)) sourceStr.
Proof.
  unfold removeSubstringsFromString.
  revert sourceStr. induction cs as [|c cs IH]; intros s.
  - cbn [fmap list_fmap fold_left]. induction s as [|a s IHs]; [done|].
    cbn [keep_bytes]. rewrite bool_decide_eq_true_2 by apply not_elem_of_nil.
    by rewrite <- IHs.
  - cbn [fmap list_fmap fold_left]. rewrite Replace_byte.
    change (list_fmap ascii string byte_string cs) with (byte_string <$> cs).
    rewrite IH, keep_bytes_keep_bytes.
    apply keep_bytes_ext. intros a.
    destruct (decide (a = c)) as [->|Hne].
    + rewrite (bool_decide_eq_false_2 (c ≠ c)) by (by intros ?).
      rewrite (bool_decide_eq_false_2 (c ∉ c :: cs)); [done|].
      intros Hnot. apply Hnot. set_solver.
    + rewrite (bool_decide_eq_true_2 (a ≠ c)) by done. cbn [andb].
      apply bool_decide_ext. rewrite not_elem_of_cons. tauto.
Qed.

(** X1.  Stripping one-byte strings deletes exactly the listed bytes: the
    result is the source with every byte of the list left out and the other
    bytes in their order, so none of the listed bytes occurs in it. *)
Theorem removeSubstringsFromString_bytes (sourceStr : string) (cs : list ascii) :
  removeSubstringsFromString sourceStr (byte_string <$> cs)
  = keep_bytes (fun a => bool_decide (a ∉ cs)) sourceStr ∧
  ∀ c, c ∈ cs →
       occurs c (removeSubstringsFromString sourceStr (byte_string <$> cs)) = false.
Proof.
  split; [apply removeSubstringsFromString_keep_bytes|].
  intros c Hc. rewrite removeSubstringsFromString_keep_bytes, occurs_keep_bytes.
  rewrite (bool_decide_eq_false_2 (c ∉ cs)) by (by intros ?).
  apply andb_false_r.
Qed.

(** *** What the pieces of [Split] and the result of [TrimSpace] hold *)

Lemma Split_go_pieces (c a : ascii) (s cur : string) :
  occurs a cur = false → occurs a s = false ∨ a = c →
  Forall (fun piece => occurs a piece = false) (Split_go (byte_string c) 0 cur s).
Proof.
  unfold byte_string. revert cur. induction s as [|x s IH]; intros cur Hcur Hs.
  - by constructor.
  - cbn [Split_go]. rewrite HasPrefix_byte.
    destruct (decide (c = x)) as [<-|Hne].
    + rewrite bool_decide_eq_true_2 by done. constructor; [done|].
      apply IH; [done|]. destruct Hs as [Hs|Hs]; [|by right].
      left. cbn [occurs] in Hs. by apply orb_false_iff in Hs as [_ ?].
    + rewrite bool_decide_eq_false_2 by done. apply IH.
      * rewrite occurs_app, Hcur. cbn [occurs orb].
        rewrite orb_false_r. apply bool_decide_eq_false.
        destruct Hs as [Hs|Hs]; [|congruence].
        cbn [occurs] in Hs. apply orb_false_iff in Hs as [Hx _].
        by apply bool_decide_eq_false in Hx.
      * destruct Hs as [Hs|Hs]; [|by right].
        left. cbn [occurs] in Hs. by apply orb_false_iff in Hs as [_ ?].
Qed.

Lemma occurs_rev (a : ascii) (s : string) : occurs a (rev s) = occurs a s.
Proof.
  induction s as [|x s IH]; [done|].
  rewrite rev_cons, occurs_app, IH. cbn [occurs].
  rewrite orb_false_r. apply orb_comm.
Qed.

Lemma TrimLeftSpace_occurs (a : ascii) (s : string) :
  occurs a s = false → occurs a (TrimLeftSpace s) = false.
Proof.
  assert (∀ n s, (String.length s ≤ n)%nat →
                 occurs a s = false → occurs a (TrimLeftSpace s) = false) as Hn.
  { clear s. intros n. induction n as [|n IH]; intros s Hlen Hs.
    - destruct s; [done|cbn [String.length] in Hlen; lia].
    - destruct s as [|x s1]; [done|]. cbn [TrimLeftSpace].
      cbn [occurs] in Hs. apply orb_false_iff in Hs as [Hx Hs1].
      cbn [String.length] in Hlen.
      destruct (is_space1 x); [apply IH; [lia|done]|].
      destruct s1 as [|y s2]; [by cbn [occurs]; rewrite Hx|].
      cbn [occurs] in Hs1. apply orb_false_iff in Hs1 as [Hy Hs2].
      cbn [String.length] in Hlen.
      destruct (is_space2 x y); [apply IH; [lia|done]|].
      destruct s2 as [|z s3]; [by cbn [occurs]; rewrite Hx, Hy|].
      cbn [occurs] in Hs2. apply orb_false_iff in Hs2 as [Hz Hs3].
      cbn [String.length] in Hlen.
      destruct (is_space3 x y z); [apply IH; [lia|done]|].
      cbn [occurs]. by rewrite Hx, Hy, Hz, Hs3. }
  by apply (Hn (String.length s)).
Qed.

Lemma TrimLeftSpace_rev_occurs (a : ascii) (s : string) :
  occurs a s = false → occurs a (TrimLeftSpace_rev s) = false.
Proof.
  assert (∀ n s, (String.length s ≤ n)%nat →
                 occurs a s = false → occurs a (TrimLeftSpace_rev s) = false) as Hn.
  { clear s. intros n. induction n as [|n IH]; intros s Hlen Hs.
    - destruct s; [done|cbn [String.length] in Hlen; lia].
    - destruct s as [|x s1]; [done|]. cbn [TrimLeftSpace_rev].
      cbn [occurs] in Hs. apply orb_false_iff in Hs as [Hx Hs1].
      cbn [String.length] in Hlen.
      destruct (is_space1 x); [apply IH; [lia|done]|].
      destruct s1 as [|y s2]; [by cbn [occurs]; rewrite Hx|].
      cbn [occurs] in Hs1. apply orb_false_iff in Hs1 as [Hy Hs2].
      cbn [String.length] in Hlen.
      destruct (is_space2 y x); [apply IH; [lia|done]|].
      destruct s2 as [|z s3]; [by cbn [occurs]; rewrite Hx, Hy|].
      cbn [occurs] in Hs2. apply orb_false_iff in Hs2 as [Hz Hs3].
      cbn [String.length] in Hlen.
      destruct (is_space3 z y x); [apply IH; [lia|done]|].
      cbn [occurs]. by rewrite Hx, Hy, Hz, Hs3. }
  by apply (Hn (String.length s)).
Qed.

Lemma TrimSpace_occurs (a : ascii) (s : string) :
  occurs a s = false → occurs a (TrimSpace s) = false.
Proof.
  intros Hs. unfold TrimSpace, TrimRightSpace.
  rewrite occurs_rev. apply TrimLeftSpace_rev_occurs.
  rewrite occurs_rev. by apply TrimLeftSpace_occurs.
Qed.

(** *** The URLs of the header *)

Lemma trimmedUrl_clean (linkData0 : string) (a : ascii) :
  occurs ","%char linkData0 = false → occurs ";"%char linkData0 = false →
  a ∈ link_separators →
  occurs a (removeSubstringsFromString (TrimSpace linkData0) ["<"; ">"]) = false.
Proof.
  intros Hcomma Hsemi Ha.
  change ["<"; ">"] with (byte_string <$> ["<"%char; ">"%char]).
  rewrite removeSubstringsFromString_keep_bytes, occurs_keep_bytes.
  unfold link_separators in Ha.
  apply elem_of_cons in Ha as [->|Ha]; [by rewrite TrimSpace_occurs|].
  apply elem_of_cons in Ha as [->|Ha]; [by rewrite TrimSpace_occurs|].
  apply andb_false_iff. right. apply bool_decide_eq_false. intros Hnot.
  apply Hnot. set_solver.
Qed.

Lemma parseLinkItem_clean (lH lH' : linkHeader) (linkItem : string) :
  occurs ","%char linkItem = false → clean lH →
  parseLinkItem lH linkItem = Returned lH' → clean lH'.
Proof.
  intros Hcomma Hclean. unfold parseLinkItem, Split.
  pose proof (Split_go_pieces ";" "," linkItem "" eq_refl (or_introl Hcomma)) as Hc.
  pose proof (Split_go_pieces ";" ";" linkItem "" eq_refl (or_intror eq_refl)) as Hs.
  change (byte_string ";") with ";" in Hc, Hs.
  destruct (Split_go ";" 0 "" linkItem) as [|linkData0 rest]; [done|].
  apply Forall_cons in Hc as [Hc _]. apply Forall_cons in Hs as [Hs _].
  cbn [lookup list_lookup].
  destruct rest as [|linkVal rest]; [done|]. cbn [list_lookup].
  intros [= <-]. intros k a Ha.
  pose proof (trimmedUrl_clean linkData0 a Hc Hs Ha) as Hurl.
  specialize (Hclean k a Ha).
  repeat case_match; by destruct k.
Qed.

Lemma parseLinkItems_clean (linkItems : list string) (lH lH' : linkHeader) :
  Forall (fun linkItem => occurs ","%char linkItem = false) linkItems → clean lH →
  parseLinkItems lH linkItems = Returned lH' → clean lH'.
Proof.
  intros Hall. revert lH.
  induction Hall as [|linkItem rest Hitem _ IH]; intros lH Hclean.
  - by intros [= <-].
  - cbn [parseLinkItems].
    destruct (parseLinkItem lH linkItem) as [lH1| |] eqn:Hitem1; [|done..].
    cbn [obind]. apply IH. by eapply parseLinkItem_clean.
Qed.

Lemma parseLinkLines_clean (linkLines : list string) (lH lH' : linkHeader) :
  clean lH → parseLinkLines lH linkLines = Returned lH' → clean lH'.
Proof.
  revert lH. induction linkLines as [|linkLine rest IH]; intros lH Hclean.
  - by intros [= <-].
  - cbn [parseLinkLines].
    destruct (parseLinkItems lH (Split linkLine ",")) as [lH1| |] eqn:Hline; [|done..].
    cbn [obind]. apply IH. eapply parseLinkItems_clean; [|exact Hclean|exact Hline].
    apply (Split_go_pieces "," "," linkLine "" eq_refl (or_intror eq_refl)).
Qed.

(** X2.  Whatever the header lines are, the URLs that [parseLinkHeader]
    returns hold no comma, no semicolon and no angle bracket. *)
Theorem parseLinkHeader_fields_clean (linkLines : list string) (lH : linkHeader)
  (err : option error) :
  parseLinkHeader linkLines = Returned (lH, err) →
  err = None ∧
  ∀ k a, a ∈ link_separators → occurs a (field k lH) = false.
Proof.
  unfold parseLinkHeader.
  destruct (parseLinkLines (mklinkHeader "" "" "" "") linkLines) as [lH1| |] eqn:Hlines;
    [|done..].
  cbn [obind]. intros [= <- <-]. split; [done|].
  eapply parseLinkLines_clean; [|exact Hlines].
  intros k a _. by destruct k.
Qed.

Lemma parseLinkHeader_fields_clean_witness :
  parseLinkHeader [untidy_link]
  = Returned (mklinkHeader "" "" "https://api.github.com/teams?page=3" "", None) ∧
  ∀ k a,
    a ∈ link_separators →
    occurs a (field k (mklinkHeader "" "" "https://api.github.com/teams?page=3" "")) = false.
Proof.
  split; [reflexivity|].
  exact (proj2 (parseLinkHeader_fields_clean [untidy_link]
                  (mklinkHeader "" "" "https://api.github.com/teams?page=3" "") None
                  eq_refl)).
Defined.

(** *** Several header lines *)

Lemma Split_go_app (c : ascii) (s t cur : string) :
  Split_go (byte_string c) 0 cur (s +:+ String c t)
  = Split_go (byte_string c) 0 cur s ++ Split_go (byte_string c) 0 "" t.
Proof.
  unfold byte_string. revert cur. induction s as [|x s IH]; intros cur.
  - rewrite app_empty_l. cbn [Split_go].
    by rewrite HasPrefix_byte, bool_decide_eq_true_2.
  - rewrite app_cons. cbn [Split_go]. rewrite !HasPrefix_byte.
    case_bool_decide; [|apply IH].
    cbn [app]. f_equal. apply IH.
Qed.

Lemma parseLinkItems_app (xs ys : list string) (lH : linkHeader) :
  parseLinkItems lH (xs ++ ys)
  = obind (parseLinkItems lH xs) (fun lH' => parseLinkItems lH' ys).
Proof.
  revert lH. induction xs as [|x xs IH]; intros lH; [done|].
  cbn [app parseLinkItems].
  destruct (parseLinkItem lH x) as [lH1| |]; cbn [obind]; [apply IH|done..].
Qed.

Lemma parseLinkLines_items (linkLines : list string) (lH : linkHeader) :
  parseLinkLines lH linkLines
  = parseLinkItems lH (concat ((fun linkLine => Split linkLine ",") <$> linkLines)).
Proof.
  revert lH. induction linkLines as [|linkLine rest IH]; intros lH; [done|].
  cbn [parseLinkLines fmap list_fmap concat]. rewrite parseLinkItems_app.
  destruct (parseLinkItems lH (Split linkLine ",")) as [lH1| |]; cbn [obind];
    [apply IH|done..].
Qed.

Lemma Split_join_lines (linkLine : string) (linkLines : list string) :
  Split (join_items (linkLine :: linkLines)) ","
  = concat ((fun linkLine => Split linkLine ",") <$> (linkLine :: linkLines)).
Proof.
  revert linkLine. induction linkLines as [|l rest IH]; intros linkLine.
  - cbn [join_items fmap list_fmap concat]. by rewrite app_nil_r.
  - change (join_items (linkLine :: l :: rest))
      with (linkLine +:+ String ","%char (join_items (l :: rest))).
    unfold Split at 1. rewrite (Split_go_app "," linkLine).
    cbn [fmap list_fmap concat]. f_equal. apply IH.
Qed.

(** X3.  Header lines are read as one line: parsing one or more lines
    gives what parsing the single line made of them, joined by commas,
    gives (the same header, or the same panic). *)
Theorem parseLinkHeader_lines_joined (linkLine : string) (linkLines : list string) :
  parseLinkHeader (linkLine :: linkLines)
  = parseLinkHeader [join_items (linkLine :: linkLines)].
Proof.
  unfold parseLinkHeader. rewrite !parseLinkLines_items. f_equal.
  change (concat ((fun l => Split l ",") <$> [join_items (linkLine :: linkLines)]))
    with (Split (join_items (linkLine :: linkLines)) "," ++ []).
  by rewrite Split_join_lines, app_nil_r.
Qed.

End LinkHeaderMore.

(** ** The GitHub authenticator, continued *)

Section GitHubMore.
Context `{Http} `{GitHubJson} {DB : Type} `{TokenDBOps DB}.

(** X4.  Nothing bounds the paging loop: when the first page of the team
    listing names its own URL as the next page, [fetchTeams] does not
    return, however many requests it is allowed. *)
Theorem fetchTeams_self_link (gha : GitHubAuth DB) (token : string) (resp : Response)
  (pagedTeams : GitHubTeamCollection) (link : list string) (lH : linkHeader)
  (err : option error) :
  gh_Organization (config gha) ≠ "" →
  execGHExperimentalApiRequest (getGithubApiUri gha +:+ "/user/teams?per_page=100") token
  = inr resp →
  Unmarshal_teams (Body resp) = inr pagedTeams →
  Header resp !! "Link" = Some link →
  parseLinkHeader link = Returned (lH, err) →
  Next lH = getGithubApiUri gha +:+ "/user/teams?per_page=100" →
  ∀ fuel, fetchTeams gha fuel token = OutOfFuel.
Proof.
  intros Horg Hresp Hteams Hlink Hparsed Hnext fuel.
  unfold fetchTeams. rewrite decide_False by done.
  assert (getGithubApiUri gha +:+ "/user/teams?per_page=100" ≠ "") as Hurl.
  { unfold getGithubApiUri. case_decide; [|done].
    destruct (GithubApiUri (config gha)); done. }
  assert (∀ allTeams,
            fetchTeamPages fuel token
              (getGithubApiUri gha +:+ "/user/teams?per_page=100") allTeams
            = OutOfFuel) as ->; [|done].
  induction fuel as [|fuel IH]; intros allTeams; cbn [fetchTeamPages];
    rewrite decide_False by done; [done|].
  rewrite Hresp, Hteams, Hlink, Hparsed. cbn [obind fst]. rewrite Hnext. apply IH.
Qed.

(** X5.  A Link header with an item that has no [";"] makes [fetchTeams]
    panic as soon as it has read the page that carries it. *)
Theorem fetchTeams_bad_link_panics (gha : GitHubAuth DB) (token : string) (resp : Response)
  (pagedTeams : GitHubTeamCollection) (link : list string) (fuel : nat) :
  gh_Organization (config gha) ≠ "" →
  execGHExperimentalApiRequest (getGithubApiUri gha +:+ "/user/teams?per_page=100") token
  = inr resp →
  Unmarshal_teams (Body resp) = inr pagedTeams →
  Header resp !! "Link" = Some link →
  ¬ every_item_has_semicolon link →
  fetchTeams gha (S fuel) token = Panicked.
Proof.
  intros Horg Hresp Hteams Hlink Hbad.
  unfold fetchTeams. rewrite decide_False by done.
  cbn [fetchTeamPages]. rewrite decide_False.
  - rewrite Hresp, Hteams, Hlink. unfold parseLinkHeader.
    by rewrite parseLinkLines_panics.
  - unfold getGithubApiUri. case_decide; [|done].
    destruct (GithubApiUri (config gha)); done.
Qed.

(** X6.  What [fetchTeams] returns is nil and no error when no
    organization is configured, and otherwise either a list and no error or
    nil and an error: an error on any page drops the teams of the pages
    before it. *)
Theorem fetchTeams_result_shape (gha : GitHubAuth DB) (fuel : nat) (token : string)
  (teams : option (list string)) (err : option error) :
  fetchTeams gha fuel token = Returned (teams, err) →
  (gh_Organization (config gha) = "" ∧ teams = None ∧ err = None) ∨
  (gh_Organization (config gha) ≠ "" ∧
   ((teams ≠ None ∧ err = None) ∨ (teams = None ∧ err ≠ None))).
Proof.
  unfold fetchTeams. case_decide as Horg.
  - intros [= <- <-]. by left.
  - intros Hret. right. split; [done|]. revert Hret.
    destruct (fetchTeamPages _ _ _ _) as [[e|allTeams]| |]; cbn [obind];
      [|idtac|done..].
    + intros [= <- <-]. by right.
    + destruct (collectOrganizationTeams _ _ _) as [m| |]; cbn [obind]; [|done..].
      intros [= <- <-]. by left.
Qed.

(** X7.  With an organization configured, [checkOrganization] accepts the
    user exactly when the membership request goes through and is answered
    with status 204; every other status, a redirect and a plain 200
    included, is an error.  With no organization configured it accepts
    without a request. *)
Theorem checkOrganization_accepts_iff (gha : GitHubAuth DB) (token user : string) :
  checkOrganization gha token user = None ↔
  gh_Organization (config gha) = "" ∨
  ∃ req resp,
    http_NewRequest "GET"
      (getGithubApiUri gha +:+ "/orgs/" +:+ gh_Organization (config gha) +:+ "/members/"
         +:+ user)
    = inr req ∧
    client_Do (Header_Add req "Authorization" ("token " +:+ token)) = inr resp ∧
    StatusCode resp = 204.
Proof.
  unfold checkOrganization. case_decide as Horg; [by split; [left|]|].
  destruct (http_NewRequest _ _) as [e|req].
  { split; [done|]. by intros [?|(? & ? & ? & _)]. }
  destruct (client_Do _) as [e|resp] eqn:Hdo.
  { split; [done|]. intros [?|(req' & resp' & [= <-] & Hdo' & _)]; [done|].
    by rewrite Hdo in Hdo'. }
  split.
  - intros Hnone. right. exists req, resp. repeat split; [done|].
    by repeat case_decide.
  - intros [?|(req' & resp' & [= <-] & Hdo' & H204)]; [done|].
    rewrite Hdo in Hdo'. injection Hdo' as <-. by rewrite decide_True.
Qed.

(** X8.  [Authenticate] returns true only with a nil error, and false
    only with nil labels and an error that is not nil. *)
Theorem GitHubAuth_Authenticate_result_shape (gha : GitHubAuth DB) (now : Z)
  (user : string) (password : PasswordString) :
  ∃ ok labels err,
    snd (GitHubAuth_Authenticate gha now user password) = (ok, labels, err) ∧
    ((ok = true ∧ err = None) ∨ (ok = false ∧ labels = None ∧ err ≠ None)).
Proof.
  unfold GitHubAuth_Authenticate.
  assert (∀ g : GitHubAuth DB,
            ∃ ok labels err,
              snd (match GetValue (db g) user with
                   | inl err => (g, (false, None, Some err))
                   | inr None =>
                       (g, (false, None,
                            Some (errors_New "no db value, please sign out and sign in again")))
                   | inr (Some v) => (g, (true, tv_Labels v, None))
                   end) = (ok, labels, err) ∧
              ((ok = true ∧ err = None) ∨ (ok = false ∧ labels = None ∧ err ≠ None)))
    as Hcontinue.
  { intros g. destruct (GetValue (db g) user) as [e|[v|]]; cbn [snd];
      do 3 eexists; (split; [done|]); (by left) || (by right). }
  destruct (ValidateToken (db gha) user password) as [e|]; [|apply Hcontinue].
  destruct e;
    try (cbn [snd]; do 3 eexists; (split; [done|]); by right).
  destruct (validateServerToken gha now user) as [gha' [v [e|]]];
    [|apply Hcontinue].
  cbn [snd]. do 3 eexists. split; [done|]. by right.
Qed.

(** X9.  [Authenticate] keeps the configuration and writes to the token
    database at most once: either the database is as it was, or the entry
    had expired, the provider confirmed the stored access token for this
    user, and the database is what [StoreToken(user, v, false)] made of it,
    [v] being the stored value with [ValidUntil = now + RevalidateAfter]. *)
Theorem GitHubAuth_Authenticate_writes (gha : GitHubAuth DB) (now : Z) (user : string)
  (password : PasswordString) :
  config (fst (GitHubAuth_Authenticate gha now user password)) = config gha ∧
  (db (fst (GitHubAuth_Authenticate gha now user password)) = db gha ∨
   ValidateToken (db gha) user password = Some ExpiredToken ∧
   ∃ v,
     GetValue (db gha) user = inr (Some v) ∧
     validateAccessToken gha (AccessToken v) = (user, None) ∧
     db (fst (GitHubAuth_Authenticate gha now user password))
     = fst (StoreToken (db gha) user
              (set_ValidUntil v (now + RevalidateAfter (config gha))) false)).
Proof.
  unfold GitHubAuth_Authenticate.
  assert (∀ g : GitHubAuth DB,
            fst (match GetValue (db g) user with
                 | inl err => (g, (false, None, Some err))
                 | inr None =>
                     (g, (false, None,
                          Some (errors_New "no db value, please sign out and sign in again")))
                 | inr (Some v) => (g, (true, tv_Labels v, None))
                 end) = g) as Hcontinue.
  { intros g. by destruct (GetValue (db g) user) as [e|[v|]]. }
  destruct (ValidateToken (db gha) user password) as [e|] eqn:Hvalid;
    [|rewrite Hcontinue; by split; [|left]].
  destruct e; try (by split; [|left]).
  unfold validateServerToken.
  destruct (GetValue (db gha) user) as [e|[v|]] eqn:Hvalue; try (by split; [|left]).
  destruct (validateAccessToken gha (AccessToken v)) as [tokenUser [e|]] eqn:Htoken;
    [by split; [|left]|].
  case_decide as Huser; [by split; [|left]|].
  assert (tokenUser = user) as -> by (by destruct (decide (tokenUser = user))).
  destruct (StoreToken (db gha) user _ false) as [db' [dp [e|]]] eqn:Hstore.
  - cbn [fst config db]. split; [done|]. right. split; [done|].
    exists v. by rewrite Hstore.
  - rewrite Hcontinue. cbn [fst config db]. split; [done|]. right. split; [done|].
    exists v. by rewrite Hstore.
Qed.

End GitHubMore.

(** X10.  Unless the entry has expired, [Authenticate] does not contact
    the provider and does not read the clock: its result is the same
    whatever the network and the JSON decoder do and whatever the time
    is. *)
Theorem GitHubAuth_Authenticate_offline (http1 http2 : Http) (json1 json2 : GitHubJson)
  {DB : Type} `{TokenDBOps DB} (gha : GitHubAuth DB) (now1 now2 : Z) (user : string)
  (password : PasswordString) :
  ValidateToken (db gha) user password ≠ Some ExpiredToken →
  @GitHubAuth_Authenticate http1 json1 DB _ gha now1 user password
  = @GitHubAuth_Authenticate http2 json2 DB _ gha now2 user password.
Proof.
  intros Hvalid. unfold GitHubAuth_Authenticate.
  destruct (ValidateToken (db gha) user password) as [e|]; [|done].
  by destruct e.
Qed.

Lemma GitHubAuth_Authenticate_offline_witness :
  @GitHubAuth_Authenticate demo_http demo_json MemDB MemDB_ops fresh_gha 600
    "alice" "dp-alice"
  = @GitHubAuth_Authenticate offline_http demo_json MemDB MemDB_ops fresh_gha 700
      "alice" "dp-alice".
Proof.
  refine (@GitHubAuth_Authenticate_offline demo_http offline_http demo_json demo_json
            MemDB MemDB_ops fresh_gha 600 700 "alice" "dp-alice" _).
  vm_compute. discriminate.
Defined.

Lemma fetchTeams_self_link_witness :
  @fetchTeams looping_http demo_json MemDB (demo_gha true) 1000 "gho_alice" = OutOfFuel.
Proof.
  refine (@fetchTeams_self_link looping_http demo_json MemDB (demo_gha true) "gho_alice"
            _ demo_page1 _ _ None _ eq_refl eq_refl eq_refl _ _ 1000%nat).
  - discriminate.
  - vm_compute. reflexivity.
  - vm_compute. reflexivity.
Defined.

Lemma fetchTeams_bad_link_panics_witness :
  @fetchTeams careless_http demo_json MemDB (demo_gha true) 1 "gho_alice" = Panicked.
Proof.
  refine (@fetchTeams_bad_link_panics careless_http demo_json MemDB (demo_gha true)
            "gho_alice" _ demo_page1 ["page=2"] 0 _ eq_refl eq_refl eq_refl _).
  - discriminate.
  - intros Hall. apply Forall_cons in Hall as [Hline _].
    apply Forall_cons in Hline as [Hitem _]. vm_compute in Hitem. discriminate.
Defined.

Lemma fetchTeams_result_shape_witness :
  @fetchTeams demo_http demo_json MemDB (demo_gha true) 2 "gho_alice"
  = Returned (Some ["web"; "core"; "platform"], None) ∧
  ((gh_Organization (config (demo_gha true)) = "" ∧
    Some ["web"; "core"; "platform"] = None ∧ @None error = None) ∨
   (gh_Organization (config (demo_gha true)) ≠ "" ∧
    ((Some ["web"; "core"; "platform"] ≠ None ∧ @None error = None) ∨
     (Some ["web"; "core"; "platform"] = None ∧ @None error ≠ None)))).
Proof.
  assert (@fetchTeams demo_http demo_json MemDB (demo_gha true) 2 "gho_alice"
          = Returned (Some ["web"; "core"; "platform"], None)) as Hrun.
  { vm_compute. reflexivity. }
  split; [exact Hrun|].
  exact (@fetchTeams_result_shape demo_http demo_json MemDB (demo_gha true) 2 "gho_alice"
           (Some ["web"; "core"; "platform"]) None Hrun).
Defined.

(** ** Static users, continued *)

Section StaticUsersMore.
Context `{Bcrypt}.

(** X11.  The static authenticator succeeds exactly for a user that has
    an entry and either no password hash or a hash that bcrypt accepts, and
    then returns the labels of the entry; its only error is [NoMatch], given
    exactly when the user has no entry.  A wrong password is
    [(false, nil, nil)], not an error. *)
Theorem staticUsersAuth_Authenticate_iff (sua : staticUsersAuth) (user : string)
  (password : PasswordString) (ok : bool) (labels : Labels) (err : option error) :
  staticUsersAuth_Authenticate sua user password = (ok, labels, err) →
  (ok = true ↔
   ∃ reqs,
     users_lookup sua user = Some reqs ∧
     (Password reqs = None ∨
      ∃ hash, Password reqs = Some hash ∧ CompareHashAndPassword hash password = None)) ∧
  (ok = true → ∃ reqs, users_lookup sua user = Some reqs ∧ labels = req_Labels reqs) ∧
  (ok = false → labels = None) ∧
  (err = Some NoMatch ↔ users_lookup sua user = None) ∧
  (err = None ∨ err = Some NoMatch).
Proof.
  unfold staticUsersAuth_Authenticate.
  destruct (users_lookup sua user) as [reqs|].
  - destruct (Password reqs) as [hash|] eqn:Hhash.
    + destruct (CompareHashAndPassword hash password) as [e|] eqn:Hcmp;
        intros [= <- <- <-].
      * repeat split; try done; try (by left).
        intros (reqs' & [= <-] & [Hnone|(hash' & Hsome & Hok)]); [congruence|].
        rewrite Hhash in Hsome. injection Hsome as <-. congruence.
      * repeat split; try done; try (by left); intros _; exists reqs; eauto.
    + intros [= <- <- <-].
      repeat split; try done; try (by left); intros _; exists reqs; eauto.
  - intros [= <- <- <-].
    repeat split; try done; try (by right). by intros (? & ? & _).
Qed.

End StaticUsersMore.

Lemma staticUsersAuth_Authenticate_iff_witness :
  @staticUsersAuth_Authenticate demo_bcrypt (NewStaticUserAuth (Some demo_users))
    "admin" "guess" = (false, None, None) ∧
  (None = Some NoMatch ↔
   users_lookup (NewStaticUserAuth (Some demo_users)) "admin" = None).
Proof.
  split; [reflexivity|].
  exact (proj1 (proj2 (proj2 (proj2
           (@staticUsersAuth_Authenticate_iff demo_bcrypt
              (NewStaticUserAuth (Some demo_users)) "admin" "guess" false None None
              eq_refl))))).
Defined.

(** ** [validate], continued *)

Section ConfigurationMore.
Context `{ConfigDeps}.

Lemma chain_split (pre : list check) (f : check) (post : list check) (c c' : Config) :
  chain (pre ++ f :: post) c = (c', None) →
  ∃ c0 c1, chain pre c = (c0, None) ∧ f c0 = (c1, None) ∧ chain post c1 = (c', None).
Proof.
  revert c. induction pre as [|g pre IH]; intros c.
  - cbn [app]. rewrite chain_cons. intros Hrun. exists c.
    destruct (f c) as [c1 [e|]]; [done|]. by exists c1.
  - cbn [app]. rewrite !chain_cons.
    destruct (g c) as [c1 [e|]]; [done|]. apply IH.
Qed.

Lemma defaults_only_refl (c : Config) : defaults_only c c.
Proof. unfold defaults_only, same_server_but_net. repeat split; tauto. Qed.

Lemma defaults_only_trans (c1 c2 c3 : Config) :
  defaults_only c1 c2 → defaults_only c2 c3 → defaults_only c1 c3.
Proof.
  unfold defaults_only, same_server_but_net. intros H12 H23. destruct_and!.
  repeat split; try congruence; try tauto.
  repeat match goal with H : _ ∨ _ |- _ => destruct H as [?|[? ?]] end;
    (left; congruence) || (right; split; congruence).
Qed.

Lemma check_net_defaults_only c : defaults_only c (fst (check_net c)).
Proof.
  unfold check_net. repeat case_decide; try apply defaults_only_refl.
  unfold defaults_only, same_server_but_net. cbn. repeat split; tauto.
Qed.

Lemma check_google_auth_defaults_only c : defaults_only c (fst (check_google_auth c)).
Proof.
  unfold check_google_auth.
  destruct (GoogleAuth c) eqn:Hsome; [|apply defaults_only_refl].
  destruct (validate_google _).
  unfold defaults_only, same_server_but_net. cbn. rewrite Hsome.
  repeat split; try tauto; try done.
Qed.

Lemma check_github_auth_defaults_only c : defaults_only c (fst (check_github_auth c)).
Proof.
  unfold check_github_auth.
  destruct (cfg_GitHubAuth c) eqn:Hsome; [|apply defaults_only_refl].
  destruct (validate_github _).
  unfold defaults_only, same_server_but_net. cbn. rewrite Hsome.
  repeat split; try tauto; try done.
Qed.

Lemma check_oidc_auth_defaults_only c : defaults_only c (fst (check_oidc_auth c)).
Proof.
  unfold check_oidc_auth.
  destruct (OIDCAuth c) eqn:Hsome; [|apply defaults_only_refl].
  destruct (validate_oidc _).
  unfold defaults_only, same_server_but_net. cbn. rewrite Hsome.
  repeat split; try tauto; try done.
Qed.

Lemma check_gitlab_auth_defaults_only c : defaults_only c (fst (check_gitlab_auth c)).
Proof.
  unfold check_gitlab_auth.
  destruct (GitlabAuth c) eqn:Hsome; [|apply defaults_only_refl].
  destruct (validate_gitlab _).
  unfold defaults_only, same_server_but_net. cbn. rewrite Hsome.
  repeat split; try tauto; try done.
Qed.

(** The blocks of [validate], each with the frame it keeps. *)
Lemma validate_blocks_defaults_only :
  Forall (fun f : check => ∀ c, defaults_only c (fst (f c)))
    [ check_addr; check_net; check_path_prefix; check_tls13; check_issuer;
      check_expiration; check_authn_configured; check_mongo_auth; check_xorm_auth;
      check_google_auth; check_github_auth; check_oidc_auth; check_gitlab_auth;
      check_ext_auth; check_authz_configured; check_acl; check_acl_mongo;
      check_acl_xorm; check_ext_authz; check_plugin_authn; check_plugin_authz ].
Proof.
  repeat apply Forall_cons_2; try apply Forall_nil_2;
    first
      [ exact check_net_defaults_only | exact check_google_auth_defaults_only
      | exact check_github_auth_defaults_only | exact check_oidc_auth_defaults_only
      | exact check_gitlab_auth_defaults_only
      | intros c'; exact (defaults_only_refl c') ].
Qed.


(** *** What an accepted configuration satisfies *)

(** A block of an accepted run passed, on a configuration [c0] reached from
    [c] by the blocks before it, and what it left is related to the final
    configuration by every relation the blocks after it respect. *)
Lemma chain_block (R : Config → Config → Prop) (pre : list check) (f : check)
  (post : list check) (c c' : Config) :
  (∀ c, R c c) → (∀ c1 c2 c3, R c1 c2 → R c2 c3 → R c1 c3) →
  Forall (fun g : check => ∀ c, R c (fst (g c))) post →
  chain (pre ++ f :: post) c = (c', None) →
  ∃ c0 c1, f c0 = (c1, None) ∧ R c1 c'.
Proof.
  intros Hrefl Htrans Hpost (c0 & c1 & _ & Hf & Hrest)%chain_split.
  exists c0, c1. split; [done|].
  pose proof (chain_frame R post Hrefl Htrans Hpost c1) as Hframe.
  by rewrite Hrest in Hframe.
Qed.

Lemma validate_block (n : nat) (f : check) (c c' : Config) :
  validate_blocks !! n = Some f →
  validate c = (c', None) →
  ∃ c0 c1, f c0 = (c1, None) ∧ defaults_only c1 c'.
Proof.
  intros Hn Hval.
  apply (chain_block defaults_only (take n validate_blocks) f
           (drop (S n) validate_blocks) c c');
    [apply defaults_only_refl|apply defaults_only_trans| |].
  - apply Forall_drop, validate_blocks_defaults_only.
  - by rewrite take_drop_middle.
Qed.

Lemma require_ok (test : Config → option error) (c c1 : Config) :
  require test c = (c1, None) → c1 = c ∧ test c = None.
Proof. unfold require. by intros [= <- ->]. Qed.

(** X13.  An accepted configuration has a listen address, a [net] that is
    "unix" or "tcp", a path prefix that is empty or starts with a slash, no
    cipher suites with TLS 1.3 as the minimum version, an issuer, a
    positive expiration, an authenticator, and one of the five authorizers
    [acl], [acl_xorm], [acl_mongo], [ext_authz], [plugin_authz]. *)
Theorem validate_accepted (c c' : Config) :
  validate c = (c', None) →
  server_and_token_ok c' ∧ some_authn c' ∧ some_authz_of_five c'.
Proof.
  intros Hval. unfold server_and_token_ok.
  destruct (validate_block 0 check_addr c c' eq_refl Hval)
    as (a0 & a1 & [-> Haddr]%require_ok & Fa).
  destruct (validate_block 1 check_net c c' eq_refl Hval) as (n0 & n1 & Hnet & Fn).
  destruct (validate_block 2 check_path_prefix c c' eq_refl Hval)
    as (p0 & p1 & [-> Hprefix]%require_ok & Fp).
  destruct (validate_block 3 check_tls13 c c' eq_refl Hval)
    as (t0 & t1 & [-> Htls]%require_ok & Ft).
  destruct (validate_block 4 check_issuer c c' eq_refl Hval)
    as (i0 & i1 & [-> Hissuer]%require_ok & Fi).
  destruct (validate_block 5 check_expiration c c' eq_refl Hval)
    as (e0 & e1 & [-> Hexp]%require_ok & Fe).
  destruct (validate_block 6 check_authn_configured c c' eq_refl Hval)
    as (u0 & u1 & [-> Hauthn]%require_ok & Fu).
  destruct (validate_block 14 check_authz_configured c c' eq_refl Hval)
    as (z0 & z1 & [-> Hauthz]%require_ok & Fz).
  unfold defaults_only, same_server_but_net in Fa, Fn, Fp, Ft, Fi, Fe, Fu, Fz.
  cbv beta in Haddr, Hprefix, Htls, Hissuer, Hexp, Hauthn, Hauthz.
  repeat split.
  - destruct Fa as ((-> & _) & _). intros Heq. by rewrite decide_True in Haddr.
  - destruct Fn as (_ & Hn & _). unfold check_net in Hnet.
    destruct (decide (Net (Server n0) ≠ "unix" ∧ Net (Server n0) ≠ "tcp"))
      as [Hother|Hknown].
    + destruct (decide (Net (Server n0) = "")); [|done].
      injection Hnet as <-. cbn in Hn. destruct Hn as [->|[? _]]; [by right|done].
    + injection Hnet as <-.
      assert (Net (Server n0) = "unix" ∨ Net (Server n0) = "tcp") as Hnet.
      { destruct (decide (Net (Server n0) = "unix")); [by left|].
        destruct (decide (Net (Server n0) = "tcp")); [by right|]. by destruct Hknown. }
      destruct Hn as [->|[Hempty _]]; [done|].
      rewrite Hempty in Hnet. by destruct Hnet.
  - destruct Fp as ((_ & -> & _) & _).
    destruct (decide (PathPrefix (Server p0) = "")) as [|Hne]; [by left|right].
    rewrite bool_decide_eq_true_2 in Hprefix by done. cbn [andb] in Hprefix.
    by destruct (GoStrings.HasPrefix (PathPrefix (Server p0)) "/").
  - destruct Ft as ((_ & _ & _ & _ & _ & _ & _ & -> & _ & -> & _) & _).
    intros Hmin. destruct (TLSCipherSuites (Server t0)) as [suites|]; [|done].
    rewrite (bool_decide_eq_true_2 (Some suites ≠ None)) in Htls by done.
    destruct Hmin as [Hmin|Hmin]; rewrite Hmin in Htls; done.
  - destruct Fi as (_ & _ & -> & _). intros Heq. by rewrite decide_True in Hissuer.
  - destruct Fe as (_ & _ & -> & _).
    destruct (decide (Expiration (Token e0) <= 0)); [done|lia].
  - unfold some_authn. destruct Fu as (_ & _ & _ & -> & -> & -> & -> & -> & -> & Fu).
    destruct Fu as (_ & _ & _ & _ & _ & _ & Hg & Hgh & Ho & Hgl).
    unfold not. rewrite Hg, Hgh, Ho, Hgl.
    clear -Hauthn.
    destruct (Users u0); [by left|]. destruct (ExtAuth u0); [by right; left|].
    destruct (GoogleAuth u0); [by do 2 right; left|].
    destruct (cfg_GitHubAuth u0); [by do 3 right; left|].
    destruct (GitlabAuth u0); [by do 4 right; left|].
    destruct (OIDCAuth u0); [by do 5 right; left|].
    destruct (LDAPAuth u0); [by do 6 right; left|].
    destruct (MongoAuth u0); [by do 7 right; left|].
    destruct (XormAuthn u0); [by do 8 right; left|].
    destruct (PluginAuthn u0); [by do 9 right|]. done.
  - unfold some_authz_of_five.
    destruct Fz as (_ & _ & _ & _ & _ & _ & _ & _ & _ & -> & -> & -> & -> & -> & _).
    clear -Hauthz.
    destruct (ACL z0); [by left|]. destruct (ACLXorm z0); [by right; left|].
    destruct (ACLMongo z0); [by do 2 right; left|].
    destruct (ExtAuthz z0); [by do 3 right; left|].
    destruct (PluginAuthz z0); [by do 4 right|]. done.
Qed.

(** *** The OAuth sections of an accepted configuration *)

Lemma orb_false_elim3 (a b c : bool) : a || b || c = false → a = false ∧ b = false ∧ c = false.
Proof. destruct a, b, c; naive_solver. Qed.

Lemma validate_github_accepts (ghac ghac' : GitHubAuthConfig) :
  validate_github ghac = (ghac', None) → github_ok ghac'.
Proof.
  unfold validate_github.
  destruct (read_secret (ClientSecretFile ghac)) as [e|secret]; [done|].
  set (g := from_option (set_ClientSecret ghac) ghac secret). clearbody g.
  destruct (bool_decide (ClientId g = "") || bool_decide (ClientSecret g = "")) eqn:Hclient;
    [done|].
  apply orb_false_iff in Hclient as [Hid%bool_decide_eq_false Hsecret%bool_decide_eq_false].
  cbn [orb].
  destruct (github_no_token_db g) eqn:Hdb; [done|].
  destruct (github_partial_gcs g) eqn:Hgcs; [done|].
  destruct (github_partial_redis g) eqn:Hredis; [done|].
  intros [= <-].
  assert (∀ g1 : GitHubAuthConfig,
            ClientId g1 = ClientId g → ClientSecret g1 = ClientSecret g →
            TokenDB g1 = TokenDB g → GCSTokenDB g1 = GCSTokenDB g →
            RedisTokenDB g1 = RedisTokenDB g → 0 < HTTPTimeout g1 →
            RevalidateAfter g1 ≠ 0 → github_ok g1) as Hok.
  { intros g1 E1 E2 E3 E4 E5 Htimeout Hreval. unfold github_ok.
    rewrite E1, E2, E3, E4, E5. split_and!; try done.
    - unfold github_no_token_db in Hdb.
      destruct (decide (TokenDB g = "")) as [Hpath|]; [|by left]. right.
      rewrite (bool_decide_eq_true_2 _ Hpath) in Hdb. cbn [andb] in Hdb.
      destruct (GCSTokenDB g); [by left|]. destruct (RedisTokenDB g); [by right|done].
    - intros gcs Hsome. unfold github_partial_gcs in Hgcs. rewrite Hsome in Hgcs.
      by apply orb_false_iff in Hgcs as [?%bool_decide_eq_false ?%bool_decide_eq_false].
    - intros r Hsome. unfold github_partial_redis in Hredis. rewrite Hsome in Hredis.
      destruct (ClientOptions r); [by left|]. destruct (ClusterOptions r); [by right|done]. }
  apply Hok; repeat case_decide; cbn; try done; unfold time_Hour, time_Second; lia.
Qed.

Lemma validate_gitlab_accepts (glab glab' : GitlabAuthConfig) :
  validate_gitlab glab = (glab', None) → gitlab_ok glab'.
Proof.
  unfold validate_gitlab.
  destruct (read_secret (glab_ClientSecretFile glab)) as [e|secret]; [done|].
  set (g := from_option (set_glab_ClientSecret glab) glab secret). clearbody g.
  destruct (bool_decide (glab_ClientId g = "") || bool_decide (glab_ClientSecret g = ""))
    eqn:Hclient; [done|].
  apply orb_false_iff in Hclient as [Hid%bool_decide_eq_false Hsecret%bool_decide_eq_false].
  cbn [orb].
  destruct (gitlab_no_token_db g) eqn:Hdb; [done|].
  destruct (gitlab_partial_gcs g) eqn:Hgcs; [done|].
  destruct (gitlab_partial_redis g) eqn:Hredis; [done|].
  intros [= <-].
  assert (∀ g1 : GitlabAuthConfig,
            glab_ClientId g1 = glab_ClientId g → glab_ClientSecret g1 = glab_ClientSecret g →
            glab_TokenDB g1 = glab_TokenDB g → glab_GCSTokenDB g1 = glab_GCSTokenDB g →
            glab_RedisTokenDB g1 = glab_RedisTokenDB g → 0 < glab_HTTPTimeout g1 →
            glab_RevalidateAfter g1 ≠ 0 → gitlab_ok g1) as Hok.
  { intros g1 E1 E2 E3 E4 E5 Htimeout Hreval. unfold gitlab_ok.
    rewrite E1, E2, E3, E4, E5. split_and!; try done.
    - unfold gitlab_no_token_db in Hdb.
      destruct (decide (glab_TokenDB g = "")) as [Hpath|]; [|by left]. right.
      rewrite (bool_decide_eq_true_2 _ Hpath) in Hdb. cbn [andb] in Hdb.
      destruct (glab_GCSTokenDB g); [by left|].
      destruct (glab_RedisTokenDB g); [by right|done].
    - intros gcs Hsome. unfold gitlab_partial_gcs in Hgcs. rewrite Hsome in Hgcs.
      by apply orb_false_iff in Hgcs as [?%bool_decide_eq_false ?%bool_decide_eq_false].
    - intros r Hsome. unfold gitlab_partial_redis in Hredis. rewrite Hsome in Hredis.
      destruct (glab_ClientOptions r); [by left|].
      destruct (glab_ClusterOptions r); [by right|done]. }
  apply Hok; repeat case_decide; cbn; try done; unfold time_Hour, time_Second; lia.
Qed.

Lemma validate_google_accepts (gac gac' : GoogleAuthConfig) :
  validate_google gac = (gac', None) → google_ok gac'.
Proof.
  unfold validate_google.
  destruct (read_secret (google_ClientSecretFile gac)) as [e|secret]; [done|].
  set (g := from_option (set_google_ClientSecret gac) gac secret). clearbody g.
  destruct (_ || _ || _) eqn:Htest; [done|].
  apply orb_false_elim3 in Htest
    as (?%bool_decide_eq_false & ?%bool_decide_eq_false & ?%bool_decide_eq_false).
  intros [= <-]. unfold google_ok. case_decide; cbn; split_and!; try done; lia.
Qed.

Lemma validate_oidc_accepts (oidc oidc' : OIDCAuthConfig) :
  validate_oidc oidc = (oidc', None) → oidc_ok oidc'.
Proof.
  unfold validate_oidc.
  destruct (read_secret (oidc_ClientSecretFile oidc)) as [e|secret]; [done|].
  set (o := from_option (set_oidc_ClientSecret oidc) oidc secret). clearbody o.
  destruct (_ || _ || _ || _ || _) eqn:Htest; [done|].
  apply orb_false_iff in Htest as [Htest ?%bool_decide_eq_false].
  apply orb_false_iff in Htest as [Htest ?%bool_decide_eq_false].
  apply orb_false_elim3 in Htest
    as (?%bool_decide_eq_false & ?%bool_decide_eq_false & ?%bool_decide_eq_false).
  intros [= <-]. unfold oidc_ok.
  repeat case_decide; cbn; split_and!; try done; try lia.
Qed.

Lemma check_github_auth_keeps c :
  GoogleAuth (fst (check_github_auth c)) = GoogleAuth c ∧
  OIDCAuth (fst (check_github_auth c)) = OIDCAuth c ∧
  GitlabAuth (fst (check_github_auth c)) = GitlabAuth c.
Proof.
  unfold check_github_auth. destruct (cfg_GitHubAuth c); [|done].
  by destruct (validate_github _).
Qed.

Lemma check_oidc_auth_keeps c :
  GoogleAuth (fst (check_oidc_auth c)) = GoogleAuth c ∧
  cfg_GitHubAuth (fst (check_oidc_auth c)) = cfg_GitHubAuth c ∧
  GitlabAuth (fst (check_oidc_auth c)) = GitlabAuth c.
Proof.
  unfold check_oidc_auth. destruct (OIDCAuth c); [|done].
  by destruct (validate_oidc _).
Qed.

Lemma check_gitlab_auth_keeps c :
  GoogleAuth (fst (check_gitlab_auth c)) = GoogleAuth c ∧
  cfg_GitHubAuth (fst (check_gitlab_auth c)) = cfg_GitHubAuth c ∧
  OIDCAuth (fst (check_gitlab_auth c)) = OIDCAuth c.
Proof.
  unfold check_gitlab_auth. destruct (GitlabAuth c); [|done].
  by destruct (validate_gitlab _).
Qed.

(** The blocks after the one of a section keep the section. *)
Ltac keeps_section :=
  repeat apply Forall_cons_2; try apply Forall_nil_2; intros c0;
  first
    [ reflexivity
    | apply check_github_auth_keeps
    | apply check_oidc_auth_keeps
    | apply check_gitlab_auth_keeps ].

Lemma validate_google_block (c c' : Config) :
  validate c = (c', None) →
  ∃ c0 c1, check_google_auth c0 = (c1, None) ∧ GoogleAuth c' = GoogleAuth c1.
Proof.
  apply (chain_block (fun c1 c2 => GoogleAuth c2 = GoogleAuth c1)
           (take 9 validate_blocks) check_google_auth (drop 10 validate_blocks));
    [done|congruence|].
  cbn [drop validate_blocks]. keeps_section.
Qed.

Lemma validate_github_block (c c' : Config) :
  validate c = (c', None) →
  ∃ c0 c1, check_github_auth c0 = (c1, None) ∧ cfg_GitHubAuth c' = cfg_GitHubAuth c1.
Proof.
  apply (chain_block (fun c1 c2 => cfg_GitHubAuth c2 = cfg_GitHubAuth c1)
           (take 10 validate_blocks) check_github_auth (drop 11 validate_blocks));
    [done|congruence|].
  cbn [drop validate_blocks]. keeps_section.
Qed.

Lemma validate_oidc_block (c c' : Config) :
  validate c = (c', None) →
  ∃ c0 c1, check_oidc_auth c0 = (c1, None) ∧ OIDCAuth c' = OIDCAuth c1.
Proof.
  apply (chain_block (fun c1 c2 => OIDCAuth c2 = OIDCAuth c1)
           (take 11 validate_blocks) check_oidc_auth (drop 12 validate_blocks));
    [done|congruence|].
  cbn [drop validate_blocks]. keeps_section.
Qed.

Lemma validate_gitlab_block (c c' : Config) :
  validate c = (c', None) →
  ∃ c0 c1, check_gitlab_auth c0 = (c1, None) ∧ GitlabAuth c' = GitlabAuth c1.
Proof.
  apply (chain_block (fun c1 c2 => GitlabAuth c2 = GitlabAuth c1)
           (take 12 validate_blocks) check_gitlab_auth (drop 13 validate_blocks));
    [done|congruence|].
  cbn [drop validate_blocks]. keeps_section.
Qed.

(** X14.  In an accepted configuration every OAuth section is complete:
    [github_auth] and [gitlab_auth] have a client id and secret, a token
    store (a file path, or a GCS store with bucket and secret file, or a
    Redis store with options), an HTTP timeout above zero and a
    revalidation period that is not zero; [google_auth] and [oidc_auth]
    have their required settings, a timeout above zero and, for OIDC, a
    user claim and scopes. *)
Theorem validate_accepted_oauth (c c' : Config) :
  validate c = (c', None) →
  (∀ ghac, cfg_GitHubAuth c' = Some ghac → github_ok ghac) ∧
  (∀ glab, GitlabAuth c' = Some glab → gitlab_ok glab) ∧
  (∀ gac, GoogleAuth c' = Some gac → google_ok gac) ∧
  (∀ oidc, OIDCAuth c' = Some oidc → oidc_ok oidc).
Proof.
  intros Hval. split_and!.
  - intros ghac Hsome.
    destruct (validate_github_block c c' Hval) as (c0 & c1 & Hblock & Hkept).
    rewrite Hkept in Hsome. unfold check_github_auth in Hblock.
    destruct (cfg_GitHubAuth c0) as [g|] eqn:Hg0.
    + destruct (validate_github g) as [g' e] eqn:Hg. injection Hblock as <- ->.
      cbn in Hsome. injection Hsome as <-. by eapply validate_github_accepts.
    + injection Hblock as <-. congruence.
  - intros glab Hsome.
    destruct (validate_gitlab_block c c' Hval) as (c0 & c1 & Hblock & Hkept).
    rewrite Hkept in Hsome. unfold check_gitlab_auth in Hblock.
    destruct (GitlabAuth c0) as [g|] eqn:Hg0.
    + destruct (validate_gitlab g) as [g' e] eqn:Hg. injection Hblock as <- ->.
      cbn in Hsome. injection Hsome as <-. by eapply validate_gitlab_accepts.
    + injection Hblock as <-. congruence.
  - intros gac Hsome.
    destruct (validate_google_block c c' Hval) as (c0 & c1 & Hblock & Hkept).
    rewrite Hkept in Hsome. unfold check_google_auth in Hblock.
    destruct (GoogleAuth c0) as [g|] eqn:Hg0.
    + destruct (validate_google g) as [g' e] eqn:Hg. injection Hblock as <- ->.
      cbn in Hsome. injection Hsome as <-. by eapply validate_google_accepts.
    + injection Hblock as <-. congruence.
  - intros oidc Hsome.
    destruct (validate_oidc_block c c' Hval) as (c0 & c1 & Hblock & Hkept).
    rewrite Hkept in Hsome. unfold check_oidc_auth in Hblock.
    destruct (OIDCAuth c0) as [g|] eqn:Hg0.
    + destruct (validate_oidc g) as [g' e] eqn:Hg. injection Hblock as <- ->.
      cbn in Hsome. injection Hsome as <-. by eapply validate_oidc_accepts.
    + injection Hblock as <-. congruence.
Qed.

(** ** [LoadConfig], continued *)

Lemma load_keypair_inr (partial format certFile keyFile : string)
  (r : option (option PublicKey * option PrivateKey)) :
  load_keypair partial format certFile keyFile = inr r →
  (certFile = "" ∧ keyFile = "" ∧ r = None) ∨
  (certFile ≠ "" ∧ keyFile ≠ "" ∧
   ∃ pk prk, r = Some (pk, prk) ∧ loadCertAndKey certFile keyFile = (pk, prk, None)).
Proof.
  unfold load_keypair.
  destruct (decide (certFile = "")) as [->|Hc], (decide (keyFile = "")) as [->|Hk].
  - intros [= <-]. by left.
  - rewrite (bool_decide_eq_true_2 (keyFile ≠ "")) by done. done.
  - rewrite (bool_decide_eq_true_2 (certFile ≠ "")) by done. cbn [orb].
    by rewrite orb_true_r.
  - rewrite (bool_decide_eq_true_2 (certFile ≠ "")) by done. cbn [orb].
    rewrite (bool_decide_eq_false_2 (certFile = "")),
      (bool_decide_eq_false_2 (keyFile = "")) by done. cbn [orb].
    destruct (loadCertAndKey certFile keyFile) as [[pk prk] [e|]]; [done|].
    intros [= <-]. right. eauto 10.
Qed.


(** X16.  When [LoadConfig] succeeds the configuration has passed
    [validate] and carries token keys that a call of [loadCertAndKey]
    returned without error: on the token's own certificate and key when
    they are named, and otherwise on the server's, whose keys the token then
    shares.  The keys of the server are those [loadCertAndKey] returned for
    its files when they are named, and are left as they were otherwise. *)
Theorem LoadConfig_success_keys `{!ConfigSource} (fileName envPrefix : string)
  (c2 : Config) :
  LoadConfig fileName envPrefix = (Some c2, None) →
  ∃ c c1,
    readConfig fileName envPrefix = inr c ∧ validate c = (c1, None) ∧
    Server_CertFile (Server c2) = Server_CertFile (Server c1) ∧
    Server_KeyFile (Server c2) = Server_KeyFile (Server c1) ∧
    Token_CertFile (Token c2) = Token_CertFile (Token c1) ∧
    Token_KeyFile (Token c2) = Token_KeyFile (Token c1) ∧
    ((Server_CertFile (Server c2) = "" ∧ Server_KeyFile (Server c2) = "" ∧
      Server_publicKey (Server c2) = Server_publicKey (Server c1) ∧
      Server_privateKey (Server c2) = Server_privateKey (Server c1)) ∨
     (Server_CertFile (Server c2) ≠ "" ∧ Server_KeyFile (Server c2) ≠ "" ∧
      loadCertAndKey (Server_CertFile (Server c2)) (Server_KeyFile (Server c2))
      = (Server_publicKey (Server c2), Server_privateKey (Server c2), None))) ∧
    ((Token_CertFile (Token c2) ≠ "" ∧ Token_KeyFile (Token c2) ≠ "" ∧
      loadCertAndKey (Token_CertFile (Token c2)) (Token_KeyFile (Token c2))
      = (Token_publicKey (Token c2), Token_privateKey (Token c2), None)) ∨
     (Token_CertFile (Token c2) = "" ∧ Token_KeyFile (Token c2) = "" ∧
      Server_CertFile (Server c2) ≠ "" ∧ Server_KeyFile (Server c2) ≠ "" ∧
      Token_publicKey (Token c2) = Server_publicKey (Server c2) ∧
      Token_privateKey (Token c2) = Server_privateKey (Server c2))).
Proof.
  unfold LoadConfig. destruct (readConfig fileName envPrefix) as [e|c]; [done|].
  unfold LoadConfig_validated.
  destruct (validate c) as [c1 [e|]] eqn:Hval; [done|].
  destruct (load_keypair _ _ (Server_CertFile _) _) as [e|server] eqn:Hserver; [done|].
  apply load_keypair_inr in Hserver.
  destruct Hserver as [(Hsc & Hsk & ->)|(Hsc & Hsk & spk & sprk & -> & Hsload)];
    cbv beta iota zeta.
  - destruct (load_keypair _ _ (Token_CertFile _) _) as [e|token] eqn:Htoken; [done|].
    apply load_keypair_inr in Htoken.
    destruct Htoken as [(Htc & Htk & ->)|(Htc & Htk & tpk & tprk & -> & Htload)];
      cbv beta iota zeta; [done|].
    rewrite (bool_decide_eq_false_2 (None ≠ None)) by (by intros ?).
    rewrite (bool_decide_eq_true_2 (Some (tpk, tprk) ≠ None)) by done.
    cbn [andb negb].
    intros Hret. exists c, c1. split; [done|]. split; [done|].
    assert (c2 = set_Token c1 (set_Token_keys (Token c1) tpk tprk)) as ->
      by (repeat case_match; congruence).
    cbn. split_and!; try done; [by left|by left].
  - cbn [set_Server Token].
    destruct (load_keypair _ _ (Token_CertFile _) _) as [e|token] eqn:Htoken; [done|].
    apply load_keypair_inr in Htoken.
    rewrite (bool_decide_eq_true_2 (Some (spk, sprk) ≠ None)) by done.
    destruct Htoken as [(Htc & Htk & ->)|(Htc & Htk & tpk & tprk & -> & Htload)];
      cbv beta iota zeta.
    + rewrite (bool_decide_eq_false_2 (None ≠ None)) by (by intros ?).
      cbn [andb negb]. intros [= <-]. exists c, c1.
      cbn. split_and!; try done; [by right|by right].
    + rewrite (bool_decide_eq_true_2 (Some (tpk, tprk) ≠ None)) by done.
      cbn [andb negb]. intros [= <-]. exists c, c1.
      cbn. split_and!; try done; [by right|by left].
Qed.

(** X17.  Without a server certificate, a Let's Encrypt e-mail address
    makes [LoadConfig] insist on a cache directory: when it succeeds, the
    directory is named and exists. *)
Theorem LoadConfig_letsencrypt `{!ConfigSource} (fileName envPrefix : string)
  (c2 : Config) :
  LoadConfig fileName envPrefix = (Some c2, None) →
  Server_CertFile (Server c2) = "" →
  le_Email (LetsEncrypt (Server c2)) ≠ "" →
  CacheDir (LetsEncrypt (Server c2)) ≠ "" ∧
  stat_IsDir (CacheDir (LetsEncrypt (Server c2))) = true.
Proof.
  unfold LoadConfig. destruct (readConfig fileName envPrefix) as [e|c]; [done|].
  unfold LoadConfig_validated.
  destruct (validate c) as [c1 [e|]] eqn:Hval; [done|].
  destruct (load_keypair _ _ (Server_CertFile _) _) as [e|server] eqn:Hserver; [done|].
  apply load_keypair_inr in Hserver.
  destruct Hserver as [(Hsc & Hsk & ->)|(Hsc & Hsk & spk & sprk & -> & Hsload)];
    cbv beta iota zeta.
  - destruct (load_keypair _ _ (Token_CertFile _) _) as [e|token] eqn:Htoken; [done|].
    apply load_keypair_inr in Htoken.
    destruct Htoken as [(Htc & Htk & ->)|(Htc & Htk & tpk & tprk & -> & Htload)];
      cbv beta iota zeta; [done|].
    rewrite (bool_decide_eq_false_2 (None ≠ None)) by (by intros ?).
    rewrite (bool_decide_eq_true_2 (Some (tpk, tprk) ≠ None)) by done.
    cbn [andb negb set_Token Server].
    intros Hret _ Hemail.
    destruct (decide (CacheDir (LetsEncrypt (Server c1)) = "")) as [Hdir|Hdir].
    + rewrite (bool_decide_eq_true_2 (le_Email _ ≠ "")) in Hret; [done|].
      repeat case_match; simplify_eq; done.
    + destruct (stat_IsDir (CacheDir (LetsEncrypt (Server c1)))) eqn:Hstat.
      * repeat case_match; simplify_eq; done.
      * rewrite (bool_decide_eq_true_2 (le_Email _ ≠ "")) in Hret; [done|].
        repeat case_match; simplify_eq; done.
  - cbn [set_Server Token].
    destruct (load_keypair _ _ (Token_CertFile _) _) as [e|token] eqn:Htoken; [done|].
    rewrite (bool_decide_eq_true_2 (Some (spk, sprk) ≠ None)) by done.
    intros Hret Hcert. exfalso.
    assert (Server_CertFile (Server c2) = Server_CertFile (Server c1)) as Hsame.
    { destruct token as [[tpk tprk]|]; cbn in Hret; by simplify_eq. }
    congruence.
Qed.
End ConfigurationMore.

Lemma validate_accepted_witness :
  server_and_token_ok
    (@validate demo_deps
       (demo_config "" "" (Some (demo_config_github "" "acme")) (Some []) None)).1 ∧
  some_authn
    (@validate demo_deps
       (demo_config "" "" (Some (demo_config_github "" "acme")) (Some []) None)).1 ∧
  some_authz_of_five
    (@validate demo_deps
       (demo_config "" "" (Some (demo_config_github "" "acme")) (Some []) None)).1.
Proof.
  exact (@validate_accepted demo_deps
           (demo_config "" "" (Some (demo_config_github "" "acme")) (Some []) None) _
           eq_refl).
Defined.

Lemma validate_accepted_oauth_witness :
  github_ok (demo_config_github "" "acme").
Proof.
  refine (proj1 (@validate_accepted_oauth demo_deps
           (demo_config "" "" (Some (demo_config_github "" "acme")) (Some []) None) _
           eq_refl) _ eq_refl).
Defined.

Lemma LoadConfig_success_keys_witness :
  ∃ c c1,
    @readConfig demo_deps demo_source "/config/auth_config.yml" "AUTH" = inr c ∧
    @validate demo_deps c = (c1, None) ∧
    Server_CertFile (Server c1) = "/certs/server.pem".
Proof.
  destruct (@LoadConfig_success_keys demo_deps demo_source "/config/auth_config.yml" "AUTH"
              _ eq_refl) as (c & c1 & Hread & Hval & Hcert & _).
  exists c, c1. split; [exact Hread|]. split; [exact Hval|]. symmetry. exact Hcert.
Defined.

Lemma LoadConfig_letsencrypt_witness :
  @stat_IsDir letsencrypt_deps "/data/letsencrypt" = true.
Proof.
  refine (proj2 (@LoadConfig_letsencrypt letsencrypt_deps letsencrypt_source
                   "/config/auth_config.yml" "AUTH" _ eq_refl eq_refl _)).
  discriminate.
Defined.

(** ** [processEnvVars] *)

Section EnvVarsFacts.
Context `{EnvVarDeps}.
Import GoStrings.

Lemma Ext_go_no_dot (rbase acc : string) :
  occurs "."%char rbase = false →
  Ext_go rbase acc = "" ∧ ∀ rdir, Ext_go (rbase +:+ String "/"%char rdir) acc = "".
Proof.
  revert acc. induction rbase as [|a rbase IH]; intros acc.
  - intros _. split; [done|]. intros rdir. rewrite app_empty_l.
    cbn [Ext_go]. by rewrite bool_decide_eq_true_2.
  - cbn [occurs]. intros [Ha Hrest]%orb_false_elim.
    apply bool_decide_eq_false in Ha.
    split; [|intros rdir; rewrite app_cons]; cbn [Ext_go];
      (destruct (bool_decide (a = "/"%char)); [done|]);
      rewrite (bool_decide_eq_false_2 (a = "."%char)) by done;
      by apply IH.
Qed.

Lemma processEnvVars_loop_app (envPrefix ext : string) (envs1 envs2 : list string)
  (viper : list (string * EnvValue)) :
  processEnvVars_loop envPrefix ext (envs1 ++ envs2) viper
  = match processEnvVars_loop envPrefix ext envs1 viper with
    | Returned (viper1, None) => processEnvVars_loop envPrefix ext envs2 viper1
    | r => r
    end.
Proof.
  revert viper. induction envs1 as [|envKey envs1 IH]; intros viper; [done|].
  cbn [app processEnvVars_loop].
  destruct (SplitN_2 envKey "=") as [|keyVal0 keyVal_rest]; [done|].
  destruct (SplitAfterN_2 keyVal0 (envPrefix +:+ "_")) as [|ks0 [|ks1 [|? ?]]];
    try apply IH.
  destruct keyVal_rest as [|keyVal1 ?]; [done|].
  cbv zeta. destruct (if bool_decide (ext = "yaml" ∨ ext = "yml") then _ else _);
    [done|apply IH].
Qed.

Lemma cut_None (sep before s : string) :
  Contains s sep = false → cut sep before s = None.
Proof.
  revert before. induction s as [|a s IH]; intros before.
  - cbn [Contains cut]. by intros [-> _]%orb_false_elim.
  - cbn [Contains cut]. intros [-> Hrest]%orb_false_elim. by apply IH.
Qed.

Lemma cut_Some (sep before s : string) :
  Contains s sep = true → ∃ x y, cut sep before s = Some (x, y).
Proof.
  revert before. induction s as [|a s IH]; intros before.
  - cbn [Contains cut]. rewrite orb_false_r. intros ->. eauto.
  - cbn [Contains cut]. destruct (HasPrefix (String a s) sep); [eauto|].
    cbn [orb]. apply IH.
Qed.

Lemma SplitN_2_head (s sep : string) : ∃ x rest, SplitN_2 s sep = x :: rest.
Proof. unfold SplitN_2. destruct (cut sep "" s) as [[x y]|]; eauto. Qed.

Lemma processEnvVars_loop_filter (envPrefix ext : string) (environ : list string)
  (viper : list (string * EnvValue)) :
  processEnvVars_loop envPrefix ext environ viper
  = processEnvVars_loop envPrefix ext
      (List.filter (fun envKey => Contains (env_name envKey) (envPrefix +:+ "_")) environ)
      viper.
Proof.
  revert viper. induction environ as [|envKey environ IH]; intros viper; [done|].
  destruct (SplitN_2_head envKey "=") as (keyVal0 & keyVal_rest & Hsplit).
  assert (env_name envKey = keyVal0) as Hname by (unfold env_name; by rewrite Hsplit).
  cbn [List.filter]. rewrite Hname.
  destruct (Contains keyVal0 (envPrefix +:+ "_")) eqn:Hhas.
  - cbn [processEnvVars_loop]. rewrite Hsplit.
    destruct (SplitAfterN_2 keyVal0 (envPrefix +:+ "_")) as [|ks0 [|ks1 [|? ?]]];
      try apply IH.
    destruct keyVal_rest as [|keyVal1 ?]; [done|].
    cbv zeta. destruct (if bool_decide (ext = "yaml" ∨ ext = "yml") then _ else _);
      [done|apply IH].
  - cbn [processEnvVars_loop]. rewrite Hsplit.
    unfold SplitAfterN_2. rewrite (cut_None _ _ _ Hhas). apply IH.
Qed.

Lemma length_app' (s t : string) :
  String.length (s +:+ t) = (String.length s + String.length t)%nat.
Proof. induction s as [|a s IH]; [done|]. rewrite app_cons. cbn. by rewrite IH. Qed.

Lemma HasPrefix_app_long (sep x y : string) :
  (String.length sep ≤ String.length x)%nat → HasPrefix (x +:+ y) sep = HasPrefix x sep.
Proof.
  revert x. induction sep as [|c sep IH]; intros x Hlen.
  - by destruct x, y.
  - destruct x as [|a x]; [cbn in Hlen; lia|].
    rewrite app_cons. cbn [HasPrefix]. rewrite IH; [done|]. cbn in Hlen. lia.
Qed.

Lemma HasPrefix_app_self (sep rest : string) : HasPrefix (sep +:+ rest) sep = true.
Proof.
  induction sep as [|c sep IH]; [by destruct rest|].
  rewrite app_cons. cbn [HasPrefix]. by rewrite bool_decide_eq_true_2, IH.
Qed.

Lemma drop_bytes_app (sep rest : string) :
  drop_bytes (String.length sep) (sep +:+ rest) = rest.
Proof. induction sep as [|c sep IH]; [done|]. exact IH. Qed.

Lemma HasPrefix_spec (s sep : string) :
  HasPrefix s sep = true → s = sep +:+ drop_bytes (String.length sep) s.
Proof.
  revert s. induction sep as [|c sep IH]; intros s; [done|].
  destruct s as [|a s]; [done|]. cbn [HasPrefix].
  intros [Hac Hrest]%andb_true_iff. apply bool_decide_eq_true in Hac as ->.
  rewrite app_cons. cbn [String.length drop_bytes]. f_equal. by apply IH.
Qed.

Lemma cut_unfold (sep before s : string) :
  cut sep before s
  = if HasPrefix s sep then Some (before, drop_bytes (String.length sep) s)
    else match s with
         | EmptyString => None
         | String c s' => cut sep (before +:+ String c EmptyString) s'
         end.
Proof. by destruct s. Qed.

(** What [cut] finds is an occurrence of the separator. *)
Lemma cut_spec (sep before s x y : string) :
  cut sep before s = Some (x, y) → ∃ a, x = before +:+ a ∧ s = a +:+ sep +:+ y.
Proof.
  revert before. induction s as [|c s IH]; intros before.
  - cbn [cut]. destruct (HasPrefix "" sep) eqn:Hpre; [|done].
    intros [= <- <-]. exists "". rewrite app_empty_r, app_empty_l.
    split; [done|]. by apply HasPrefix_spec.
  - cbn [cut]. destruct (HasPrefix (String c s) sep) eqn:Hpre.
    + intros [= <- <-]. exists "". rewrite app_empty_r, app_empty_l.
      split; [done|]. by apply HasPrefix_spec.
    + intros (a & -> & ->)%IH. exists (String c a).
      by rewrite app_assoc', app_cons.
Qed.

(** The first occurrence of a separator [p ++ [c]] in [junk ++ p ++ [c] ++
    rest] is the one written, when none starts earlier. *)
Lemma cut_found (p : string) (c : ascii) (junk rest before : string) :
  Contains (junk +:+ p) (p +:+ String c "") = false →
  cut (p +:+ String c "") before (junk +:+ (p +:+ String c "") +:+ rest)
  = Some (before +:+ junk, rest).
Proof.
  revert before. induction junk as [|a junk IH]; intros before Hnone.
  - rewrite app_empty_l, app_empty_r.
    by rewrite cut_unfold, HasPrefix_app_self, drop_bytes_app.
  - rewrite !app_cons in Hnone |- *. cbn [Contains] in Hnone.
    apply orb_false_elim in Hnone as [Hhere Hlater].
    cbn [cut].
    replace (String a (junk +:+ (p +:+ String c "") +:+ rest))
      with (String a (junk +:+ p) +:+ (String c "" +:+ rest))
      by (by rewrite app_cons, !app_assoc').
    rewrite HasPrefix_app_long, Hhere.
    + replace (junk +:+ p +:+ String c "" +:+ rest)
        with (junk +:+ (p +:+ String c "") +:+ rest) by (by rewrite !app_assoc').
      rewrite IH by done. by rewrite app_assoc', app_cons.
    + cbn [String.length]. rewrite !length_app'. cbn [String.length]. lia.
Qed.

Lemma Contains_byte (c : ascii) (s : string) : Contains s (String c "") = occurs c s.
Proof.
  induction s as [|a s IH]; [done|].
  cbn [Contains occurs]. rewrite HasPrefix_byte, IH.
  f_equal. apply bool_decide_ext. naive_solver.
Qed.

Lemma Ext_go_dot (rpath acc : string) (a : ascii) (ext : string) :
  Ext_go rpath acc = String a ext → a = "."%char.
Proof.
  revert acc. induction rpath as [|b rpath IH]; intros acc; [done|].
  cbn [Ext_go]. destruct (bool_decide (b = "/"%char)); [done|].
  destruct (decide (b = "."%char)) as [->|Hb].
  - rewrite bool_decide_eq_true_2 by done. by intros [= <- _].
  - rewrite bool_decide_eq_false_2 by done. apply IH.
Qed.

Lemma processEnvVars_loop_shape (envPrefix ext : string) (environ : list string)
  (viper viper' : list (string * EnvValue)) (err : option error) :
  processEnvVars_loop envPrefix ext environ viper = Returned (viper', err) →
  ∃ added,
    viper' = viper ++ added ∧
    (length added
     ≤ length (List.filter
                 (fun envKey => Contains (env_name envKey) (envPrefix +:+ "_")) environ))%nat ∧
    (err = None →
     length added
     = length (List.filter
                 (fun envKey => Contains (env_name envKey) (envPrefix +:+ "_")) environ)).
Proof.
  revert viper. induction environ as [|envKey environ IH]; intros viper.
  - intros [= <- <-]. exists []. by rewrite app_nil_r.
  - destruct (SplitN_2_head envKey "=") as (keyVal0 & keyVal_rest & Hsplit).
    assert (env_name envKey = keyVal0) as Hname by (unfold env_name; by rewrite Hsplit).
    cbn [List.filter processEnvVars_loop]. rewrite Hname, Hsplit.
    destruct (Contains keyVal0 (envPrefix +:+ "_")) eqn:Hhas.
    + destruct (cut_Some _ "" _ Hhas) as (x & y & Hcut).
      unfold SplitAfterN_2. rewrite Hcut.
      destruct keyVal_rest as [|keyVal1 ?]; [done|].
      cbv zeta. destruct (if bool_decide (ext = "yaml" ∨ ext = "yml") then _ else _)
        as [parseErr|val].
      * intros [= <- <-]. exists []. rewrite app_nil_r. cbn [length].
        split; [done|]. split; [lia|done].
      * intros (added & -> & Hle & Heq)%IH.
        eexists (_ :: added). rewrite <- app_assoc. split; [done|].
        cbn [length]. split; [lia|]. intros Herr. by rewrite Heq.
    + unfold SplitAfterN_2. rewrite (cut_None _ _ _ Hhas). apply IH.
Qed.

(** X18.  A configuration file whose name has no extension makes
    [processEnvVars] panic: [ext[1:]] is taken of the empty string.  This
    holds for a bare name without a dot and for such a name in any
    directory, whatever dots the directory has. *)
Theorem processEnvVars_no_extension (envPrefix dir base : string) (environ : list string)
  (viper : list (string * EnvValue)) :
  occurs "."%char base = false →
  processEnvVars envPrefix base environ viper = Panicked ∧
  processEnvVars envPrefix (dir +:+ "/" +:+ base) environ viper = Panicked.
Proof.
  intros Hbase. unfold processEnvVars, filepath_Ext.
  assert (occurs "."%char (rev base) = false) as Hrev by by rewrite occurs_rev.
  destruct (Ext_go_no_dot (rev base) "" Hrev) as [Hbare Hdir].
  rewrite Hbare. split; [done|].
  rewrite !rev_app. change (rev "/") with "/".
  rewrite app_assoc'. change ("/" +:+ rev dir) with (String "/"%char (rev dir)).
  by rewrite Hdir.
Qed.

(** X19.  The environment is read in order and the first variable that
    fails ends the run: processing [envs1 ++ envs2] is processing [envs1]
    and then, when that returned no error, [envs2] on top of the values set
    so far.  An error or a panic in [envs1] is the result of the whole, with
    the values set before it. *)
Theorem processEnvVars_app (envPrefix fileName : string) (envs1 envs2 : list string)
  (viper : list (string * EnvValue)) :
  processEnvVars envPrefix fileName (envs1 ++ envs2) viper
  = match processEnvVars envPrefix fileName envs1 viper with
    | Returned (viper1, None) => processEnvVars envPrefix fileName envs2 viper1
    | r => r
    end.
Proof.
  unfold processEnvVars. destruct (filepath_Ext fileName) as [|dot ext]; [done|].
  destruct (bool_decide (ext ∈ ["yaml"; "json"; "yml"])); [|done].
  apply processEnvVars_loop_app.
Qed.

(** X20.  Only the variables whose name holds [envPrefix+"_"] count: the
    others can be taken out of the environment without changing the values
    set, the error or a panic. *)
Theorem processEnvVars_other_variables (envPrefix fileName : string)
  (environ : list string) (viper : list (string * EnvValue)) :
  processEnvVars envPrefix fileName environ viper
  = processEnvVars envPrefix fileName
      (List.filter (fun envKey => Contains (env_name envKey) (envPrefix +:+ "_")) environ)
      viper.
Proof.
  unfold processEnvVars. destruct (filepath_Ext fileName) as [|dot ext]; [done|].
  destruct (bool_decide (ext ∈ ["yaml"; "json"; "yml"])); [|done].
  apply processEnvVars_loop_filter.
Qed.

(** X21.  The prefix is looked for anywhere in the name, not at its start:
    a variable named [junk ++ envPrefix ++ "_" ++ name] whose value decodes
    sets the key made of [name], lower-cased with dots for underscores,
    whatever stands before the first [envPrefix+"_"]. *)
Theorem processEnvVars_prefix_anywhere (envPrefix fileName ext junk name value : string)
  (val : EnvValue) (viper : list (string * EnvValue)) :
  filepath_Ext fileName = String "."%char ext →
  ((ext = "yaml" ∨ ext = "yml") ∧ yaml_Unmarshal value = inr val) ∨
  (ext = "json" ∧ json_Unmarshal value = inr val) →
  occurs "="%char (junk +:+ envPrefix +:+ "_" +:+ name) = false →
  Contains (junk +:+ envPrefix) (envPrefix +:+ "_") = false →
  processEnvVars envPrefix fileName
    [(junk +:+ envPrefix +:+ "_" +:+ name) +:+ "=" +:+ value] viper
  = Returned (viper ++ [(ToLower (Replace name "_" "."), val)], None).
Proof.
  intros Hext Hdec Heq Hfirst. unfold processEnvVars. rewrite Hext.
  rewrite bool_decide_eq_true_2 by (destruct Hdec as [[[-> | ->] _]|[-> _]]; set_solver).
  cbn [processEnvVars_loop].
  assert (SplitN_2 ((junk +:+ envPrefix +:+ "_" +:+ name) +:+ "=" +:+ value) "="
          = [junk +:+ envPrefix +:+ "_" +:+ name; value]) as ->.
  { unfold SplitN_2.
    pose proof (cut_found "" "="%char (junk +:+ envPrefix +:+ "_" +:+ name) value "")
      as Hcut.
    change ("" +:+ "=") with "=" in Hcut. rewrite app_empty_r, Contains_byte in Hcut.
    by rewrite (Hcut Heq). }
  assert (SplitAfterN_2 (junk +:+ envPrefix +:+ "_" +:+ name) (envPrefix +:+ "_")
          = [junk +:+ envPrefix +:+ "_"; name]) as ->.
  { unfold SplitAfterN_2.
    replace (junk +:+ envPrefix +:+ "_" +:+ name)
      with (junk +:+ (envPrefix +:+ "_") +:+ name) by (by rewrite !app_assoc').
    by rewrite (cut_found envPrefix "_"%char junk name "" Hfirst). }
  cbv zeta.
  destruct Hdec as [[Hyaml ->]|[-> ->]].
  - by rewrite bool_decide_eq_true_2.
  - rewrite bool_decide_eq_false_2 by (by intros [?|?]).
    by rewrite bool_decide_eq_true_2.
Qed.

(** X22.  [processEnvVars] only adds to the values set before it: what it
    returns is the earlier calls of [viper.Set] followed by at most one new
    call for each variable whose name holds [envPrefix+"_"], and exactly one
    for each when it returns no error.  It returns no error only for a file
    named [.yaml], [.json] or [.yml]; for another extension it sets
    nothing. *)
Theorem processEnvVars_result (envPrefix fileName : string) (environ : list string)
  (viper viper' : list (string * EnvValue)) (err : option error) :
  processEnvVars envPrefix fileName environ viper = Returned (viper', err) →
  ∃ added,
    viper' = viper ++ added ∧
    (length added
     ≤ length (List.filter
                 (fun envKey => Contains (env_name envKey) (envPrefix +:+ "_")) environ))%nat ∧
    (err = None →
     filepath_Ext fileName ∈ [".yaml"; ".json"; ".yml"] ∧
     length added
     = length (List.filter
                 (fun envKey => Contains (env_name envKey) (envPrefix +:+ "_")) environ)) ∧
    (filepath_Ext fileName ∉ [".yaml"; ".json"; ".yml"] → added = [] ∧ err ≠ None).
Proof.
  unfold processEnvVars, filepath_Ext.
  destruct (Ext_go (rev fileName) "") as [|dot ext] eqn:Hext; [done|].
  apply Ext_go_dot in Hext as ->.
  destruct (decide (ext ∈ ["yaml"; "json"; "yml"])) as [Hin|Hout].
  - rewrite bool_decide_eq_true_2 by done.
    intros (added & -> & Hle & Hlen)%processEnvVars_loop_shape.
    exists added. split; [done|]. split; [done|].
    assert (String "."%char ext ∈ [".yaml"; ".json"; ".yml"]) as Hdot.
    { rewrite !elem_of_cons, elem_of_nil in Hin |- *.
      destruct Hin as [->|[->|[->|[]]]]; auto. }
    split; [by intros Herr; split; [|apply Hlen]|]. by intros [].
  - rewrite bool_decide_eq_false_2 by done. intros [= <- <-].
    exists []. rewrite app_nil_r. cbn [length].
    split; [done|]. split; [lia|]. split; [done|]. done.
Qed.

Lemma Replace_underscore (s : string) :
  Replace s "_" "."
  = map_bytes (fun a => if bool_decide (a = "_"%char) then "."%char else a) s.
Proof.
  unfold Replace. induction s as [|a s IH]; [done|].
  cbn [Replace_go map_bytes]. rewrite HasPrefix_byte.
  destruct (decide (a = "_"%char)) as [->|Hne].
  - rewrite !bool_decide_eq_true_2 by done.
    change (String.length "_" - 1)%nat with 0%nat.
    change ("." +:+ ?t) with (String "."%char t). by rewrite IH.
  - rewrite !bool_decide_eq_false_2 by congruence. by rewrite IH.
Qed.

Lemma all_ascii_app (s t : string) : all_ascii (s +:+ t) = all_ascii s && all_ascii t.
Proof.
  induction s as [|a s IH]; [done|].
  rewrite app_cons. cbn [all_ascii]. by rewrite IH, andb_assoc.
Qed.

Lemma lower_byte_facts (a : ascii) :
  is_upper (lower_byte a) = false ∧
  (a ≠ "_"%char → lower_byte a ≠ "_"%char) ∧
  ((N_of_ascii a <? 128)%N = true → (N_of_ascii (lower_byte a) <? 128)%N = true).
Proof. destruct a as [[] [] [] [] [] [] [] []]; vm_compute; by split_and!. Qed.

Lemma ToLower_key (s : string) :
  all_ascii s = true →
  occurs "_"%char (ToLower (Replace s "_" ".")) = false ∧
  has_upper (ToLower (Replace s "_" ".")) = false.
Proof.
  intros Hs. rewrite Replace_underscore. unfold ToLower.
  assert (all_ascii
            (map_bytes (fun a => if bool_decide (a = "_"%char) then "."%char else a) s)
          = true) as ->.
  { induction s as [|a s IH]; [done|].
    cbn [all_ascii map_bytes] in Hs |- *. apply andb_true_iff in Hs as [Ha Hs].
    rewrite (IH Hs), andb_true_r. by case_bool_decide. }
  clear Hs. induction s as [|a s IH]; [done|].
  cbn [map_bytes occurs has_upper]. destruct IH as [-> ->].
  rewrite !orb_false_r.
  destruct (lower_byte_facts (if bool_decide (a = "_"%char) then "."%char else a))
    as (Hup & Hunder & _).
  split; [|done]. apply bool_decide_eq_false, Hunder. by case_bool_decide.
Qed.

Lemma cut_all_ascii (sep before s x y : string) :
  cut sep before s = Some (x, y) → all_ascii s = true → all_ascii y = true.
Proof.
  intros (a & _ & ->)%cut_spec. rewrite !all_ascii_app.
  by intros [_ [_ Hy]%andb_true_iff]%andb_true_iff.
Qed.

Lemma cut_all_ascii_before (sep s x y : string) :
  cut sep "" s = Some (x, y) → all_ascii s = true → all_ascii x = true.
Proof.
  intros (a & -> & ->)%cut_spec. rewrite app_empty_l, !all_ascii_app.
  by intros [Ha _]%andb_true_iff.
Qed.

Lemma processEnvVars_loop_keys (envPrefix ext : string) (environ : list string)
  (viper viper' : list (string * EnvValue)) (err : option error) :
  processEnvVars_loop envPrefix ext environ viper = Returned (viper', err) →
  Forall (fun envKey => all_ascii envKey = true) environ →
  ∃ added,
    viper' = viper ++ added ∧
    Forall (fun kv => occurs "_"%char kv.1 = false ∧ has_upper kv.1 = false) added.
Proof.
  revert viper. induction environ as [|envKey environ IH]; intros viper.
  - intros [= <- <-] _. exists []. by rewrite app_nil_r.
  - intros Hrun [Hascii Hrest]%Forall_cons. revert Hrun.
    cbn [processEnvVars_loop]. unfold SplitN_2.
    destruct (cut "=" "" envKey) as [[keyVal0 keyVal1]|] eqn:Hcut.
    + pose proof (cut_all_ascii_before _ _ _ _ Hcut Hascii) as Hname.
      unfold SplitAfterN_2.
      destruct (cut (envPrefix +:+ "_") "" keyVal0) as [[before ks1]|] eqn:Hcut2;
        [|by intros Hrun; apply (IH _ Hrun)].
      pose proof (cut_all_ascii _ _ _ _ _ Hcut2 Hname) as Hks1.
      cbv zeta. destruct (if bool_decide (ext = "yaml" ∨ ext = "yml") then _ else _)
        as [parseErr|val].
      * intros [= <- <-]. exists []. by rewrite app_nil_r.
      * intros (added & -> & Hadded)%IH; [|done].
        eexists (_ :: added). rewrite <- app_assoc. split; [done|].
        apply Forall_cons. split; [|done]. by apply ToLower_key.
    + unfold SplitAfterN_2.
      destruct (cut (envPrefix +:+ "_") "" envKey) as [[before ks1]|];
        [done|by intros Hrun; apply (IH _ Hrun)].
Qed.

(** X23.  With an environment of ASCII text every key that
    [processEnvVars] sets is in the form viper looks keys up by: it has no
    underscore and no upper-case letter. *)
Theorem processEnvVars_keys (envPrefix fileName : string) (environ : list string)
  (viper viper' : list (string * EnvValue)) (err : option error) :
  processEnvVars envPrefix fileName environ viper = Returned (viper', err) →
  Forall (fun envKey => all_ascii envKey = true) environ →
  ∃ added,
    viper' = viper ++ added ∧
    Forall (fun kv => occurs "_"%char kv.1 = false ∧ has_upper kv.1 = false) added.
Proof.
  unfold processEnvVars. destruct (filepath_Ext fileName) as [|dot ext]; [done|].
  destruct (bool_decide (ext ∈ ["yaml"; "json"; "yml"])).
  - apply processEnvVars_loop_keys.
  - intros [= <- <-] _. exists []. by rewrite app_nil_r.
Qed.

End EnvVarsFacts.

Lemma processEnvVars_no_extension_witness :
  occurs "."%char "auth_config" = false ∧
  @processEnvVars demo_env "AUTH" ("/etc/docker.auth" +:+ "/" +:+ "auth_config")
    demo_environ []
  = Panicked.
Proof.
  split; [reflexivity|].
  exact (proj2 (@processEnvVars_no_extension demo_env "AUTH" "/etc/docker.auth"
                  "auth_config" demo_environ [] eq_refl)).
Defined.

Lemma processEnvVars_prefix_anywhere_witness :
  @processEnvVars demo_env "AUTH" "/config/auth_config.yml"
    ["DOCKER_AUTH_TOKEN_ISSUER=Acme"] []
  = Returned ([("token.issuer", "Acme")], None).
Proof.
  exact (@processEnvVars_prefix_anywhere demo_env "AUTH" "/config/auth_config.yml" "yml"
           "DOCKER_" "TOKEN_ISSUER" "Acme" "Acme" [] eq_refl
           (or_introl (conj (or_intror eq_refl) eq_refl)) eq_refl eq_refl).
Defined.

Lemma processEnvVars_result_witness :
  ∃ added,
    [("server.addr", ":5001"); ("token.issuer", "Acme")] = [] ++ added ∧
    length added = 2%nat.
Proof.
  destruct (@processEnvVars_result demo_env "AUTH" "/config/auth_config.yml" demo_environ
              [] [("server.addr", ":5001"); ("token.issuer", "Acme")] None eq_refl)
    as (added & Hadded & _ & Hlen & _).
  exists added. split; [exact Hadded|]. exact (proj2 (Hlen eq_refl)).
Defined.

Lemma processEnvVars_keys_witness :
  ∃ added,
    [("server.addr", ":5001"); ("token.issuer", "Acme")] = [] ++ added ∧
    Forall (fun kv : string * string =>
              occurs "_"%char kv.1 = false ∧ has_upper kv.1 = false) added.
Proof.
  refine (@processEnvVars_keys demo_env "AUTH" "/config/auth_config.yml" demo_environ
            [] [("server.addr", ":5001"); ("token.issuer", "Acme")] None eq_refl _).
  repeat constructor.
Defined.

(** ** The sign-in pages *)

Section SignInFacts.
Context `{Http} `{GitHubJson} `{SignIn} {DB : Type} `{TokenDBOps DB}.

Lemma fetchTeams_error_nil (gha : GitHubAuth DB) (fuel : nat) (token : string)
  (teams : option (list string)) (err : error) :
  fetchTeams gha fuel token = Returned (teams, Some err) → teams = None.
Proof.
  unfold fetchTeams. case_decide as Horg; [by intros [= <-]|].
  destruct (fetchTeamPages _ _ _ _) as [[e|allTeams]| |]; cbn [obind];
    [by intros [= <- _]|idtac|done..].
  destruct (collectOrganizationTeams _ _ _) as [m| |]; by cbn [obind].
Qed.

(** What a run of [doGitHubAuthCreateToken] that returns has done: it has
    answered with one error and left the database alone, or answered with
    the error of a failed store, or stored a vouched token and rendered the
    result page with the password the store returned. *)
Lemma doGitHubAuthCreateToken_cases (gha gha' : GitHubAuth DB) (now : Z) (fuel : nat)
  (rw rw' : list written) (code : string) :
  doGitHubAuthCreateToken gha now fuel rw code = Returned (gha', rw') →
  (gha' = gha ∧
   ∃ msg status,
     rw' = rw ++ [http_Error msg status] ∧
     status ∈ [StatusBadRequest; StatusInternalServerError; StatusServiceUnavailable]) ∨
  (∃ c2t user userTeams err db' dp result,
     vouched gha code c2t user ∧
     fetchTeams gha fuel (c2t_AccessToken c2t) = Returned (userTeams, err) ∧
     StoreToken (db gha) user (new_token_value gha now c2t userTeams) true
     = (db', (dp, result)) ∧
     gha' = mkGitHubAuth (config gha) db' ∧
     match result with
     | Some _ =>
         rw' = rw ++ [http_Error (Literal "Failed to record server token: %s")
                        StatusInternalServerError]
     | None => rw' = doGitHubAuthResultPage gha rw user dp
     end).
Proof.
  unfold doGitHubAuthCreateToken.
  destruct (http_NewRequest _ _) as [e|req] eqn:Hreq.
  { intros [= <- <-]. left. split; [done|]. do 2 eexists. split; [done|].
    rewrite !elem_of_cons. auto. }
  cbv zeta. destruct (client_Do_body _ _) as [e|resp] eqn:Hdo.
  { intros [= <- <-]. left. split; [done|]. do 2 eexists. split; [done|].
    rewrite !elem_of_cons. auto. }
  destruct (Unmarshal_c2t _) as [e|c2t] eqn:Hc2t.
  { intros [= <- <-]. left. split; [done|]. do 2 eexists. split; [done|].
    rewrite !elem_of_cons. auto. }
  destruct (decide (c2t_Error c2t ≠ "" ∨ c2t_ErrorDescription c2t ≠ "")) as [Herr|Hok].
  { intros [= <- <-]. left. split; [done|]. do 2 eexists. split; [done|].
    rewrite !elem_of_cons. auto. }
  destruct (validateAccessToken _ _) as [user [e|]] eqn:Hvalid.
  { intros [= <- <-]. left. split; [done|]. do 2 eexists. split; [done|].
    rewrite !elem_of_cons. auto. }
  destruct (fetchTeams _ _ _) as [[userTeams err]| |] eqn:Hteams; cbn [obind fst];
    [|done..].
  destruct (StoreToken _ _ _ _) as [db' [dp result]] eqn:Hstore.
  assert (vouched gha code c2t user) as Hvouched.
  { exists req, resp. split_and!; try done.
    - destruct (decide (c2t_Error c2t = "")); [done|]. destruct Hok. by left.
    - destruct (decide (c2t_ErrorDescription c2t = "")); [done|]. destruct Hok. by right. }
  intros Hret. right. exists c2t, user, userTeams, err, db', dp, result.
  split; [done|]. split; [done|]. split; [done|].
  destruct result; by injection Hret as <- <-.
Qed.

(** X24.  The sign-in handler writes to the token database only a token
    that the provider has just vouched for: whenever [DoGitHubAuth] leaves
    a database other than the one it found, the request carried a code, the
    exchange of the code gave a token without an error, [validateAccessToken]
    accepted the token, and the database is the result of storing it under
    the login the provider named, valid for [RevalidateAfter] from now.
    The configuration is never changed. *)
Theorem DoGitHubAuth_stores_vouched (gha gha' : GitHubAuth DB) (now : Z) (fuel : nat)
  (rw rw' : list written) (req : Request) :
  DoGitHubAuth gha now fuel rw req = Returned (gha', rw') →
  config gha' = config gha ∧
  (db gha' = db gha ∨
   ∃ c2t user userTeams err,
     Query_Get (URL req) "code" ≠ "" ∧
     vouched gha (Query_Get (URL req) "code") c2t user ∧
     fetchTeams gha fuel (c2t_AccessToken c2t) = Returned (userTeams, err) ∧
     db gha'
     = (StoreToken (db gha) user (new_token_value gha now c2t userTeams) true).1).
Proof.
  unfold DoGitHubAuth. cbv zeta. case_decide as Hcode.
  - intros [[-> _]|Hstored]%doGitHubAuthCreateToken_cases; [by split; [|left]|].
    destruct Hstored
      as (c2t & user & userTeams & err & db' & dp & result & Hv & Ht & Hs & -> & _).
    split; [done|]. right. exists c2t, user, userTeams, err.
    split_and!; try done. by rewrite Hs.
  - case_decide; intros [= <- _]; by split; [|left].
Qed.

(** X25.  A failure to list the teams does not stop the sign-in: when the
    token is vouched for and [fetchTeams] returns an error, the token is
    stored all the same, with an empty list of teams. *)
Theorem doGitHubAuthCreateToken_teams_error (gha : GitHubAuth DB) (now : Z) (fuel : nat)
  (rw : list written) (code user : string) (c2t : CodeToTokenResponse)
  (userTeams : option (list string)) (err : error) :
  vouched gha code c2t user →
  fetchTeams gha fuel (c2t_AccessToken c2t) = Returned (userTeams, Some err) →
  ∃ rw',
    doGitHubAuthCreateToken gha now fuel rw code
    = Returned
        (mkGitHubAuth (config gha)
           (StoreToken (db gha) user (new_token_value gha now c2t None) true).1,
         rw') ∧
    tv_Labels (new_token_value gha now c2t None) = Some {["teams" := []]}.
Proof.
  intros (req & resp & Hreq & Hdo & Hc2t & Herr & Hdesc & Hvalid) Hteams.
  pose proof (fetchTeams_error_nil _ _ _ _ _ Hteams) as ->.
  unfold doGitHubAuthCreateToken. rewrite Hreq. cbv zeta. rewrite Hdo, Hc2t.
  rewrite decide_False by (rewrite Herr, Hdesc; by intros [?|?]).
  rewrite Hvalid, Hteams. cbn [obind fst].
  destruct (StoreToken _ _ _ _) as [db' [dp [e|]]]; by eexists.
Qed.

(** X26.  What [DoGitHubAuth] answers.  Without a code it renders the
    sign-in page for a GET and writes nothing for another method.  With a
    code it either calls [http.Error] once, with status 400, 500 or 503 and
    no page, or renders the result page; the result page comes only after a
    store that returned no error, and shows the login the provider named
    and the password the store returned.  A page is followed by at most one
    call of [http.Error], for an error of the template. *)
Theorem DoGitHubAuth_response (gha gha' : GitHubAuth DB) (now : Z) (fuel : nat)
  (rw rw' : list written) (req : Request) :
  DoGitHubAuth gha now fuel rw req = Returned (gha', rw') →
  ∃ events,
    rw' = rw ++ events ∧
    ((Query_Get (URL req) "code" = "" ∧ Method req ≠ "GET" ∧ events = []) ∨
     (Query_Get (URL req) "code" ≠ "" ∧
      ∃ msg status,
        events = [http_Error msg status] ∧
        status ∈ [StatusBadRequest; StatusInternalServerError; StatusServiceUnavailable]) ∨
     (∃ page rest,
        events = page :: rest ∧
        (rest = [] ∨
         ∃ err, rest = [http_Error (Sprintf_err "Template error: %s" err)
                          StatusInternalServerError]) ∧
        ((Query_Get (URL req) "code" = "" ∧ Method req = "GET" ∧
          page = tmpl_Execute (ClientId (config gha)) (getGithubWebUri gha)
                   (gh_Organization (config gha))) ∨
         (∃ c2t user userTeams dp,
            vouched gha (Query_Get (URL req) "code") c2t user ∧
            (StoreToken (db gha) user (new_token_value gha now c2t userTeams) true).2
            = (dp, None) ∧
            page = tmplResult_Execute (gh_Organization (config gha)) user dp
                     (RegistryUrl (config gha)))))).
Proof.
  unfold DoGitHubAuth. cbv zeta.
  destruct (decide (Query_Get (URL req) "code" ≠ "")) as [Hcode|Hcode].
  - intros [[_ (msg & status & -> & Hstatus)]|Hstored]%doGitHubAuthCreateToken_cases.
    { eexists. split; [done|]. right. left. split; [done|]. eauto. }
    destruct Hstored
      as (c2t & user & userTeams & err & db' & dp & result & Hv & Ht & Hs & _ & Hrw).
    destruct result as [e|].
    + subst rw'. eexists. split; [done|]. right. left. split; [done|].
      do 2 eexists. split; [done|]. rewrite !elem_of_cons. auto.
    + subst rw'. unfold doGitHubAuthResultPage. cbv zeta.
      destruct (tmplResult_error _ _ _ _) as [e|].
      * rewrite <- app_assoc. eexists. split; [done|]. right. right.
        do 2 eexists. split; [done|]. split; [right; by eexists|]. right.
        exists c2t, user, userTeams, dp. by rewrite Hs.
      * eexists. split; [done|]. right. right.
        do 2 eexists. split; [done|]. split; [by left|]. right.
        exists c2t, user, userTeams, dp. by rewrite Hs.
  - assert (Query_Get (URL req) "code" = "") as Hempty
      by (by destruct (decide (Query_Get (URL req) "code" = ""))).
    case_decide as Hget.
    + intros [= _ <-]. unfold doGitHubAuthPage. cbv zeta.
      destruct (tmpl_error _ _ _) as [e|].
      * rewrite <- app_assoc. eexists. split; [done|]. right. right.
        do 2 eexists. split; [done|]. split; [right; by eexists|]. by left.
      * eexists. split; [done|]. right. right.
        do 2 eexists. split; [done|]. split; [by left|]. by left.
    + intros [= _ <-]. exists []. rewrite app_nil_r. split; [done|]. by left.
Qed.

End SignInFacts.

Lemma DoGitHubAuth_stores_vouched_witness :
  ∃ gha' rw',
    @DoGitHubAuth demo_http demo_json demo_signin MemDB MemDB_ops empty_gha 100 10 []
      signin_request
    = Returned (gha', rw') ∧
    config gha' = config empty_gha ∧
    entries (db gha') !! "alice"
    = Some (mkTokenDBValue "bearer" "gho_alice" (100 + 1 * time_Hour) "dp-alice"
              (Some {["teams" := ["web"; "core"; "platform"]]})).
Proof.
  eexists _, _. split; [vm_compute; reflexivity|].
  split; [|vm_compute; reflexivity].
  refine (proj1 (@DoGitHubAuth_stores_vouched demo_http demo_json demo_signin MemDB
                   MemDB_ops empty_gha _ 100 10 [] _ signin_request _)).
  vm_compute. reflexivity.
Defined.

Lemma doGitHubAuthCreateToken_teams_error_witness :
  ∃ rw',
    @doGitHubAuthCreateToken teamless_http demo_json demo_signin MemDB MemDB_ops empty_gha
      100 10 [] "abc123"
    = Returned
        (mkGitHubAuth (config empty_gha)
           (StoreToken (db empty_gha) "alice"
              (new_token_value empty_gha 100
                 (mkCodeToTokenResponse "gho_alice" "bearer" "" "") None) true).1,
         rw') ∧
    tv_Labels
      (new_token_value empty_gha 100 (mkCodeToTokenResponse "gho_alice" "bearer" "" "") None)
    = Some {["teams" := []]}.
Proof.
  refine (@doGitHubAuthCreateToken_teams_error teamless_http demo_json demo_signin MemDB
            MemDB_ops empty_gha 100 10 [] "abc123" "alice"
            (mkCodeToTokenResponse "gho_alice" "bearer" "" "") None
            (fmt_Errorf_err "HTTP error while retrieving %s. Error : %s"
               [ArgS "https://api.github.com/user/teams?per_page=100"]
               (errors_New "no such host")) _ _).
  - exists (mkRequest "POST" "https://github.com/login/oauth/access_token" []),
      (ok_response None "gho_alice").
    split_and!; vm_compute; reflexivity.
  - vm_compute. reflexivity.
Defined.

Lemma DoGitHubAuth_response_witness :
  ∃ gha' events,
    @DoGitHubAuth demo_http demo_json demo_signin MemDB MemDB_ops empty_gha 100 10 []
      signin_request
    = Returned (gha', [] ++ events) ∧
    events = [tmplResult_Execute "acme" "alice" "dp-alice" ""].
Proof.
  destruct (@DoGitHubAuth_response demo_http demo_json demo_signin MemDB MemDB_ops
              empty_gha
              (mkGitHubAuth (config empty_gha)
                 (StoreToken (db empty_gha) "alice"
                    (new_token_value empty_gha 100
                       (mkCodeToTokenResponse "gho_alice" "bearer" "" "")
                       (Some ["web"; "core"; "platform"])) true).1)
              100 10 [] [tmplResult_Execute "acme" "alice" "dp-alice" ""] signin_request)
    as (events & Hevents & _).
  { vm_compute. reflexivity. }
  exists (mkGitHubAuth (config empty_gha)
            (StoreToken (db empty_gha) "alice"
               (new_token_value empty_gha 100
                  (mkCodeToTokenResponse "gho_alice" "bearer" "" "")
                  (Some ["web"; "core"; "platform"])) true).1), events.
  cbn [app] in Hevents |- *. rewrite <- Hevents. split; [vm_compute|]; reflexivity.
Defined.

(** ** [validate] on a configuration it has accepted *)

Section ValidateTwice.
Context `{ConfigDeps}.














End ValidateTwice.

